(** * Buffer manager (src/buf.C): a shallow embedding and its properties

    The C++ class [BufMgr] is embedded as a record of its members together
    with the state of the storage its [File] objects talk to.  Every member
    function becomes a function from states to results; a result of [None]
    stands for undefined behaviour of the C++ code (an array access out of
    bounds, or the use of an out-parameter that was never assigned).

    The [int] members are modelled in [Z]; the only arithmetic the class
    performs on them is adding or subtracting one and one remainder, and
    overflow of a counter is outside the model. *)

From stdpp Require Import base option list gmap.
From Stdlib Require Import ZArith Lia.

#[local] Open Scope Z_scope.

(** ** Status codes used by buf.C *)

Inductive Status : Set :=
  | OK
  | BUFFEREXCEEDED
  | UNIXERR
  | HASHNOTFOUND
  | HASHTBLERROR
  | PAGENOTPINNED
  | PAGEPINNED
  | BADBUFFER.

#[global] Instance Status_eq_dec : EqDecision Status.
Proof. solve_decision. Defined.

(** [a == b] and [a != b] on status codes. *)
Definition status_eq (a b : Status) : bool :=
  match a, b with
  | OK, OK
  | BUFFEREXCEEDED, BUFFEREXCEEDED
  | UNIXERR, UNIXERR
  | HASHNOTFOUND, HASHNOTFOUND
  | HASHTBLERROR, HASHTBLERROR
  | PAGENOTPINNED, PAGENOTPINNED
  | PAGEPINNED, PAGEPINNED
  | BADBUFFER, BADBUFFER => true
  | _, _ => false
  end.
Definition status_ne (a b : Status) : bool := negb (status_eq a b).

(** ** Files and pages

    A [File*] is an address; [NULL] is the null pointer.  Two handles are
    the same file exactly when the pointers are equal, as in
    [tmpbuf->file == file]. *)

Definition File : Set := Z.
Definition NULL : File := 0.

(** ** Frame descriptors (class BufDesc) *)

Record BufDesc : Set := mkBufDesc {
  file    : File;
  pageNo  : Z;
  frameNo : Z;
  pinCnt  : Z;
  dirty   : bool;
  refbit  : bool;
  valid   : bool
}.

#[global] Instance BufDesc_eq_dec : EqDecision BufDesc.
Proof. solve_decision. Defined.

Definition set_refbit (b : bool) (d : BufDesc) : BufDesc :=
  mkBufDesc (file d) (pageNo d) (frameNo d) (pinCnt d) (dirty d) b (valid d).
Definition set_pinCnt (n : Z) (d : BufDesc) : BufDesc :=
  mkBufDesc (file d) (pageNo d) (frameNo d) n (dirty d) (refbit d) (valid d).
Definition set_dirty (b : bool) (d : BufDesc) : BufDesc :=
  mkBufDesc (file d) (pageNo d) (frameNo d) (pinCnt d) b (refbit d) (valid d).
Definition set_file (f : File) (d : BufDesc) : BufDesc :=
  mkBufDesc f (pageNo d) (frameNo d) (pinCnt d) (dirty d) (refbit d) (valid d).
Definition set_pageNo (p : Z) (d : BufDesc) : BufDesc :=
  mkBufDesc (file d) p (frameNo d) (pinCnt d) (dirty d) (refbit d) (valid d).
Definition set_valid (b : bool) (d : BufDesc) : BufDesc :=
  mkBufDesc (file d) (pageNo d) (frameNo d) (pinCnt d) (dirty d) (refbit d) b.

(** Modelled from the spec: BufDesc::Set (declared in buf.h, which is not
    part of the sources).  A descriptor is initialised with the owning file
    and page number set, valid = true, dirty = false, ref_bit = true and
    pin_count = 1; the frame identity is immutable. *)
Definition BufDesc_Set (filePtr : File) (pageNum : Z) (d : BufDesc) : BufDesc :=
  mkBufDesc filePtr pageNum (frameNo d) 1 false true true.

(** Modelled from the spec: BufDesc::Clear (declared in buf.h, which is not
    part of the sources).  The descriptor is reset to invalid: no owning
    file, the page-number sentinel, pin_count 0, dirty and ref_bit clear.
    The sentinel values are those [flushFile] writes when it invalidates a
    frame. *)
Definition BufDesc_Clear (d : BufDesc) : BufDesc :=
  mkBufDesc NULL (-1) (frameNo d) 0 false false false.

(** The descriptor the constructor leaves in slot [i]: memset to zero, then
    [frameNo = i] and [valid = false]. *)
Definition BufDesc_init (i : Z) : BufDesc :=
  mkBufDesc NULL 0 i 0 false false false.

(** The descriptors with their reference bits masked out. *)
Definition unreferenced (t : list BufDesc) : list BufDesc :=
  map (set_refbit false) t.

(** ** Arrays indexed by an [int] *)

Definition arr_get {A : Type} (a : list A) (i : Z) : option A :=
  if i <? 0 then None else a !! Z.to_nat i.

Definition arr_set {A : Type} (a : list A) (i : Z) (x : A) : list A :=
  if i <? 0 then a else <[Z.to_nat i := x]> a.

(** ** The page index (class BufHashTbl)

    The class is declared in buf.h and implemented outside buf.C; the
    buffer manager uses its [lookup], [insert] and [remove]. *)

Abbreviation BufHashTbl := (gmap (File * Z) Z).

(** Modelled from the spec: BufHashTbl::lookup (not part of the sources).
    The index maps a page identity (file, page number) to the frame holding
    it; lookup fails with "not found" when the identity is absent.  The
    out-parameter [frameNo] is assigned only when the lookup succeeds. *)
Definition BufHashTbl_lookup (ht : BufHashTbl) (f : File) (p : Z)
  : Status * option Z :=
  match ht !! (f, p) with
  | Some fr => (OK, Some fr)
  | None => (HASHNOTFOUND, None)
  end.

(** What [insert] does with an identity that the index already holds.
    Neither the sources nor the description of the index settle it, and a
    map from identities to frames leaves two readings: the insert is
    refused, or it replaces the frame the identity is mapped to. *)
Inductive DupPolicy : Set :=
  | RejectDuplicate
  | ReplaceDuplicate.

Class HashTblSpec := { on_duplicate : DupPolicy }.

(** Modelled from the spec: BufHashTbl::insert (not part of the sources).
    Insert maps a page identity to a frame and returns a result.  On an
    identity that is absent it adds the mapping and succeeds.  On an
    identity that is already present it follows [on_duplicate]: it fails
    with the index failure status and changes nothing, or it succeeds and
    maps the identity to the new frame. *)
Definition BufHashTbl_insert `{hs : HashTblSpec}
    (ht : BufHashTbl) (f : File) (p : Z) (fr : Z) : Status * BufHashTbl :=
  match ht !! (f, p) with
  | Some _ =>
      match on_duplicate with
      | RejectDuplicate => (HASHTBLERROR, ht)
      | ReplaceDuplicate => (OK, <[(f, p) := fr]> ht)
      end
  | None => (OK, <[(f, p) := fr]> ht)
  end.

(** Modelled from the spec: BufHashTbl::remove (not part of the sources).
    Remove takes the entry of a page identity out of the index and returns
    a result; it fails, with the index failure status, when there is no
    such entry. *)
Definition BufHashTbl_remove (ht : BufHashTbl) (f : File) (p : Z)
  : Status * BufHashTbl :=
  match ht !! (f, p) with
  | Some _ => (OK, delete (f, p) ht)
  | None => (HASHTBLERROR, ht)
  end.

(** ** The File abstraction

    buf.C calls four member functions of [File]: [readPage], [writePage],
    [allocatePage] and [disposePage].  Their code is not part of the buffer
    manager; they are an interface over the state [World] of durable
    storage.  Each returns a [Status]; [readPage] fills the page buffer it
    is given, and [allocatePage] assigns its reference parameter (the
    interface receives the value the parameter held before the call, so an
    implementation may leave it unassigned). *)

Class FileSys (Page World : Type) := {
  page_zero : Page;
  file_readPage : File -> Z -> Page -> World -> Status * Page * World;
  file_writePage : File -> Z -> Page -> World -> Status * World;
  file_allocatePage : File -> Z -> World -> Status * Z * World;
  file_disposePage : File -> Z -> World -> Status * World
}.

(** The calls made on Files, in the order they were made. *)
Inductive IoEvent (Page : Type) : Type :=
  | IoRead (f : File) (p : Z)
  | IoWrite (f : File) (p : Z) (pg : Page)
  | IoAllocate (f : File)
  | IoDispose (f : File) (p : Z).
Arguments IoRead {Page} f p.
Arguments IoWrite {Page} f p pg.
Arguments IoAllocate {Page} f.
Arguments IoDispose {Page} f p.

(** ** The state: the members of BufMgr, and the storage behind the Files *)

Record State (Page World : Type) : Type := mkState {
  numBufs   : Z;
  bufTable  : list BufDesc;
  bufPool   : list Page;
  hashTable : BufHashTbl;
  clockHand : Z;
  disk      : World;
  io        : list (IoEvent Page)
}.
Arguments mkState {Page World}.
Arguments numBufs {Page World}.
Arguments bufTable {Page World}.
Arguments bufPool {Page World}.
Arguments hashTable {Page World}.
Arguments clockHand {Page World}.
Arguments disk {Page World}.
Arguments io {Page World}.

(** The outcome of one iteration of the replacement loop: [break], or the
    next iteration with the new value of [numPins]. *)
Inductive ScanStep (S : Type) : Type :=
  | Break (s : S)
  | Continue (s : S) (numPins : Z).
Arguments Break {S} s.
Arguments Continue {S} s numPins.

(** The outcome of the whole loop. *)
Inductive LoopResult (S : Type) : Type :=
  | LoopDone (s : S) (numPins : Z)
  | LoopUndef
  | LoopFuel.
Arguments LoopDone {S} s numPins.
Arguments LoopUndef {S}.
Arguments LoopFuel {S}.

Section Model.
Context {Page World : Type} `{fs : FileSys Page World} `{hs : HashTblSpec}.

Local Abbreviation St := (State Page World).

Definition with_bufTable (t : list BufDesc) (s : St) : St :=
  mkState (numBufs s) t (bufPool s) (hashTable s) (clockHand s) (disk s) (io s).
Definition with_bufPool (pl : list Page) (s : St) : St :=
  mkState (numBufs s) (bufTable s) pl (hashTable s) (clockHand s) (disk s) (io s).
Definition with_hashTable (ht : BufHashTbl) (s : St) : St :=
  mkState (numBufs s) (bufTable s) (bufPool s) ht (clockHand s) (disk s) (io s).
Definition with_clockHand (h : Z) (s : St) : St :=
  mkState (numBufs s) (bufTable s) (bufPool s) (hashTable s) h (disk s) (io s).
Definition with_disk (w : World) (e : IoEvent Page) (s : St) : St :=
  mkState (numBufs s) (bufTable s) (bufPool s) (hashTable s) (clockHand s) w
          (io s ++ [e]).

(** [bufTable[i] = d] *)
Definition set_desc (i : Z) (d : BufDesc) (s : St) : St :=
  with_bufTable (arr_set (bufTable s) i d) s.

(** *** Calls on a File, each recorded in [io] *)

Definition do_readPage (f : File) (p : Z) (buf : Page) (s : St)
  : Status * Page * St :=
  let '(rc, pg, w) := file_readPage f p buf (disk s) in
  (rc, pg, with_disk w (IoRead f p) s).

Definition do_writePage (f : File) (p : Z) (pg : Page) (s : St) : Status * St :=
  let '(rc, w) := file_writePage f p pg (disk s) in
  (rc, with_disk w (IoWrite f p pg) s).

Definition do_allocatePage (f : File) (pageNo0 : Z) (s : St) : Status * Z * St :=
  let '(rc, p, w) := file_allocatePage f pageNo0 (disk s) in
  (rc, p, with_disk w (IoAllocate f) s).

Definition do_disposePage (f : File) (p : Z) (s : St) : Status * St :=
  let '(rc, w) := file_disposePage f p (disk s) in
  (rc, with_disk w (IoDispose f p) s).

(** *** BufMgr::BufMgr(bufs) *)

Definition BufMgr_new (bufs : Z) (w : World) : St :=
  mkState bufs
          (map (fun i => BufDesc_init (Z.of_nat i)) (seq 0 (Z.to_nat bufs)))
          (replicate (Z.to_nat bufs) page_zero)
          ∅
          (bufs - 1)
          w
          [].

(** *** BufMgr::allocBuf *)

(** The hand after one step. *)
Definition next_hand (s : St) : Z := Z.rem (clockHand s + 1) (numBufs s).

(** The body of the [while] loop, entered with [numPins < numBufs]. *)
Definition scan_step (s : St) (numPins : Z) : option (ScanStep St) :=
  let s1 := with_clockHand (next_hand s) s in
  match arr_get (bufTable s1) (clockHand s1) with
  | None => None
  | Some tmpbuf =>
      if negb (valid tmpbuf) then Some (Break s1)
      else if negb (refbit tmpbuf) then
        if pinCnt tmpbuf =? 0 then Some (Break s1)
        else Some (Continue s1 (numPins + 1))
      else
        Some (Continue (set_desc (clockHand s1) (set_refbit false tmpbuf) s1)
                       numPins)
  end.

(** [while (numPins < numBufs) { ... }] *)
Fixpoint scan (fuel : nat) (s : St) (numPins : Z) : LoopResult St :=
  if numBufs s <=? numPins then LoopDone s numPins
  else
    match fuel with
    | O => LoopFuel
    | S fuel' =>
        match scan_step s numPins with
        | None => LoopUndef
        | Some (Break s') => LoopDone s' numPins
        | Some (Continue s' numPins') => scan fuel' s' numPins'
        end
    end.

(** The number of descriptors whose reference bit is set. *)
Definition refbits (t : list BufDesc) : nat :=
  length (filter (fun d => refbit d = true) t).

(** Every iteration that does not leave the loop either counts a pin or
    clears a reference bit, so this many iterations are enough. *)
Definition scan_fuel (s : St) (numPins : Z) : nat :=
  (Z.to_nat (numBufs s - numPins) + refbits (bufTable s))%nat.

(** The part of [allocBuf] after the loop; [tmpbuf] still points at
    [bufTable[clockHand]].  The second component of the result is the value
    assigned to the out-parameter [frame], if any. *)
Definition evict (s : St) (numPins : Z) : option (Status * option Z * St) :=
  if numBufs s <=? numPins then Some (BUFFEREXCEEDED, None, s)
  else
    match arr_get (bufTable s) (clockHand s) with
    | None => None
    | Some tmpbuf =>
        if valid tmpbuf then
          let '(rc, ht) := BufHashTbl_remove (hashTable s) (file tmpbuf) (pageNo tmpbuf) in
          let s1 := with_hashTable ht s in
          if status_ne rc OK then Some (rc, None, s1)
          else if dirty tmpbuf then
            match arr_get (bufPool s1) (clockHand s1) with
            | None => None
            | Some pg =>
                let '(rc, s2) := do_writePage (file tmpbuf) (pageNo tmpbuf) pg s1 in
                if status_ne rc OK then Some (UNIXERR, None, s2)
                else Some (OK, Some (frameNo tmpbuf), s2)
            end
          else Some (OK, Some (frameNo tmpbuf), s1)
        else Some (OK, Some (frameNo tmpbuf), s)
    end.

(** The loop is given [scan_fuel] iterations, which is always enough (lemma
    [scan_terminates] below), so the case [LoopFuel] does not arise. *)
Definition allocBuf (s : St) : option (Status * option Z * St) :=
  match scan (scan_fuel s 0) s 0 with
  | LoopDone s1 numPins => evict s1 numPins
  | LoopUndef => None
  | LoopFuel => None
  end.

(** The state an iteration of the loop ends in. *)
Definition step_state (r : ScanStep St) : St :=
  match r with Break s' => s' | Continue s' _ => s' end.

(** The state after a victim's index entry is gone. *)
Definition unindexed (d : BufDesc) (s : St) : St :=
  with_hashTable (delete (file d, pageNo d) (hashTable s)) s.

(** The state after a victim's page went to its file, leaving storage in
    state [w]. *)
Definition written_back (d : BufDesc) (pg : Page) (w : World) (s : St) : St :=
  with_disk w (IoWrite (file d) (pageNo d) pg) (unindexed d s).

(** *** BufMgr::readPage

    The second component of a result is the frame whose storage the
    out-parameter [page] is made to point at, if it was assigned. *)

(** Case 1 of [readPage]: the lookup was unsuccessful. *)
Definition readPage_miss (file : File) (PageNo : Z) (s : St)
  : option (Status * option Z * St) :=
  match allocBuf s with
  | None => None
  | Some (rc, repframe, s1) =>
      if status_ne rc OK then Some (rc, None, s1)
      else
        match repframe with
        | None => None
        | Some repframe =>
            match arr_get (bufPool s1) repframe with
            | None => None
            | Some buf =>
                let '(rc, pg, s2) := do_readPage file PageNo buf s1 in
                let s3 := with_bufPool (arr_set (bufPool s2) repframe pg) s2 in
                if status_ne rc OK then Some (UNIXERR, None, s3)
                else
                  let '(rc, ht) :=
                    BufHashTbl_insert (hashTable s3) file PageNo repframe in
                  let s4 := with_hashTable ht s3 in
                  if status_ne rc OK then Some (HASHTBLERROR, None, s4)
                  else
                    match arr_get (bufTable s4) repframe with
                    | None => None
                    | Some d =>
                        Some (OK, Some repframe,
                              set_desc repframe (BufDesc_Set file PageNo d) s4)
                    end
            end
        end
  end.

(** Case 2 of [readPage]: the lookup was successful. *)
Definition readPage_hit (frameno : option Z) (s : St)
  : option (Status * option Z * St) :=
  match frameno with
  | None => None
  | Some frameno =>
      match arr_get (bufTable s) frameno with
      | None => None
      | Some d =>
          let d1 := set_refbit true d in
          let d2 := set_pinCnt (pinCnt d1 + 1) d1 in
          Some (OK, Some frameno, set_desc frameno d2 s)
      end
  end.

Definition readPage (file : File) (PageNo : Z) (s : St)
  : option (Status * option Z * St) :=
  let '(rc, frameno) := BufHashTbl_lookup (hashTable s) file PageNo in
  if status_ne rc OK || status_ne rc HASHNOTFOUND then Some (rc, None, s)
  else if status_eq rc HASHNOTFOUND then readPage_miss file PageNo s
  else readPage_hit frameno s.

(** *** BufMgr::unPinPage *)

Definition unPinPage (file : File) (PageNo : Z) (dirty : bool) (s : St)
  : option (Status * St) :=
  let '(rc, frameno) := BufHashTbl_lookup (hashTable s) file PageNo in
  if status_ne rc OK then Some (HASHNOTFOUND, s)
  else
    match frameno with
    | None => None
    | Some frameno =>
        match arr_get (bufTable s) frameno with
        | None => None
        | Some d =>
            if pinCnt d =? 0 then Some (PAGENOTPINNED, s)
            else
              let d1 := set_pinCnt (pinCnt d - 1) d in
              let d2 := if dirty then set_dirty dirty d1 else d1 in
              Some (OK, set_desc frameno d2 s)
        end
    end.

(** *** BufMgr::allocPage

    [pageNo0] is the value the caller's variable holds before the call; the
    results are the status, the values of the reference parameters [pageNo]
    and [page] (the latter as a frame, if assigned), and the state. *)

Definition allocPage (file : File) (pageNo0 : Z) (s : St)
  : option (Status * Z * option Z * St) :=
  let '(_, pageNo, s0) := do_allocatePage file pageNo0 s in
  match allocBuf s0 with
  | None => None
  | Some (rc, frameno, s1) =>
      if status_ne rc OK then Some (rc, pageNo, None, s1)
      else
        match frameno with
        | None => None
        | Some frameno =>
            let '(rc, ht) := BufHashTbl_insert (hashTable s1) file pageNo frameno in
            let s2 := with_hashTable ht s1 in
            if status_ne rc OK then Some (HASHTBLERROR, pageNo, None, s2)
            else
              match arr_get (bufTable s2) frameno with
              | None => None
              | Some d =>
                  Some (OK, pageNo, Some frameno,
                        set_desc frameno (BufDesc_Set file pageNo d) s2)
              end
        end
  end.

(** *** BufMgr::disposePage *)

Definition disposePage (file : File) (pageNo : Z) (s : St) : option (Status * St) :=
  let '(status, found) := BufHashTbl_lookup (hashTable s) file pageNo in
  let frameNo := default 0 found in
  let cleared :=
    if status_eq status OK then
      match arr_get (bufTable s) frameNo with
      | None => None
      | Some d => Some (set_desc frameNo (BufDesc_Clear d) s)
      end
    else Some s in
  match cleared with
  | None => None
  | Some s1 =>
      let '(_, ht) := BufHashTbl_remove (hashTable s1) file pageNo in
      Some (do_disposePage file pageNo (with_hashTable ht s1))
  end.

(** *** BufMgr::flushFile *)

(** The body of the [for] loop at index [i]: [Some rc] in the first
    component is a [return rc] from inside the loop. *)
Definition flush_frame (file' : File) (i : Z) (s : St)
  : option (option Status * St) :=
  match arr_get (bufTable s) i with
  | None => None
  | Some tmpbuf =>
      if valid tmpbuf && bool_decide (file tmpbuf = file') then
        if 0 <? pinCnt tmpbuf then Some (Some PAGEPINNED, s)
        else
          let written :=
            if dirty tmpbuf then
              match arr_get (bufPool s) i with
              | None => None
              | Some pg =>
                  let '(status, s1) :=
                    do_writePage (file tmpbuf) (pageNo tmpbuf) pg s in
                  if status_ne status OK then Some (Some status, s1)
                  else Some (None, set_desc i (set_dirty false tmpbuf) s1)
              end
            else Some (None, s) in
          match written with
          | None => None
          | Some (Some status, s1) => Some (Some status, s1)
          | Some (None, s1) =>
              match arr_get (bufTable s1) i with
              | None => None
              | Some tmpbuf1 =>
                  let '(_, ht) :=
                    BufHashTbl_remove (hashTable s1) file' (pageNo tmpbuf1) in
                  let d := set_valid false (set_pageNo (-1) (set_file NULL tmpbuf1)) in
                  Some (None, set_desc i d (with_hashTable ht s1))
              end
          end
      else if negb (valid tmpbuf) && bool_decide (file tmpbuf = file') then
        Some (Some BADBUFFER, s)
      else Some (None, s)
  end.

(** The state [flushFile] leaves once the frame at [i], whose descriptor
    was [d], is out of the index and marked invalid. *)
Definition flushed (file' : File) (i : Z) (d : BufDesc) (s : St) : St :=
  set_desc i (set_valid false (set_pageNo (-1) (set_file NULL d)))
           (with_hashTable (BufHashTbl_remove (hashTable s) file' (pageNo d)).2 s).

(** [for (int i = ...; i < numBufs; i++)] with [n] iterations left. *)
Fixpoint flush_loop (n : nat) (file' : File) (i : Z) (s : St)
  : option (Status * St) :=
  match n with
  | O => Some (OK, s)
  | S n' =>
      match flush_frame file' i s with
      | None => None
      | Some (Some rc, s') => Some (rc, s')
      | Some (None, s') => flush_loop n' file' (i + 1) s'
      end
  end.

Definition flushFile (file' : File) (s : St) : option (Status * St) :=
  flush_loop (Z.to_nat (numBufs s)) file' 0 s.

End Model.

(** ** A concrete File implementation, for running the model

    Pages hold a number; storage remembers the pages written and the next
    page number to hand out, and can be told to fail writes or
    allocations. *)

Record Disk : Set := mkDisk {
  d_next : Z;
  d_store : list (File * Z * Z);
  d_write_ok : bool;
  d_alloc_ok : bool
}.

Definition disk_read (f : File) (p : Z) (w : Disk) : Z :=
  match find (fun e => bool_decide (e.1 = (f, p))) (d_store w) with
  | Some e => e.2
  | None => 0
  end.

#[global] Instance Disk_fs : FileSys Z Disk := {|
  page_zero := 0;
  file_readPage f p buf w := (OK, disk_read f p w, w);
  file_writePage f p pg w :=
    if d_write_ok w
    then (OK, mkDisk (d_next w) ((f, p, pg) :: d_store w) (d_write_ok w) (d_alloc_ok w))
    else (UNIXERR, w);
  file_allocatePage f p0 w :=
    if d_alloc_ok w
    then (OK, d_next w, mkDisk (d_next w + 1) (d_store w) (d_write_ok w) (d_alloc_ok w))
    else (UNIXERR, p0, w);
  file_disposePage f p w := (OK, w)
|}.

Definition disk0 : Disk := mkDisk 1 [] true true.

(** The other reading of [insert]: an index that replaces the frame of an
    identity it already holds.  It is used by name, not found by instance
    search. *)
Definition replacing_index : HashTblSpec := {| on_duplicate := ReplaceDuplicate |}.

(** A File implementation that refuses every write with a status other
    than UNIXERR, and otherwise behaves as [Disk_fs]; it is used by name,
    not found by instance search. *)
Definition Refusing_fs : FileSys Z Disk := {|
  page_zero := 0;
  file_readPage f p buf w := (OK, disk_read f p w, w);
  file_writePage f p pg w := (BADBUFFER, w);
  file_allocatePage f p0 w :=
    if d_alloc_ok w
    then (OK, d_next w, mkDisk (d_next w + 1) (d_store w) (d_write_ok w) (d_alloc_ok w))
    else (UNIXERR, p0, w);
  file_disposePage f p w := (OK, w)
|}.

(** The index the model is run with: one that refuses an identity it
    already holds. *)
#[global] Instance strict_index : HashTblSpec := {| on_duplicate := RejectDuplicate |}.

(** Sequencing of calls when running the model on a concrete state. *)
Definition then_allocPage (f : File) (r : option (State Z Disk)) : option (State Z Disk) :=
  s ← r; snd <$> allocPage f 0 s.
Definition then_unPinPage (f : File) (p : Z) (b : bool) (r : option (State Z Disk))
  : option (State Z Disk) :=
  s ← r; snd <$> unPinPage f p b s.

(** ** Well-formed states and the index invariant *)

Section Invariants.
Context {Page World : Type}.

Local Abbreviation St := (State Page World).

(** What the constructor establishes about the shape of the arrays and
    descriptors, and every operation keeps. *)
Record WF (s : St) : Prop := mkWF {
  wf_table : Z.of_nat (length (bufTable s)) = numBufs s;
  wf_pool : length (bufPool s) = length (bufTable s);
  wf_hand : -1 <= clockHand s;
  wf_frameNo : forall i d, bufTable s !! i = Some d -> frameNo d = Z.of_nat i;
  wf_pin : forall i d, bufTable s !! i = Some d -> 0 <= pinCnt d;
  wf_invalid : forall i d, bufTable s !! i = Some d -> valid d = false ->
               pinCnt d = 0 /\ file d = NULL
}.

(** The link between valid frames and index entries. *)
Record Linked (s : St) : Prop := mkLinked {
  linked_frame : forall i d, bufTable s !! i = Some d -> valid d = true ->
                 hashTable s !! (file d, pageNo d) = Some (Z.of_nat i);
  linked_entry : forall f p fr, hashTable s !! (f, p) = Some fr ->
                 exists d, arr_get (bufTable s) fr = Some d /\ valid d = true /\
                           file d = f /\ pageNo d = p
}.

Definition Inv (s : St) : Prop := WF s /\ Linked s.

(** The links of a state in which frame [k] is free: no entry refers to
    it, whatever its descriptor says.  This is the state between the
    eviction of a victim and the initialisation of its frame. *)
Record Free (k : Z) (s : St) : Prop := mkFree {
  free_frame : forall i d, bufTable s !! i = Some d -> Z.of_nat i <> k ->
               valid d = true ->
               hashTable s !! (file d, pageNo d) = Some (Z.of_nat i);
  free_entry : forall f p fr, hashTable s !! (f, p) = Some fr ->
               fr <> k /\
               exists d, arr_get (bufTable s) fr = Some d /\ valid d = true /\
                         file d = f /\ pageNo d = p
}.

(** The bijection between valid frames and index entries, spelled out:
    every valid frame is referenced by exactly one entry, no entry refers
    to an invalid frame, and no two entries refer to the same frame. *)
Definition index_bijection (s : St) : Prop :=
  (forall i d, bufTable s !! i = Some d -> valid d = true ->
     exists k, hashTable s !! k = Some (Z.of_nat i) /\
               forall k', hashTable s !! k' = Some (Z.of_nat i) -> k' = k) /\
  (forall k fr, hashTable s !! k = Some fr ->
     exists d, arr_get (bufTable s) fr = Some d /\ valid d = true) /\
  (forall k1 k2 fr, hashTable s !! k1 = Some fr -> hashTable s !! k2 = Some fr ->
     k1 = k2).

(** A frame that holds a page in use. *)
Definition pinned (d : BufDesc) : Prop := valid d = true /\ 0 < pinCnt d.

(** A call [writePage] that [flushFile f] makes for a dirty, unpinned page
    of [f] held in one of the frames [lo, hi) of state [s]. *)
Definition flush_write (f : File) (s : St) (lo hi : Z) (e : IoEvent Page) : Prop :=
  exists j d pg,
    lo <= j < hi /\ arr_get (bufTable s) j = Some d /\
    valid d = true /\ file d = f /\ dirty d = true /\ pinCnt d <= 0 /\
    arr_get (bufPool s) j = Some pg /\ e = IoWrite f (pageNo d) pg.

(** A frame the replacement policy may take at once: empty, or holding an
    unpinned page whose reference bit is clear. *)
Definition candidate (d : BufDesc) : Prop :=
  valid d = false \/ (refbit d = false /\ pinCnt d = 0).

(** What the replacement loop keeps when every frame is pinned: the state
    stays well formed, every frame stays pinned, and the frames the hand
    has passed have their reference bits clear.  [c] counts the iterations
    so far. *)
Definition swept (s : St) (numPins : Z) : Prop :=
  WF s /\ 0 <= numPins /\
  (forall i d, bufTable s !! i = Some d -> pinned d) /\
  exists c, numPins <= c /\
    forall j, 0 <= j < c ->
      exists d, arr_get (bufTable s) ((clockHand s - j) mod numBufs s) = Some d /\
                refbit d = false.

(** The fields of a descriptor that [unPinPage] has no business with. *)
Definition identity_fields (d : BufDesc) : File * Z * Z * bool * bool :=
  (file d, pageNo d, frameNo d, refbit d, valid d).

End Invariants.

(** ** Sequences of calls on the public interface *)

Inductive Op : Set :=
  | OpReadPage (f : File) (p : Z)
  | OpUnPinPage (f : File) (p : Z) (dirty : bool)
  | OpAllocPage (f : File) (pageNo0 : Z)
  | OpDisposePage (f : File) (p : Z)
  | OpFlushFile (f : File).

Section Runs.
Context {Page World : Type} `{fs : FileSys Page World} `{hs : HashTblSpec}.

Local Abbreviation St := (State Page World).

Definition run_op (o : Op) (s : St) : option (Status * St) :=
  match o with
  | OpReadPage f p => (fun r => (r.1.1, r.2)) <$> readPage f p s
  | OpUnPinPage f p b => unPinPage f p b s
  | OpAllocPage f p0 => (fun r => (r.1.1.1, r.2)) <$> allocPage f p0 s
  | OpDisposePage f p => disposePage f p s
  | OpFlushFile f => flushFile f s
  end.

(** An allocation that got past the removal of its victim's index entry
    and then failed is the one call after which the pool is left
    half-evicted; [clean] holds of every other outcome. *)
Definition clean (o : Op) (rc : Status) : Prop :=
  match o with
  | OpAllocPage _ _ => rc = OK \/ rc = BUFFEREXCEEDED
  | _ => True
  end.

(** States reached from a fresh pool of [bufs] frames by clean calls. *)
Inductive CleanlyReachable (bufs : Z) (w : World) : St -> Prop :=
  | reach_new : CleanlyReachable bufs w (BufMgr_new bufs w)
  | reach_step s o rc s' :
      CleanlyReachable bufs w s -> run_op o s = Some (rc, s') -> clean o rc ->
      CleanlyReachable bufs w s'.

End Runs.

(** ** Concrete pools

    All of them hold pages of one file, the one at address 7, and are
    reached from a fresh pool by the calls named with them. *)

Definition fresh (bufs : Z) (w : Disk) : option (State Z Disk) :=
  Some (BufMgr_new bufs w).

(** Storage on which every write fails, and storage on which every
    allocation fails. *)
Definition disk_nowrite : Disk := mkDisk 1 [] false true.
Definition disk_noalloc : Disk := mkDisk 1 [] true false.

(** One frame, holding page 1, pinned once: a fresh pool of one frame after
    one [allocPage]. *)
Definition one_cached : State Z Disk :=
  mkState 1 [mkBufDesc 7 1 0 1 false true true] [0] {[ (7, 1) := 0 ]} 0
          (mkDisk 2 [] true true) [IoAllocate 7].

(** Two frames, holding pages 1 and 2, each pinned once: a fresh pool of
    two frames after two calls of [allocPage]. *)
Definition two_pinned_on (w : Disk) : State Z Disk :=
  mkState 2
          [mkBufDesc 7 1 0 1 false true true; mkBufDesc 7 2 1 1 false true true]
          [0; 0] {[ (7, 1) := 0; (7, 2) := 1 ]} 1
          (mkDisk 3 [] (d_write_ok w) (d_alloc_ok w)) [IoAllocate 7; IoAllocate 7].
Definition two_pinned : State Z Disk := two_pinned_on disk0.

(** [two_pinned] after page 1 has been unpinned as dirty. *)
Definition one_dirty_on (w : Disk) : State Z Disk :=
  mkState 2
          [mkBufDesc 7 1 0 0 true true true; mkBufDesc 7 2 1 1 false true true]
          [0; 0] {[ (7, 1) := 0; (7, 2) := 1 ]} 1
          (mkDisk 3 [] (d_write_ok w) (d_alloc_ok w)) [IoAllocate 7; IoAllocate 7].
Definition one_dirty : State Z Disk := one_dirty_on disk0.

(** Where the replacement loop stops in [one_dirty]: at frame 0, after one
    round that cleared both reference bits. *)
Definition one_dirty_scanned : State Z Disk :=
  mkState 2
          [mkBufDesc 7 1 0 0 true false true; mkBufDesc 7 2 1 1 false false true]
          [0; 0] {[ (7, 1) := 0; (7, 2) := 1 ]} 0
          (mkDisk 3 [] true true) [IoAllocate 7; IoAllocate 7].

(** [one_dirty] on storage that fails writes, after an [allocPage] that
    chose frame 0 as its victim, removed its index entry and then failed to
    write it back. *)
Definition half_evicted : State Z Disk :=
  mkState 2
          [mkBufDesc 7 1 0 0 true false true; mkBufDesc 7 2 1 1 false false true]
          [0; 0] {[ (7, 2) := 1 ]} 0
          (mkDisk 4 [] false true)
          [IoAllocate 7; IoAllocate 7; IoAllocate 7; IoWrite 7 1 0].

(** [half_evicted] after page 2 has been unpinned. *)
Definition half_evicted_unpinned : State Z Disk :=
  mkState 2
          [mkBufDesc 7 1 0 0 true false true; mkBufDesc 7 2 1 0 false false true]
          [0; 0] {[ (7, 2) := 1 ]} 0
          (mkDisk 4 [] false true)
          [IoAllocate 7; IoAllocate 7; IoAllocate 7; IoWrite 7 1 0].

(** Two frames: page 1 pinned with its reference bit clear, page 4
    unpinned with its reference bit set, the hand on frame 1.  Reached from
    a fresh pool of two frames by allocPage, allocPage, allocPage (which
    fails, every frame being pinned), unPinPage of page 2, allocPage (which
    replaces page 2 by page 4) and unPinPage of page 4. *)
Definition starved : State Z Disk :=
  mkState 2
          [mkBufDesc 7 1 0 1 false false true; mkBufDesc 7 4 1 0 false true true]
          [0; 0] {[ (7, 1) := 0; (7, 4) := 1 ]} 1
          (mkDisk 5 [] true true)
          [IoAllocate 7; IoAllocate 7; IoAllocate 7; IoAllocate 7].

(** [one_dirty] after [flushFile] of the file: page 1 written back, out of
    the index and its frame invalid; page 2 as it was. *)
Definition one_flushed : State Z Disk :=
  mkState 2
          [mkBufDesc NULL (-1) 0 0 false true false; mkBufDesc 7 2 1 1 false true true]
          [0; 0] {[ (7, 2) := 1 ]} 1
          (mkDisk 3 [(7, 1, 0)] true true)
          [IoAllocate 7; IoAllocate 7; IoWrite 7 1 0].

(** [one_cached] after page 1 has been unpinned as dirty. *)
Definition one_unpinned : State Z Disk :=
  mkState 1 [mkBufDesc 7 1 0 0 true true true] [0] {[ (7, 1) := 0 ]} 0
          (mkDisk 2 [] true true) [IoAllocate 7].

(** [one_unpinned] after [flushFile] of the file: page 1 written back, the
    frame invalid and the index empty. *)
Definition one_written : State Z Disk :=
  mkState 1 [mkBufDesc NULL (-1) 0 0 false true false] [0] ∅ 0
          (mkDisk 2 [(7, 1, 0)] true true) [IoAllocate 7; IoWrite 7 1 0].

(** [one_cached] after [disposePage] of page 1, which was pinned. *)
Definition one_disposed : State Z Disk :=
  mkState 1 [mkBufDesc NULL (-1) 0 0 false false false] [0] ∅ 0
          (mkDisk 2 [] true true) [IoAllocate 7; IoDispose 7 1].

(** [one_dirty] after [allocBuf]: the victim, page 1 in frame 0, written
    back and out of the index, its descriptor still valid. *)
Definition one_dirty_evicted : State Z Disk :=
  mkState 2
          [mkBufDesc 7 1 0 0 true false true; mkBufDesc 7 2 1 1 false false true]
          [0; 0] {[ (7, 2) := 1 ]} 0
          (mkDisk 3 [(7, 1, 0)] true true)
          [IoAllocate 7; IoAllocate 7; IoWrite 7 1 0].

(** What two calls of [allocPage] leave of a fresh pool of two frames when
    allocation in the file fails, the caller's variable holds 0, and the
    index replaces: both frames valid for page 0, one index entry. *)
Definition two_for_one : State Z Disk :=
  mkState 2
          [mkBufDesc 7 0 0 1 false true true; mkBufDesc 7 0 1 1 false true true]
          [0; 0] {[ (7, 0) := 1 ]} 1
          (mkDisk 1 [] true false) [IoAllocate 7; IoAllocate 7].

(** ** The rest of the class: teardown, and what holds after any call *)

Section Teardown.
Context {Page World : Type} `{fs : FileSys Page World} `{hs : HashTblSpec}.

Local Abbreviation St := (State Page World).

(** *** BufMgr::~BufMgr

    The loop of the destructor with [n] iterations left: every frame that
    is valid and dirty is written to its file, and the status of the write
    is not looked at. *)
Fixpoint destroy_loop (n : nat) (i : Z) (s : St) : option St :=
  match n with
  | O => Some s
  | S n' =>
      match arr_get (bufTable s) i with
      | None => None
      | Some tmpbuf =>
          if valid tmpbuf && dirty tmpbuf then
            match arr_get (bufPool s) i with
            | None => None
            | Some pg =>
                let '(_, s1) := do_writePage (file tmpbuf) (pageNo tmpbuf) pg s in
                destroy_loop n' (i + 1) s1
            end
          else destroy_loop n' (i + 1) s
      end
  end.

(** The destructor frees the arrays; what is left is the storage and the
    calls that were made on Files. *)
Definition BufMgr_destroy (s : St) : option (World * list (IoEvent Page)) :=
  (fun s' => (disk s', io s')) <$> destroy_loop (Z.to_nat (numBufs s)) 0 s.

(** The write-backs of the frames that satisfy [sel], in frame order, each
    with the contents of its frame. *)
Fixpoint writes_of (sel : BufDesc -> bool) (t : list BufDesc) (pl : list Page)
  : list (IoEvent Page) :=
  match t, pl with
  | d :: t', pg :: pl' =>
      (if sel d then [IoWrite (file d) (pageNo d) pg] else []) ++ writes_of sel t' pl'
  | _, _ => []
  end.

(** A frame holding a page of file [f]. *)
Definition holds (f : File) (d : BufDesc) : bool :=
  valid d && bool_decide (file d = f).

(** The descriptor a successful [flushFile f] leaves in place of [d]. *)
Definition flush_desc (f : File) (d : BufDesc) : BufDesc :=
  if holds f d
  then mkBufDesc NULL (-1) (frameNo d) (pinCnt d) false (refbit d) false
  else d.

(** What every call keeps, whether it succeeds or fails: the shape of the
    arrays and descriptors ([WF]), no dirty bit on an invalid frame, and
    index entries that refer to frames of the table. *)
Record Sound (s : St) : Prop := mkSound {
  sound_wf : WF s;
  sound_dirty : forall i d, bufTable s !! i = Some d -> valid d = false ->
                dirty d = false;
  sound_entry : forall k fr, hashTable s !! k = Some fr -> 0 <= fr < numBufs s
}.

(** States reached from a fresh pool of [bufs] frames by any calls,
    whatever they returned. *)
Inductive Reachable (bufs : Z) (w : World) : St -> Prop :=
  | reachable_new : Reachable bufs w (BufMgr_new bufs w)
  | reachable_step s o rc s' :
      Reachable bufs w s -> run_op o s = Some (rc, s') -> Reachable bufs w s'.

(** The frame [j] steps ahead of the clock hand. *)
Definition ahead (s : St) (j : Z) : Z := (clockHand s + 1 + j) mod numBufs s.

End Teardown.

(** ** Arrays *)

Section Arrays.
Context {A : Type}.
Implicit Types (a : list A) (i j : Z) (x y : A).

Lemma arr_get_Some a i x :
  arr_get a i = Some x <-> 0 <= i /\ a !! Z.to_nat i = Some x.
Proof.
  unfold arr_get. destruct (Z.ltb_spec i 0); split.
  - discriminate.
  - intros [? _]. lia.
  - auto.
  - intros [_ ?]. assumption.
Qed.

Lemma arr_get_nat a (n : nat) : arr_get a (Z.of_nat n) = a !! n.
Proof.
  unfold arr_get. destruct (Z.ltb_spec (Z.of_nat n) 0); [lia|].
  by rewrite Nat2Z.id.
Qed.

Lemma arr_get_range a i x : arr_get a i = Some x -> 0 <= i < Z.of_nat (length a).
Proof.
  rewrite arr_get_Some. intros [? H]. apply lookup_lt_Some in H. lia.
Qed.

Lemma arr_get_in_range a i :
  0 <= i < Z.of_nat (length a) -> exists x, arr_get a i = Some x.
Proof.
  intros H. destruct (lookup_lt_is_Some_2 a (Z.to_nat i)) as [x Hx]; [lia|].
  exists x. apply arr_get_Some. split; [lia | done].
Qed.

Lemma length_arr_set a i x : length (arr_set a i x) = length a.
Proof. unfold arr_set. destruct (i <? 0); [done | apply length_insert]. Qed.

Lemma arr_set_lookup_eq a i x y :
  arr_get a i = Some x -> arr_set a i y !! Z.to_nat i = Some y.
Proof.
  intros H. pose proof (arr_get_range _ _ _ H).
  unfold arr_set. destruct (Z.ltb_spec i 0); [lia|].
  apply list_lookup_insert_eq. lia.
Qed.

Lemma arr_set_lookup_ne a i (n : nat) y :
  i <> Z.of_nat n -> arr_set a i y !! n = a !! n.
Proof.
  intros H. unfold arr_set. destruct (Z.ltb_spec i 0); [done|].
  apply list_lookup_insert_ne. lia.
Qed.

Lemma arr_set_lookup a i (n : nat) x y :
  arr_get a i = Some x ->
  arr_set a i y !! n = if decide (i = Z.of_nat n) then Some y else a !! n.
Proof.
  intros H. destruct (decide (i = Z.of_nat n)) as [->|Hne].
  - pose proof (arr_set_lookup_eq a (Z.of_nat n) x y H) as H'.
    by rewrite Nat2Z.id in H'.
  - by apply arr_set_lookup_ne.
Qed.

Lemma arr_get_set_eq a i x y :
  arr_get a i = Some x -> arr_get (arr_set a i y) i = Some y.
Proof.
  intros H. apply arr_get_Some. split.
  - by apply arr_get_range in H as [? _].
  - by eapply arr_set_lookup_eq.
Qed.

Lemma arr_get_set_ne a i j y : i <> j -> arr_get (arr_set a i y) j = arr_get a j.
Proof.
  intros H. unfold arr_get. destruct (Z.ltb_spec j 0); [done|].
  apply arr_set_lookup_ne. lia.
Qed.

Lemma arr_set_same a i x : arr_get a i = Some x -> arr_set a i x = a.
Proof.
  intros H. apply arr_get_Some in H as [? H].
  unfold arr_set. destruct (Z.ltb_spec i 0); [lia|].
  by apply list_insert_id.
Qed.

End Arrays.

Lemma map_arr_set {A B : Type} (g : A -> B) (a : list A) (i : Z) (x : A) :
  map g (arr_set a i x) = arr_set (map g a) i (g x).
Proof.
  unfold arr_set. destruct (i <? 0); [done|].
  apply (list_fmap_insert g).
Qed.

Lemma arr_get_map {A B : Type} (g : A -> B) (a : list A) (i : Z) :
  arr_get (map g a) i = g <$> arr_get a i.
Proof.
  unfold arr_get. destruct (i <? 0); [done|]. apply (list_lookup_fmap g).
Qed.

(** ** Status tests *)

Lemma status_ne_true (a b : Status) : status_ne a b = true <-> a <> b.
Proof. destruct a, b; cbn; split; congruence. Qed.

Lemma status_ne_false (a b : Status) : status_ne a b = false <-> a = b.
Proof. destruct a, b; cbn; split; congruence. Qed.

(** ** Properties of the operations *)

Section Properties.
Context {Page World : Type} `{fs : FileSys Page World} `{hs : HashTblSpec}.

Local Abbreviation St := (State Page World).
Implicit Types (s : St) (d : BufDesc) (f : File) (p : Z).

(** *** readPage *)

(** The guard [rc != OK || rc != HASHNOTFOUND] holds of every status, so
    [readPage] hands back the status of the lookup and touches nothing. *)
Lemma readPage_result f p s :
  readPage f p s = Some ((BufHashTbl_lookup (hashTable s) f p).1, None, s).
Proof.
  unfold readPage, BufHashTbl_lookup.
  destruct (hashTable s !! (f, p)); reflexivity.
Qed.

(** Had the hit branch been reached, it would have set the reference bit
    and added one pin, with no call on a File. *)
Lemma readPage_hit_effect fr d s :
  arr_get (bufTable s) fr = Some d ->
  exists s',
    readPage_hit (Some fr) s = Some (OK, Some fr, s') /\
    arr_get (bufTable s') fr =
      Some (mkBufDesc (file d) (pageNo d) (frameNo d) (pinCnt d + 1) (dirty d) true
                      (valid d)) /\
    io s' = io s /\ disk s' = disk s /\ hashTable s' = hashTable s.
Proof.
  intros H. unfold readPage_hit. rewrite H. eexists. split; [reflexivity|].
  split; [|done]. cbn. by eapply arr_get_set_eq.
Qed.

(** Had the miss branch been reached and every step of it succeeded, it
    would have loaded the page into the frame [allocBuf] hands out, entered
    it in the index and left the frame with pin count 1. *)
Lemma readPage_miss_effect f p s fr s1 buf pg w d :
  allocBuf s = Some (OK, Some fr, s1) ->
  arr_get (bufPool s1) fr = Some buf ->
  file_readPage f p buf (disk s1) = (OK, pg, w) ->
  hashTable s1 !! (f, p) = None ->
  arr_get (bufTable s1) fr = Some d ->
  exists s',
    readPage_miss f p s = Some (OK, Some fr, s') /\
    arr_get (bufTable s') fr = Some (mkBufDesc f p (frameNo d) 1 false true true) /\
    hashTable s' !! (f, p) = Some fr /\
    arr_get (bufPool s') fr = Some pg /\
    io s' = io s1 ++ [IoRead f p].
Proof.
  intros Halloc Hbuf Hread Hht Hd. unfold readPage_miss.
  rewrite Halloc. cbn. rewrite Hbuf. unfold do_readPage. rewrite Hread. cbn.
  unfold BufHashTbl_insert. cbn. rewrite Hht. cbn. rewrite Hd.
  eexists. split; [reflexivity|]. cbn.
  split; [by eapply arr_get_set_eq|]. split; [apply lookup_insert_eq|].
  split; [by eapply arr_get_set_eq | done].
Qed.

(** *** unPinPage *)

(** C6: [unPinPage] returns HASHNOTFOUND and changes nothing when the page
    is not in the index; returns PAGENOTPINNED and changes nothing when the
    frame's pin count is 0; otherwise it takes one from the pin count and
    sets the dirty bit when asked to, never clearing it.  No call is made
    on a File in any case. *)
Theorem unPinPage_spec f p (is_dirty : bool) s :
  (hashTable s !! (f, p) = None ->
     unPinPage f p is_dirty s = Some (HASHNOTFOUND, s)) /\
  (forall fr d,
     hashTable s !! (f, p) = Some fr -> arr_get (bufTable s) fr = Some d ->
     pinCnt d = 0 ->
     unPinPage f p is_dirty s = Some (PAGENOTPINNED, s)) /\
  (forall fr d,
     hashTable s !! (f, p) = Some fr -> arr_get (bufTable s) fr = Some d ->
     pinCnt d <> 0 ->
     unPinPage f p is_dirty s =
       Some (OK, set_desc fr
                   (mkBufDesc (file d) (pageNo d) (frameNo d) (pinCnt d - 1)
                              (dirty d || is_dirty) (refbit d) (valid d)) s)) /\
  (forall rc s',
     unPinPage f p is_dirty s = Some (rc, s') ->
     io s' = io s /\ disk s' = disk s /\ bufPool s' = bufPool s).
Proof.
  unfold unPinPage, BufHashTbl_lookup. split; [|split; [|split]].
  - by intros ->.
  - intros fr d -> -> Hpin. cbn. by rewrite Hpin.
  - intros fr d -> -> Hpin. cbn.
    destruct (Z.eqb_spec (pinCnt d) 0); [done|].
    do 3 f_equal. destruct is_dirty; [|by rewrite orb_false_r].
    by rewrite orb_true_r.
  - intros rc s'.
    destruct (hashTable s !! (f, p)) as [fr|]; cbn; [|intros; by simplify_eq].
    destruct (arr_get (bufTable s) fr) as [d|]; [|done].
    destruct (pinCnt d =? 0); intros; by simplify_eq.
Qed.

(** C10: [unPinPage] leaves the reference bit of every frame as it was,
    whether it succeeds or fails; of the descriptors only the pin count and
    dirty bit of the frame the page was found in can change, and nothing
    else of the buffer manager changes at all. *)
Theorem unPinPage_keeps_refbit f p (is_dirty : bool) s rc s' :
  unPinPage f p is_dirty s = Some (rc, s') ->
  map refbit (bufTable s') = map refbit (bufTable s) /\
  map identity_fields (bufTable s') = map identity_fields (bufTable s) /\
  (forall i, hashTable s !! (f, p) <> Some i ->
             arr_get (bufTable s') i = arr_get (bufTable s) i) /\
  numBufs s' = numBufs s /\ bufPool s' = bufPool s /\
  hashTable s' = hashTable s /\ clockHand s' = clockHand s /\
  disk s' = disk s /\ io s' = io s.
Proof.
  unfold unPinPage, BufHashTbl_lookup.
  destruct (hashTable s !! (f, p)) as [fr|] eqn:Hht; cbn;
    [|intros; by simplify_eq].
  destruct (arr_get (bufTable s) fr) as [d|] eqn:Hd; [|done].
  destruct (pinCnt d =? 0); intros; simplify_eq; [done|].
  cbn. rewrite !map_arr_set.
  split; [|split; [|split; [|done]]].
  - rewrite <- (arr_set_same (map refbit (bufTable s)) fr (refbit d)) at 2.
    + f_equal. by destruct is_dirty.
    + by rewrite arr_get_map, Hd.
  - rewrite <- (arr_set_same (map identity_fields (bufTable s)) fr
                             (identity_fields d)) at 2.
    + f_equal. by destruct is_dirty.
    + by rewrite arr_get_map, Hd.
  - intros i Hi. apply arr_get_set_ne. congruence.
Qed.

(** *** allocBuf: the replacement loop *)

(** What one iteration does, by the state of the frame under the hand. *)
Lemma scan_step_cases s numPins :
  match arr_get (bufTable s) (next_hand s) with
  | None => scan_step s numPins = None
  | Some d =>
      (valid d = false /\
       scan_step s numPins = Some (Break (with_clockHand (next_hand s) s))) \/
      (valid d = true /\ refbit d = true /\
       scan_step s numPins =
         Some (Continue (set_desc (next_hand s) (set_refbit false d)
                                  (with_clockHand (next_hand s) s)) numPins)) \/
      (valid d = true /\ refbit d = false /\ pinCnt d = 0 /\
       scan_step s numPins = Some (Break (with_clockHand (next_hand s) s))) \/
      (valid d = true /\ refbit d = false /\ pinCnt d <> 0 /\
       scan_step s numPins =
         Some (Continue (with_clockHand (next_hand s) s) (numPins + 1)))
  end.
Proof.
  unfold scan_step. cbn.
  destruct (arr_get (bufTable s) (next_hand s)) as [d|]; [|done].
  destruct (valid d); cbn; [|by left].
  destruct (refbit d); cbn; [right; by left|].
  destruct (Z.eqb_spec (pinCnt d) 0); right; right; [left | right]; done.
Qed.

Lemma unreferenced_arr_set (t : list BufDesc) i d :
  arr_get t i = Some d ->
  unreferenced (arr_set t i (set_refbit false d)) = unreferenced t.
Proof.
  intros H. unfold unreferenced. rewrite map_arr_set.
  apply arr_set_same. by rewrite arr_get_map, H.
Qed.

(** An iteration moves the hand and may clear one reference bit; it
    changes nothing else. *)
Lemma scan_step_frame s numPins r :
  scan_step s numPins = Some r ->
  clockHand (step_state r) = next_hand s /\
  numBufs (step_state r) = numBufs s /\
  bufPool (step_state r) = bufPool s /\
  hashTable (step_state r) = hashTable s /\
  disk (step_state r) = disk s /\
  io (step_state r) = io s /\
  length (bufTable (step_state r)) = length (bufTable s) /\
  unreferenced (bufTable (step_state r)) = unreferenced (bufTable s).
Proof.
  intros Hr. pose proof (scan_step_cases s numPins) as Hc.
  destruct (arr_get (bufTable s) (next_hand s)) as [d|] eqn:Hd;
    [|congruence].
  destruct Hc as [(_ & H)|[(_ & _ & H)|[(_ & _ & _ & H)|(_ & _ & _ & H)]]];
    rewrite H in Hr; simplify_eq; cbn; repeat split; try done.
  - apply length_arr_set.
  - by apply unreferenced_arr_set.
Qed.

(** *** Termination of the loop *)

Lemma refbits_clear (t : list BufDesc) (i : nat) d :
  t !! i = Some d -> refbit d = true ->
  S (refbits (<[i := set_refbit false d]> t)) = refbits t.
Proof.
  unfold refbits. revert i. induction t as [|x t IH]; intros [|i] Hi Hd;
    simplify_eq/=.
  - rewrite !filter_cons. cbn. rewrite Hd.
    destruct (decide (false = true)); [done|].
    destruct (decide (true = true)); [done|done].
  - rewrite !filter_cons. destruct (decide (refbit x = true)); cbn.
    + f_equal. by apply IH.
    + by apply IH.
Qed.

(** Every iteration that loops uses up one unit of [scan_fuel]. *)
Lemma scan_step_fuel s numPins s' numPins' :
  numPins < numBufs s ->
  scan_step s numPins = Some (Continue s' numPins') ->
  (scan_fuel s' numPins' < scan_fuel s numPins)%nat.
Proof.
  intros Hlt Hr. pose proof (scan_step_cases s numPins) as Hc.
  destruct (arr_get (bufTable s) (next_hand s)) as [d|] eqn:Hd;
    [|congruence].
  unfold scan_fuel.
  destruct Hc as [(_ & H)|[(_ & Hb & H)|[(_ & _ & _ & H)|(_ & _ & _ & H)]]];
    rewrite H in Hr; simplify_eq; cbn -[refbits].
  - apply arr_get_Some in Hd as [Hh Hd].
    unfold arr_set. destruct (Z.ltb_spec (next_hand s) 0); [lia|].
    pose proof (refbits_clear _ _ _ Hd Hb). lia.
  - lia.
Qed.

(** The loop ends within [scan_fuel] iterations, in every state. *)
Lemma scan_terminates fuel s numPins :
  (scan_fuel s numPins <= fuel)%nat -> scan fuel s numPins <> LoopFuel.
Proof.
  revert s numPins. induction fuel as [|fuel IH]; intros s numPins Hfuel; cbn.
  - destruct (Z.leb_spec (numBufs s) numPins); [done|].
    unfold scan_fuel in Hfuel. lia.
  - destruct (Z.leb_spec (numBufs s) numPins); [done|].
    destruct (scan_step s numPins) as [[s'|s' numPins']|] eqn:Hstep; [done| |done].
    apply IH. pose proof (scan_step_fuel _ _ _ _ H Hstep). lia.
Qed.

(** More fuel does not change the outcome of a loop that ended. *)
Lemma scan_fuel_mono fuel fuel' s numPins :
  (fuel <= fuel')%nat -> scan fuel s numPins <> LoopFuel ->
  scan fuel' s numPins = scan fuel s numPins.
Proof.
  revert fuel' s numPins.
  induction fuel as [|fuel IH]; intros fuel' s numPins Hle; cbn.
  - destruct (Z.leb_spec (numBufs s) numPins) as [Hc|Hc]; [|done].
    intros _. destruct fuel'; cbn; by apply Z.leb_le in Hc as ->.
  - destruct fuel' as [|fuel']; [lia|]. cbn.
    destruct (numBufs s <=? numPins); [done|].
    destruct (scan_step s numPins) as [[s'|s' numPins']|]; [done| |done].
    apply IH. lia.
Qed.

(** Any amount of fuel that is enough gives the result [allocBuf] uses. *)
Lemma scan_enough_fuel fuel s numPins :
  (scan_fuel s numPins <= fuel)%nat ->
  scan fuel s numPins = scan (scan_fuel s numPins) s numPins.
Proof.
  intros H. apply scan_fuel_mono; [done|]. by apply scan_terminates.
Qed.

(** *** Invariants along the loop *)

(** A property kept by every looping iteration holds where the loop ends:
    either the loop condition failed, or an iteration broke out. *)
Lemma scan_inv (P : St -> Z -> Prop) :
  (forall s numPins s' numPins',
     P s numPins -> numPins < numBufs s ->
     scan_step s numPins = Some (Continue s' numPins') -> P s' numPins') ->
  forall fuel s numPins s' numPins',
    P s numPins -> scan fuel s numPins = LoopDone s' numPins' ->
    (numBufs s' <= numPins' /\ P s' numPins') \/
    (exists s0, P s0 numPins' /\ numPins' < numBufs s0 /\
                scan_step s0 numPins' = Some (Break s')).
Proof.
  intros Hstep fuel. induction fuel as [|fuel IH]; intros s numPins s' numPins' HP; cbn.
  - destruct (Z.leb_spec (numBufs s) numPins); [|done].
    intros; simplify_eq. by left.
  - destruct (Z.leb_spec (numBufs s) numPins) as [Hc|Hc].
    { intros; simplify_eq. by left. }
    destruct (scan_step s numPins) as [[s1|s1 numPins1]|] eqn:Hs; [| |done].
    + intros; simplify_eq. right. by exists s.
    + apply IH. by eapply Hstep.
Qed.

Lemma next_hand_range s :
  0 < numBufs s -> -1 <= clockHand s -> 0 <= next_hand s < numBufs s.
Proof. intros. unfold next_hand. apply Z.rem_bound_pos; lia. Qed.

(** The hand advances by one, modulo the number of frames. *)
Lemma next_hand_mod s :
  0 < numBufs s -> -1 <= clockHand s ->
  next_hand s = (clockHand s + 1) mod numBufs s.
Proof. intros. unfold next_hand. apply Z.rem_mod_nonneg; lia. Qed.

Lemma WF_with_clockHand s h : WF s -> -1 <= h -> WF (with_clockHand h s).
Proof. intros [] ?. by constructor. Qed.

Lemma Linked_with_clockHand s h : Linked s -> Linked (with_clockHand h s).
Proof. intros []. by constructor. Qed.

Lemma WF_with_hashTable s ht : WF s -> WF (with_hashTable ht s).
Proof. intros []. by constructor. Qed.

Lemma WF_with_disk s w e : WF s -> WF (with_disk w e s).
Proof. intros []. by constructor. Qed.

Lemma Linked_with_disk s w e : Linked s -> Linked (with_disk w e s).
Proof. intros []. by constructor. Qed.

(** Replacing a descriptor by one with the same frame number and a sound
    pin count keeps the state well formed. *)
Lemma WF_set_desc s i d d' :
  WF s -> arr_get (bufTable s) i = Some d ->
  frameNo d' = frameNo d -> 0 <= pinCnt d' ->
  (valid d' = false -> pinCnt d' = 0 /\ file d' = NULL) ->
  WF (set_desc i d' s).
Proof.
  intros [Ht Hp Hh Hf Hpin Hinv] Hd Hfr Hpin' Hinv'.
  constructor; cbn; try done; try (by rewrite length_arr_set);
    intros j dj Hj; rewrite (arr_set_lookup _ _ _ _ _ Hd) in Hj;
    destruct (decide (i = Z.of_nat j)) as [->|Hne]; simplify_eq; eauto.
  rewrite arr_get_nat in Hd. rewrite Hfr. eauto.
Qed.

(** Replacing a descriptor by one with the same validity and identity
    keeps frames and index entries linked. *)
Lemma Linked_set_desc s i d d' :
  Linked s -> arr_get (bufTable s) i = Some d ->
  valid d' = valid d -> file d' = file d -> pageNo d' = pageNo d ->
  Linked (set_desc i d' s).
Proof.
  intros [Hfr Hen] Hd Hv Hf Hp. constructor; cbn.
  - intros j dj Hj. rewrite (arr_set_lookup _ _ _ _ _ Hd) in Hj.
    destruct (decide (i = Z.of_nat j)) as [->|Hne]; simplify_eq; [|eauto].
    rewrite arr_get_nat in Hd. rewrite Hv, Hf, Hp. by apply Hfr.
  - intros f p fr Hfp. destruct (Hen f p fr Hfp) as (d0 & Hd0 & Hv0 & Hf0 & Hp0).
    destruct (decide (i = fr)) as [->|Hne].
    + exists d'. simplify_eq. split; [by eapply arr_get_set_eq|].
      by rewrite Hv, Hf, Hp.
    + exists d0. by rewrite arr_get_set_ne.
Qed.

(** An iteration keeps the state well formed, *)
Lemma scan_step_WF s numPins r :
  0 < numBufs s -> WF s -> scan_step s numPins = Some r -> WF (step_state r).
Proof.
  intros HN Hwf Hr. pose proof (scan_step_cases s numPins) as Hc.
  destruct (arr_get (bufTable s) (next_hand s)) as [d|] eqn:Hd; [|congruence].
  pose proof (next_hand_range s HN (wf_hand _ Hwf)) as Hh.
  assert (WF (with_clockHand (next_hand s) s)) as Hwf1.
  { apply WF_with_clockHand; [done|lia]. }
  destruct Hc as [(_ & H)|[(Hv & _ & H)|[(_ & _ & _ & H)|(_ & _ & _ & H)]]];
    rewrite H in Hr; simplify_eq; cbn [step_state]; try done.
  apply arr_get_Some in Hd as Hd'. destruct Hd' as [_ Hd'].
  eapply WF_set_desc; eauto; cbn.
  - eapply (wf_pin _ Hwf); eauto.
  - congruence.
Qed.

(** and frames and index entries linked. *)
Lemma scan_step_Linked s numPins r :
  Linked s -> scan_step s numPins = Some r -> Linked (step_state r).
Proof.
  intros Hl Hr. pose proof (scan_step_cases s numPins) as Hc.
  destruct (arr_get (bufTable s) (next_hand s)) as [d|] eqn:Hd; [|congruence].
  pose proof (Linked_with_clockHand s (next_hand s) Hl) as Hl1.
  destruct Hc as [(_ & H)|[(Hv & _ & H)|[(_ & _ & _ & H)|(_ & _ & _ & H)]]];
    rewrite H in Hr; simplify_eq; cbn [step_state]; try done.
  eapply Linked_set_desc; eauto.
Qed.

Lemma scan_step_numPins s numPins s' numPins' :
  scan_step s numPins = Some (Continue s' numPins') ->
  numPins <= numPins' <= numPins + 1.
Proof.
  intros Hr. pose proof (scan_step_cases s numPins) as Hc.
  destruct (arr_get (bufTable s) (next_hand s)) as [d|] eqn:Hd; [|congruence].
  destruct Hc as [(_ & H)|[(Hv & _ & H)|[(_ & _ & _ & H)|(_ & _ & _ & H)]]];
    rewrite H in Hr; simplify_eq; lia.
Qed.

(** In a well-formed state the loop body never leaves the array. *)
Lemma scan_step_defined s numPins :
  0 < numBufs s -> WF s -> exists r, scan_step s numPins = Some r.
Proof.
  intros HN Hwf. pose proof (scan_step_cases s numPins) as Hc.
  pose proof (next_hand_range s HN (wf_hand _ Hwf)) as Hh.
  destruct (arr_get_in_range (bufTable s) (next_hand s)) as [d Hd].
  { rewrite (wf_table _ Hwf). lia. }
  rewrite Hd in Hc.
  destruct Hc as [(_ & H)|[(_ & _ & H)|[(_ & _ & _ & H)|(_ & _ & _ & H)]]];
    eauto.
Qed.


(** The loop as a whole moves the hand and clears reference bits; it
    changes nothing else. *)
Lemma scan_frame fuel s numPins s' numPins' :
  scan fuel s numPins = LoopDone s' numPins' ->
  numBufs s' = numBufs s /\ bufPool s' = bufPool s /\
  hashTable s' = hashTable s /\ disk s' = disk s /\ io s' = io s /\
  length (bufTable s') = length (bufTable s) /\
  unreferenced (bufTable s') = unreferenced (bufTable s).
Proof.
  intros Hscan.
  pose (P := fun (s1 : St) (_ : Z) =>
    numBufs s1 = numBufs s /\ bufPool s1 = bufPool s /\
    hashTable s1 = hashTable s /\ disk s1 = disk s /\ io s1 = io s /\
    length (bufTable s1) = length (bufTable s) /\
    unreferenced (bufTable s1) = unreferenced (bufTable s)).
  assert (forall s1 n1 r, P s1 n1 -> scan_step s1 n1 = Some r ->
                          P (step_state r) n1) as Hstep.
  { intros s1 n1 r (?&?&?&?&?&?&?) Hr.
    destruct (scan_step_frame _ _ _ Hr) as (?&?&?&?&?&?&?&?).
    unfold P. repeat split; congruence. }
  assert (P s numPins) as HP0 by (unfold P; done).
  destruct (scan_inv P) with (3 := Hscan) as [[_ HP]|(s0 & HP & _ & Hb)];
    [|done|done|].
  - intros s1 n1 s2 n2 HP _ Hr. apply (Hstep _ n1 (Continue s2 n2) HP Hr).
  - apply (Hstep _ _ (Break s') HP Hb).
Qed.

Lemma scan_WF fuel s numPins s' numPins' :
  WF s -> 0 <= numPins -> scan fuel s numPins = LoopDone s' numPins' -> WF s'.
Proof.
  intros Hwf Hnp Hscan.
  destruct (scan_inv (fun s n => WF s /\ 0 <= n)) with (3 := Hscan)
    as [[_ [HP _]]|(s0 & [HP ?] & ? & Hb)]; try done.
  - intros s1 n1 s2 n2 [HP ?] ? Hr. split.
    + eapply (scan_step_WF _ _ (Continue s2 n2)); [|exact HP|exact Hr]; lia.
    + apply scan_step_numPins in Hr. lia.
  - eapply (scan_step_WF _ _ (Break s')); [|exact HP|exact Hb]; lia.
Qed.

Lemma scan_Linked fuel s numPins s' numPins' :
  Linked s -> scan fuel s numPins = LoopDone s' numPins' -> Linked s'.
Proof.
  intros Hl Hscan.
  destruct (scan_inv (fun s _ => Linked s)) with (3 := Hscan)
    as [[_ HP]|(s0 & HP & ? & Hb)]; try done.
  - intros s1 n1 s2 n2 HP ? Hr. apply (scan_step_Linked _ _ (Continue s2 n2) HP Hr).
  - apply (scan_step_Linked _ _ (Break s') HP Hb).
Qed.

(** In a well-formed state the loop never leaves the array. *)
Lemma scan_defined fuel s numPins :
  WF s -> 0 <= numPins -> scan fuel s numPins <> LoopUndef.
Proof.
  revert s numPins. induction fuel as [|fuel IH]; intros s numPins Hwf Hnp; cbn.
  - by destruct (numBufs s <=? numPins).
  - destruct (Z.leb_spec (numBufs s) numPins); [done|].
    destruct (scan_step_defined s numPins) as [r Hr]; [lia|done|].
    rewrite Hr. destruct r as [s'|s' numPins']; [done|].
    apply IH.
    + eapply (scan_step_WF _ _ (Continue s' numPins')); [|exact Hwf|exact Hr]; lia.
    + apply scan_step_numPins in Hr. lia.
Qed.

(** So in a well-formed state the loop of [allocBuf] runs to its end. *)
Lemma scan_total s :
  WF s -> exists s1 numPins, scan (scan_fuel s 0) s 0 = LoopDone s1 numPins.
Proof.
  intros Hwf.
  pose proof (scan_defined (scan_fuel s 0) s 0 Hwf ltac:(lia)).
  pose proof (scan_terminates (scan_fuel s 0) s 0 ltac:(lia)).
  destruct (scan (scan_fuel s 0) s 0); naive_solver.
Qed.

(** *** allocBuf: what follows the loop *)

Lemma with_hashTable_id s : with_hashTable (hashTable s) s = s.
Proof. by destruct s. Qed.

(** Every way [evict] can end. *)
Lemma evict_cases s numPins rc fro s' :
  evict s numPins = Some (rc, fro, s') ->
  (numBufs s <= numPins /\ rc = BUFFEREXCEEDED /\ fro = None /\ s' = s) \/
  (numPins < numBufs s /\
   exists d, arr_get (bufTable s) (clockHand s) = Some d /\
     ((valid d = false /\ rc = OK /\ fro = Some (frameNo d) /\ s' = s) \/
      (valid d = true /\ hashTable s !! (file d, pageNo d) = None /\
       rc = HASHTBLERROR /\ fro = None /\ s' = s) \/
      (valid d = true /\ is_Some (hashTable s !! (file d, pageNo d)) /\
       dirty d = false /\ rc = OK /\ fro = Some (frameNo d) /\
       s' = unindexed d s) \/
      (valid d = true /\ is_Some (hashTable s !! (file d, pageNo d)) /\
       dirty d = true /\
       exists pg rcw w,
         arr_get (bufPool s) (clockHand s) = Some pg /\
         file_writePage (file d) (pageNo d) pg (disk s) = (rcw, w) /\
         s' = written_back d pg w s /\
         ((rcw = OK /\ rc = OK /\ fro = Some (frameNo d)) \/
          (rcw <> OK /\ rc = UNIXERR /\ fro = None))))).
Proof.
  unfold evict. destruct (Z.leb_spec (numBufs s) numPins) as [Hc|Hc].
  { intros; simplify_eq. by left. }
  intros H. right. split; [done|].
  destruct (arr_get (bufTable s) (clockHand s)) as [d|]; [|done].
  exists d. split; [done|].
  destruct (valid d) eqn:Hv; [|simplify_eq; by left].
  right. unfold BufHashTbl_remove in H.
  destruct (hashTable s !! (file d, pageNo d)) as [fr|] eqn:Hht; cbn in H.
  2:{ simplify_eq. left. by rewrite with_hashTable_id. }
  right. destruct (dirty d) eqn:Hdirty; [right | simplify_eq; left; eauto 10].
  destruct (arr_get (bufPool s) (clockHand s)) as [pg|]; [|done].
  unfold do_writePage in H. cbn in H.
  destruct (file_writePage (file d) (pageNo d) pg (disk s)) as [rcw w] eqn:Hw.
  repeat (split; [by eauto|]). exists pg, rcw, w.
  destruct (status_ne rcw OK) eqn:Hrcw; simplify_eq.
  - apply status_ne_true in Hrcw. repeat (split; [done|]). by right.
  - apply status_ne_false in Hrcw. repeat (split; [done|]). by left.
Qed.

Lemma allocBuf_evict s s1 numPins :
  scan (scan_fuel s 0) s 0 = LoopDone s1 numPins ->
  allocBuf s = evict s1 numPins.
Proof. unfold allocBuf. by intros ->. Qed.

(** [allocBuf] is the loop followed by [evict]. *)
Lemma allocBuf_inv s r :
  allocBuf s = Some r ->
  exists s1 numPins,
    scan (scan_fuel s 0) s 0 = LoopDone s1 numPins /\ evict s1 numPins = Some r.
Proof.
  unfold allocBuf. destruct (scan (scan_fuel s 0) s 0); [eauto|done|done].
Qed.

(** Where the loop breaks out, the frame under the hand is one the policy
    may take. *)
Lemma scan_break_candidate fuel s numPins s1 numPins1 :
  scan fuel s numPins = LoopDone s1 numPins1 -> numPins1 < numBufs s1 ->
  exists d, arr_get (bufTable s1) (clockHand s1) = Some d /\ candidate d.
Proof.
  intros Hscan Hlt.
  destruct (scan_inv (fun _ _ => True)) with (3 := Hscan)
    as [[? _]|(s0 & _ & _ & Hb)]; [done|done|lia|].
  pose proof (scan_step_cases s0 numPins1) as Hc.
  destruct (arr_get (bufTable s0) (next_hand s0)) as [d|] eqn:Hd; [|congruence].
  destruct Hc as [(Hv & H)|[(_ & _ & H)|[(_ & Hr & Hp & H)|(_ & _ & _ & H)]]];
    rewrite H in Hb; simplify_eq; cbn; exists d; (split; [done|]).
  - by left.
  - by right.
Qed.

Lemma unreferenced_get (t1 t : list BufDesc) i d :
  unreferenced t1 = unreferenced t -> arr_get t1 i = Some d ->
  exists d0, arr_get t i = Some d0 /\ set_refbit false d0 = set_refbit false d.
Proof.
  intros Heq Hd.
  assert (arr_get (unreferenced t) i = Some (set_refbit false d)) as H.
  { rewrite <- Heq. unfold unreferenced. by rewrite arr_get_map, Hd. }
  unfold unreferenced in H. rewrite arr_get_map in H.
  destruct (arr_get t i) as [d0|]; [|done].
  exists d0. split; [done|]. cbn in H. congruence.
Qed.

(** A successful [allocBuf] hands out the frame under the hand; in the
    state before the call that frame was empty or unpinned. *)
Lemma allocBuf_OK s fr s' :
  allocBuf s = Some (OK, Some fr, s') ->
  exists d0, arr_get (bufTable s) (clockHand s') = Some d0 /\
             frameNo d0 = fr /\ (valid d0 = false \/ pinCnt d0 = 0).
Proof.
  intros H. apply allocBuf_inv in H as (s1 & numPins & Hscan & Hev).
  assert (numPins < numBufs s1 /\ bufTable s' = bufTable s1 /\
          clockHand s' = clockHand s1 /\
          exists d, arr_get (bufTable s1) (clockHand s1) = Some d /\ fr = frameNo d)
    as (Hlt & Ht & Hh & d & Hd & ->).
  { apply evict_cases in Hev as [(_ & ? & _)|(Hlt & d & Hd & Hc)]; [done|].
    destruct Hc as [(_&_&?&->)|[(_&_&?&_)|[(_&_&_&_&?&->)|
      (_&_&_&pg&rcw&w&_&_&->&[(_&_&?)|(_&?&_)])]]]; simplify_eq; eauto 10. }
  destruct (scan_break_candidate _ _ _ _ _ Hscan Hlt) as (d' & Hd' & Hcand).
  simplify_eq.
  destruct (scan_frame _ _ _ _ _ Hscan) as (_&_&_&_&_&_&Hun).
  destruct (unreferenced_get _ _ _ _ Hun Hd) as (d0 & Hd0 & Heq).
  exists d0. rewrite Hh. split; [done|].
  injection Heq as Hf Hp Hfr Hpin Hdi Hv. split; [done|].
  destruct Hcand as [?|[_ ?]]; [left|right]; congruence.
Qed.

Lemma WF_frameNo s i d : WF s -> arr_get (bufTable s) i = Some d -> frameNo d = i.
Proof.
  intros Hwf [? Hd]%arr_get_Some. rewrite (wf_frameNo _ Hwf _ _ Hd). lia.
Qed.

(** C5, as amended: when the scan stops at a valid victim, [allocBuf]
    first removes the victim's index entry and, if the victim is dirty,
    then writes its page to its file, before it returns the frame.  If the
    removal fails its status is returned, nothing is written and no frame
    is handed out; if the write fails, UNIXERR is returned whatever status
    the File gave, and no frame is handed out, the index entry being gone
    by then.  The scan itself makes no call on a File and does not touch
    the index. *)
Theorem allocBuf_evicts_valid_victim s s1 numPins d :
  scan (scan_fuel s 0) s 0 = LoopDone s1 numPins ->
  numPins < numBufs s1 ->
  arr_get (bufTable s1) (clockHand s1) = Some d ->
  valid d = true ->
  (hashTable s1 = hashTable s /\ disk s1 = disk s /\ io s1 = io s) /\
  (hashTable s1 !! (file d, pageNo d) = None ->
     allocBuf s = Some (HASHTBLERROR, None, s1)) /\
  (is_Some (hashTable s1 !! (file d, pageNo d)) -> dirty d = false ->
     allocBuf s = Some (OK, Some (frameNo d), unindexed d s1)) /\
  (is_Some (hashTable s1 !! (file d, pageNo d)) -> dirty d = true ->
     forall pg rcw w,
       arr_get (bufPool s1) (clockHand s1) = Some pg ->
       file_writePage (file d) (pageNo d) pg (disk s1) = (rcw, w) ->
       allocBuf s =
         Some (if status_eq rcw OK then (OK, Some (frameNo d)) else (UNIXERR, None),
               written_back d pg w s1) /\
       io (written_back d pg w s1) = io s ++ [IoWrite (file d) (pageNo d) pg] /\
       hashTable (written_back d pg w s1) !! (file d, pageNo d) = None).
Proof.
  intros Hscan Hlt Hd Hv. rewrite (allocBuf_evict _ _ _ Hscan).
  destruct (scan_frame _ _ _ _ _ Hscan) as (_&_&Hht&Hdisk&Hio&_&_).
  split; [done|]. unfold evict, BufHashTbl_remove.
  destruct (Z.leb_spec (numBufs s1) numPins); [lia|]. rewrite Hd, Hv.
  repeat apply conj.
  - intros ->. cbn. by rewrite with_hashTable_id.
  - intros [fr ->] ->. by cbn.
  - intros [fr ->] -> pg rcw w Hpg Hw. cbn. rewrite Hpg.
    unfold do_writePage. cbn. rewrite Hw.
    split; [by destruct rcw|]. split.
    + cbn. by rewrite Hio.
    + cbn. apply lookup_delete_eq.
Qed.

(** *** When the loop finds a frame, and when it gives up *)

(** A frame the policy may take, [j] steps ahead of the hand, stops the
    loop before [numPins] can reach the number of frames. *)
Lemma scan_finds_candidate fuel : forall s numPins (j k : nat) d,
  WF s -> 0 <= numPins ->
  bufTable s !! k = Some d -> candidate d ->
  (clockHand s + 1 + Z.of_nat j) mod numBufs s = Z.of_nat k ->
  numPins + Z.of_nat j < numBufs s ->
  match scan fuel s numPins with
  | LoopDone s' numPins' => numPins' < numBufs s'
  | LoopUndef => False
  | LoopFuel => True
  end.
Proof.
  induction fuel as [|fuel IH]; intros s numPins j k d Hwf Hnp Hk Hcand Hj Hlt; cbn;
    (destruct (Z.leb_spec (numBufs s) numPins) as [Hge|Hlt']; [lia|]); [done|].
  assert (0 < numBufs s) as HN by lia.
  destruct (scan_step_defined s numPins HN Hwf) as [r Hr]. rewrite Hr.
  destruct (scan_step_frame _ _ _ Hr) as (Hh & HNr & _).
  destruct r as [s1|s1 numPins1]; cbn in *; [lia|].
  pose proof (scan_step_WF _ _ _ HN Hwf Hr) as Hwf1.
  pose proof (scan_step_numPins _ _ _ _ Hr) as Hnp1.
  pose proof (next_hand_mod s HN (wf_hand _ Hwf)) as Hmod.
  pose proof (scan_step_cases s numPins) as Hc.
  destruct (arr_get (bufTable s) (next_hand s)) as [dh|] eqn:Hdh; [|congruence].
  destruct j as [|j].
  { (* the frame under the hand is the candidate: the step breaks out *)
    rewrite Z.add_0_r, <- Hmod in Hj. rewrite Hj, arr_get_nat, Hk in Hdh.
    simplify_eq.
    destruct Hcand as [Hv|[Hrb Hp]];
      destruct Hc as [(?&H)|[(?&?&H)|[(?&?&?&H)|(?&?&?&H)]]]; congruence. }
  assert (exists d1, bufTable s1 !! k = Some d1 /\ candidate d1) as (d1 & Hk1 & Hc1).
  { destruct Hc as [(?&H)|[(Hv&Hrb&H)|[(?&?&?&H)|(?&?&?&H)]]];
      rewrite H in Hr; simplify_eq; cbn; eauto.
    rewrite (arr_set_lookup _ _ _ _ _ Hdh).
    destruct (decide (next_hand s = Z.of_nat k)) as [Heq|Hne]; [|eauto].
    rewrite Heq, arr_get_nat, Hk in Hdh. simplify_eq.
    destruct Hcand as [?|[? ?]]; congruence. }
  apply (IH s1 numPins1 j k d1); try done; try lia.
  rewrite Hh, HNr, Hmod, <- Z.add_assoc, Zplus_mod_idemp_l, <- Hj.
  f_equal. lia.
Qed.

Lemma unreferenced_id (t : list BufDesc) :
  (forall i d, t !! i = Some d -> refbit d = false) -> unreferenced t = t.
Proof.
  intros H. apply list_eq. intros i. unfold unreferenced.
  rewrite (list_lookup_fmap (set_refbit false)).
  destruct (t !! i) as [d|] eqn:Hd; [|done]. cbn.
  specialize (H _ _ Hd). destruct d; cbn in *. by subst.
Qed.

Lemma swept_step s numPins s' numPins' :
  swept s numPins -> numPins < numBufs s ->
  scan_step s numPins = Some (Continue s' numPins') -> swept s' numPins'.
Proof.
  intros (Hwf & Hnp & Hpin & c & Hc & Hsw) Hlt Hr.
  assert (0 < numBufs s) as HN by lia.
  pose proof (scan_step_WF _ _ _ HN Hwf Hr) as Hwf1.
  pose proof (scan_step_numPins _ _ _ _ Hr) as Hnp1.
  pose proof (next_hand_mod s HN (wf_hand _ Hwf)) as Hmod.
  pose proof (next_hand_range s HN (wf_hand _ Hwf)) as Hrange.
  pose proof (scan_step_cases s numPins) as Hcases.
  destruct (arr_get (bufTable s) (next_hand s)) as [dh|] eqn:Hdh; [|congruence].
  assert (forall j, 1 <= j ->
            (next_hand s - j) mod numBufs s = (clockHand s - (j - 1)) mod numBufs s)
    as Hback.
  { intros j _. rewrite Hmod, Zminus_mod_idemp_l. f_equal. lia. }
  assert ((next_hand s - 0) mod numBufs s = next_hand s) as Hzero.
  { rewrite Z.sub_0_r. apply Z.mod_small. lia. }
  repeat apply conj; [done|lia| |].
  - destruct Hcases as [(?&H)|[(Hv&Hrb&H)|[(?&?&?&H)|(?&?&?&H)]]];
      rewrite H in Hr; simplify_eq; cbn; [|done].
    intros i d. rewrite (arr_set_lookup _ _ _ _ _ Hdh).
    destruct (decide (next_hand s = Z.of_nat i)) as [Heq|Hne]; [|eauto].
    intros; simplify_eq. rewrite Heq, arr_get_nat in Hdh.
    by apply Hpin in Hdh.
  - exists (c + 1). split; [lia|]. intros j Hj.
    destruct Hcases as [(?&H)|[(Hv&Hrb&H)|[(?&?&?&H)|(?&?&?&H)]]];
      rewrite H in Hr; simplify_eq; cbn.
    + destruct (decide (j = 0)) as [->|Hj0].
      * rewrite Hzero. exists (set_refbit false dh).
        split; [by eapply arr_get_set_eq | done].
      * rewrite Hback by lia.
        destruct (Hsw (j - 1)) as (d & Hd & Hrd); [lia|].
        destruct (decide (next_hand s = (clockHand s - (j - 1)) mod numBufs s))
          as [Heq|Hne].
        -- rewrite <- Heq. exists (set_refbit false dh).
           split; [by eapply arr_get_set_eq | done].
        -- exists d. by rewrite arr_get_set_ne.
    + destruct (decide (j = 0)) as [->|Hj0].
      * rewrite Hzero. eauto.
      * rewrite Hback by lia. apply Hsw. lia.
Qed.

(** With every frame pinned the loop runs until [numPins] reaches the
    number of frames, and by then every reference bit is clear. *)
Lemma scan_all_pinned fuel : forall s numPins,
  swept s numPins ->
  match scan fuel s numPins with
  | LoopDone s' numPins' => numBufs s' <= numPins' /\ swept s' numPins'
  | LoopUndef => False
  | LoopFuel => True
  end.
Proof.
  induction fuel as [|fuel IH]; intros s numPins Hsw; cbn;
    (destruct (Z.leb_spec (numBufs s) numPins) as [Hge|Hlt']; [done|]); [done|].
  destruct Hsw as (Hwf & Hnp & Hpin & Hc).
  assert (0 < numBufs s) as HN by lia.
  destruct (scan_step_defined s numPins HN Hwf) as [r Hr]. rewrite Hr.
  destruct r as [s1|s1 numPins1].
  - (* no frame can stop the loop *)
    pose proof (scan_step_cases s numPins) as Hcases.
    destruct (arr_get (bufTable s) (next_hand s)) as [dh|] eqn:Hdh; [|congruence].
    apply arr_get_Some in Hdh as [_ Hdh]. destruct (Hpin _ _ Hdh) as [Hv Hp].
    destruct Hcases as [(?&H)|[(?&?&H)|[(?&?&?&H)|(?&?&?&H)]]];
      try congruence; lia.
  - apply IH. apply (swept_step s numPins); [|done|done].
    exact (conj Hwf (conj Hnp (conj Hpin Hc))).
Qed.

Lemma swept_all_clear s numPins :
  swept s numPins -> numBufs s <= numPins ->
  forall i d, bufTable s !! i = Some d -> refbit d = false.
Proof.
  intros (Hwf & Hnp & Hpin & c & Hc & Hsw) HN i d Hd.
  pose proof (lookup_lt_Some _ _ _ Hd) as Hi.
  pose proof (wf_table _ Hwf) as Hlen.
  destruct (Hsw ((clockHand s - Z.of_nat i) mod numBufs s)) as (d' & Hd' & Hr).
  { pose proof (Z.mod_pos_bound (clockHand s - Z.of_nat i) (numBufs s)). lia. }
  rewrite Zminus_mod_idemp_r in Hd'.
  replace (clockHand s - (clockHand s - Z.of_nat i)) with (Z.of_nat i) in Hd' by lia.
  rewrite Z.mod_small, arr_get_nat in Hd' by lia. congruence.
Qed.

(** After a loop that broke out in a well-formed state, [evict] stays
    inside the arrays. *)
Lemma evict_defined s numPins d :
  WF s -> arr_get (bufTable s) (clockHand s) = Some d ->
  exists r, evict s numPins = Some r.
Proof.
  intros Hwf Hd. unfold evict. destruct (numBufs s <=? numPins); [eauto|].
  rewrite Hd. destruct (valid d); [|eauto].
  destruct (BufHashTbl_remove _ _ _) as [rc ht]. cbn.
  destruct (status_ne rc OK); [eauto|]. destruct (dirty d); [|eauto].
  destruct (arr_get_in_range (bufPool s) (clockHand s)) as [pg ->].
  { rewrite (wf_pool _ Hwf). by eapply arr_get_range. }
  destruct (do_writePage _ _ _ _) as [rcw s2].
  destruct (status_ne rcw OK); eauto.
Qed.

(** In a well-formed state [allocBuf] always returns. *)
Lemma allocBuf_total s : WF s -> exists r, allocBuf s = Some r.
Proof.
  intros Hwf. destruct (scan_total s Hwf) as (s1 & numPins & Hscan).
  rewrite (allocBuf_evict _ _ _ Hscan).
  destruct (Z.le_gt_cases (numBufs s1) numPins) as [Hge|Hlt].
  - unfold evict. apply Z.leb_le in Hge as ->. eauto.
  - destruct (scan_break_candidate _ _ _ _ _ Hscan Hlt) as (d & Hd & _).
    eapply evict_defined; [|done].
    eapply scan_WF; [done| |done]. lia.
Qed.

(** Whenever some frame is invalid, or valid with its reference bit clear
    and no pin, [allocBuf] does not give up: the loop stops at such a
    frame, or at an earlier one, before [numPins] reaches the number of
    frames. *)
Lemma allocBuf_finds_candidate s (k : nat) d :
  WF s -> bufTable s !! k = Some d -> candidate d ->
  exists rc fro s', allocBuf s = Some (rc, fro, s') /\ rc <> BUFFEREXCEEDED.
Proof.
  intros Hwf Hk Hcand.
  destruct (allocBuf_total s Hwf) as [[[rc fro] s'] Halloc].
  exists rc, fro, s'. split; [done|].
  apply allocBuf_inv in Halloc as (s1 & numPins & Hscan & Hev).
  pose proof (lookup_lt_Some _ _ _ Hk) as Hlt.
  pose proof (wf_table _ Hwf) as Hlen. pose proof (wf_hand _ Hwf) as Hhand.
  set (j := (Z.of_nat k - clockHand s - 1) mod numBufs s).
  pose proof (Z.mod_pos_bound (Z.of_nat k - clockHand s - 1) (numBufs s)
                ltac:(lia)) as Hj.
  pose proof (scan_finds_candidate (scan_fuel s 0) s 0 (Z.to_nat j) k d
                Hwf ltac:(lia) Hk Hcand) as Hfind.
  rewrite Hscan in Hfind.
  apply evict_cases in Hev as [(Hge & _)|(_ & d1 & _ & Hc)].
  - exfalso. enough (numPins < numBufs s1) by lia. apply Hfind; [|lia].
    rewrite Z2Nat.id by lia. subst j.
    rewrite Zplus_mod_idemp_r.
    replace (clockHand s + 1 + (Z.of_nat k - clockHand s - 1)) with (Z.of_nat k)
      by lia.
    apply Z.mod_small. lia.
  - destruct Hc as [(_&->&_)|[(_&_&->&_)|[(_&_&_&->&_)|
      (_&_&_&pg&rcw&w&_&_&_&[(_&->&_)|(_&->&_)])]]]; done.
Qed.

(** X14: when every frame has a pin count above 0, [allocBuf] returns
    BUFFEREXCEEDED and hands out no frame; it leaves the index, the pool
    and storage alone and makes no call on a File, and of the descriptors
    it changes the reference bits only, every one of which is clear
    afterwards.  Case 1 of [readPage], the code after the guard, would
    return the same status and state. *)
Theorem allocBuf_all_pinned s :
  WF s -> (forall i d, bufTable s !! i = Some d -> 0 < pinCnt d) ->
  exists s',
    allocBuf s = Some (BUFFEREXCEEDED, None, s') /\
    bufTable s' = unreferenced (bufTable s) /\
    numBufs s' = numBufs s /\ bufPool s' = bufPool s /\
    hashTable s' = hashTable s /\ disk s' = disk s /\ io s' = io s /\
    forall f p, readPage_miss f p s = Some (BUFFEREXCEEDED, None, s').
Proof.
  intros Hwf Hpos.
  assert (forall i d, bufTable s !! i = Some d -> pinned d) as Hpin.
  { intros i d Hd. specialize (Hpos i d Hd). split; [|done].
    destruct (valid d) eqn:Hv; [done|].
    destruct (wf_invalid _ Hwf _ _ Hd Hv). lia. }
  assert (swept s 0) as Hsw.
  { split; [done|]. split; [lia|]. split; [done|].
    exists 0. split; [lia|]. intros; lia. }
  pose proof (scan_all_pinned (scan_fuel s 0) s 0 Hsw) as Hscan.
  pose proof (scan_terminates (scan_fuel s 0) s 0 ltac:(lia)) as Hterm.
  destruct (scan (scan_fuel s 0) s 0) as [s1 numPins| |] eqn:Hs; [|done|done].
  destruct Hscan as [Hge Hsw1].
  assert (allocBuf s = Some (BUFFEREXCEEDED, None, s1)) as Halloc.
  { rewrite (allocBuf_evict _ _ _ Hs). unfold evict.
    by apply Z.leb_le in Hge as ->. }
  destruct (scan_frame _ _ _ _ _ Hs) as (?&?&?&?&?&_&Hun).
  exists s1. repeat (split; [done|]). split; [|repeat (split; [done|])].
  - rewrite <- Hun. symmetry. apply unreferenced_id.
    by apply (swept_all_clear _ _ Hsw1).
  - intros f p. unfold readPage_miss. by rewrite Halloc.
Qed.

(** *** Keeping frames and index entries linked *)

Lemma Free_with_disk k s w e : Free k s -> Free k (with_disk w e s).
Proof. intros []. by constructor. Qed.

(** An invalid frame of a linked state is free. *)
Lemma Free_of_invalid s k d :
  Linked s -> arr_get (bufTable s) k = Some d -> valid d = false -> Free k s.
Proof.
  intros [Hfr Hen] Hd Hv. constructor.
  - intros i di Hi _ Hvi. by apply Hfr.
  - intros f p fr Hfp. destruct (Hen f p fr Hfp) as (d0 & Hd0 & Hv0 & Hid).
    split; [|eauto]. intros ->. congruence.
Qed.

(** Removing the entry of a valid frame frees the frame. *)
Lemma Free_unindexed s k d :
  Linked s -> arr_get (bufTable s) k = Some d -> valid d = true ->
  Free k (unindexed d s).
Proof.
  intros [Hfr Hen] Hd Hv. constructor; cbn.
  - intros i di Hi Hne Hvi.
    rewrite lookup_delete_ne; [by apply Hfr|].
    intros Heq. apply arr_get_Some in Hd as [? Hd].
    pose proof (Hfr _ _ Hd Hv) as H1. pose proof (Hfr _ _ Hi Hvi) as H2.
    rewrite Heq in H1. rewrite H1 in H2. simplify_eq. lia.
  - intros f p fr Hfp. apply lookup_delete_Some in Hfp as [Hne Hfp].
    destruct (Hen f p fr Hfp) as (d0 & Hd0 & Hv0 & Hf0 & Hp0).
    split; [|eauto]. intros ->. by simplify_eq.
Qed.

(** Marking a free frame invalid gives a linked state. *)
Lemma Free_invalidate s k d d' :
  Free k s -> arr_get (bufTable s) k = Some d -> valid d' = false ->
  Linked (set_desc k d' s).
Proof.
  intros [Hfr Hen] Hd Hv. constructor; cbn.
  - intros i di Hi. rewrite (arr_set_lookup _ _ _ _ _ Hd) in Hi.
    destruct (decide (k = Z.of_nat i)) as [->|Hne]; simplify_eq.
    + congruence.
    + intros. apply Hfr; [done|congruence|done].
  - intros f p fr Hfp. destruct (Hen f p fr Hfp) as (Hne & d0 & Hd0 & Hid).
    exists d0. by rewrite arr_get_set_ne.
Qed.

(** Entering a page for a free frame and initialising the frame for that
    page gives a linked state. *)
Lemma Free_insert s k d d' f p :
  Free k s -> arr_get (bufTable s) k = Some d ->
  hashTable s !! (f, p) = None ->
  valid d' = true -> file d' = f -> pageNo d' = p ->
  Linked (set_desc k d' (with_hashTable (<[(f, p) := k]> (hashTable s)) s)).
Proof.
  intros [Hfr Hen] Hd Hnone Hv Hf Hp. constructor; cbn.
  - intros i di Hi. rewrite (arr_set_lookup _ _ _ _ _ Hd) in Hi.
    destruct (decide (k = Z.of_nat i)) as [->|Hne]; simplify_eq.
    + intros _. apply lookup_insert_eq.
    + intros Hvi. rewrite lookup_insert_ne; [apply Hfr; [done|congruence|done]|].
      intros Heq. rewrite Heq in Hnone.
      rewrite (Hfr _ _ Hi ltac:(congruence) Hvi) in Hnone. done.
  - intros f' p' fr Hfp. destruct (decide ((f, p) = (f', p'))) as [Heq|Hne].
    + rewrite Heq, lookup_insert_eq in Hfp. simplify_eq.
      exists d'. split; [by eapply arr_get_set_eq|done].
    + rewrite lookup_insert_ne in Hfp by done.
      destruct (Hen f' p' fr Hfp) as (Hk & d0 & Hd0 & Hid).
      exists d0. by rewrite arr_get_set_ne.
Qed.

Lemma WF_arr_get s i d : WF s -> arr_get (bufTable s) i = Some d ->
  0 <= i < numBufs s /\ exists pg, arr_get (bufPool s) i = Some pg.
Proof.
  intros Hwf Hd. pose proof (arr_get_range _ _ _ Hd) as Hr.
  split; [rewrite <- (wf_table _ Hwf); lia|].
  apply arr_get_in_range. rewrite (wf_pool _ Hwf). lia.
Qed.

Lemma WF_unindexed s d : WF s -> WF (unindexed d s).
Proof. apply WF_with_hashTable. Qed.

(** The descriptor [BufDesc::Set] leaves keeps a state well formed. *)
Lemma WF_Set s i d f p :
  WF s -> arr_get (bufTable s) i = Some d -> WF (set_desc i (BufDesc_Set f p d) s).
Proof.
  intros Hwf Hd. apply (WF_set_desc s i d); [done|done|done|cbn; lia|by cbn].
Qed.

(** So does the one [BufDesc::Clear] leaves. *)
Lemma WF_Clear s i d :
  WF s -> arr_get (bufTable s) i = Some d -> WF (set_desc i (BufDesc_Clear d) s).
Proof.
  intros Hwf Hd. apply (WF_set_desc s i d); [done|done|done|cbn; lia|by cbn].
Qed.

(** *** The invariant across the operations *)

(** What [allocBuf] leaves behind: a linked state when it gives up, and a
    state in which the frame it hands out is free when it succeeds. *)
Lemma allocBuf_Inv s rc fro s' :
  Inv s -> allocBuf s = Some (rc, fro, s') ->
  WF s' /\
  ((rc = BUFFEREXCEEDED /\ fro = None /\ Linked s') \/
   (rc = OK /\ exists fr d, fro = Some fr /\ arr_get (bufTable s') fr = Some d /\
                            Free fr s') \/
   (rc <> OK /\ rc <> BUFFEREXCEEDED /\ fro = None)).
Proof.
  intros [Hwf Hl] Halloc.
  apply allocBuf_inv in Halloc as (s1 & numPins & Hscan & Hev).
  pose proof (scan_WF _ s 0 _ _ Hwf ltac:(lia) Hscan) as Hwf1.
  pose proof (scan_Linked _ _ _ _ _ Hl Hscan) as Hl1.
  apply evict_cases in Hev as [(_ & -> & -> & ->)|(_ & d & Hd & Hc)].
  { split; [done|]. by left. }
  pose proof (WF_frameNo _ _ _ Hwf1 Hd) as Hfr.
  destruct Hc as [(Hv&->&->&->)|[(_&_&->&->&->)|[(Hv&_&_&->&->&->)|
    (Hv&_&_&pg&rcw&w&_&_&->&[(_&->&->)|(_&->&->)])]]].
  - split; [done|]. right; left. split; [done|]. exists (clockHand s1), d.
    rewrite Hfr. split; [done|]. split; [done|]. by eapply Free_of_invalid.
  - split; [done|]. right; right. done.
  - split; [by apply WF_unindexed|]. right; left. split; [done|].
    exists (clockHand s1), d. rewrite Hfr. split; [done|]. split; [done|].
    by eapply Free_unindexed.
  - split; [by apply WF_with_disk, WF_unindexed|]. right; left. split; [done|].
    exists (clockHand s1), d. rewrite Hfr. split; [done|]. split; [done|].
    apply Free_with_disk. by eapply Free_unindexed.
  - split; [by apply WF_with_disk, WF_unindexed|]. right; right. done.
Qed.

(** With an index that refuses an identity it already holds, [allocPage]
    keeps the invariant when it returns OK or BUFFEREXCEEDED. *)
Lemma allocPage_Inv f pageNo0 s rc pageNo' fro s' :
  on_duplicate = RejectDuplicate ->
  Inv s -> allocPage f pageNo0 s = Some (rc, pageNo', fro, s') ->
  rc = OK \/ rc = BUFFEREXCEEDED -> Inv s'.
Proof.
  intros Hrej [Hwf Hl]. unfold allocPage, do_allocatePage.
  destruct (file_allocatePage f pageNo0 (disk s)) as [[rca pn] w].
  set (s0 := with_disk w (IoAllocate f) s).
  assert (Inv s0) as Hinv0.
  { split; [by apply WF_with_disk | by apply Linked_with_disk]. }
  destruct (allocBuf s0) as [[[rcb frb] s1]|] eqn:Halloc; [|done].
  destruct (allocBuf_Inv _ _ _ _ Hinv0 Halloc)
    as [Hwf1 [(->&->&Hl1)|[(->&fr&d&->&Hd&Hfree)|(Hne1&Hne2&->)]]]; cbn.
  - intros; simplify_eq. by split.
  - unfold BufHashTbl_insert. rewrite Hrej.
    destruct (hashTable s1 !! (f, pn)) eqn:Hht; cbn.
    { intros ? [?|?]; simplify_eq. }
    rewrite Hd. intros ? _; simplify_eq. split.
    + apply (WF_Set (with_hashTable _ s1)); [by apply WF_with_hashTable|done].
    + by eapply Free_insert.
  - destruct (status_ne rcb OK) eqn:Hrc.
    + intros ? [?|?]; simplify_eq.
    + by apply status_ne_false in Hrc.
Qed.

(** In a state that satisfies the invariant, [allocPage] always returns. *)
Lemma allocPage_total f pageNo0 s : Inv s -> exists r, allocPage f pageNo0 s = Some r.
Proof.
  intros [Hwf Hl]. unfold allocPage, do_allocatePage.
  destruct (file_allocatePage f pageNo0 (disk s)) as [[rca pn] w].
  set (s0 := with_disk w (IoAllocate f) s).
  assert (Inv s0) as Hinv0.
  { split; [by apply WF_with_disk | by apply Linked_with_disk]. }
  destruct (allocBuf_total s0 (proj1 Hinv0)) as [[[rcb frb] s1] Halloc].
  rewrite Halloc.
  destruct (allocBuf_Inv _ _ _ _ Hinv0 Halloc)
    as [Hwf1 [(->&->&Hl1)|[(->&fr&d&->&Hd&Hfree)|(Hne1&Hne2&->)]]]; cbn.
  - eauto.
  - unfold BufHashTbl_insert.
    destruct (hashTable s1 !! (f, pn)) eqn:Hht, on_duplicate; cbn;
      rewrite ?Hd; eauto.
  - destruct (status_ne rcb OK) eqn:Hrc; [eauto|].
    by apply status_ne_false in Hrc.
Qed.

(** [readPage] changes nothing, so it keeps whatever held. *)
Lemma readPage_Inv f p s rc fro s' :
  Inv s -> readPage f p s = Some (rc, fro, s') -> Inv s'.
Proof. rewrite readPage_result. by intros ? [= _ _ <-]. Qed.

(** [unPinPage] keeps the invariant, whatever it returns. *)
Lemma unPinPage_Inv f p b s rc s' :
  Inv s -> unPinPage f p b s = Some (rc, s') -> Inv s'.
Proof.
  intros [Hwf Hl]. unfold unPinPage, BufHashTbl_lookup.
  destruct (hashTable s !! (f, p)) as [fr|]; cbn; [|by intros [= _ <-]].
  destruct (arr_get (bufTable s) fr) as [d|] eqn:Hd; [|done].
  destruct (Z.eqb_spec (pinCnt d) 0) as [Hp|Hp]; [by intros [= _ <-]|].
  intros [= _ <-].
  pose proof Hd as [_ Hd']%arr_get_Some.
  pose proof (wf_pin _ Hwf _ _ Hd') as Hpin.
  pose proof (wf_invalid _ Hwf _ _ Hd') as Hinvalid.
  split.
  - apply (WF_set_desc s fr d); try done; destruct b; cbn; try lia;
      intros Hv; destruct (Hinvalid Hv); lia.
  - apply (Linked_set_desc s fr d); try done; by destruct b.
Qed.

(** In a state that satisfies the invariant, [unPinPage] always returns. *)
Lemma unPinPage_total f p b s : Inv s -> exists r, unPinPage f p b s = Some r.
Proof.
  intros [Hwf Hl]. unfold unPinPage, BufHashTbl_lookup.
  destruct (hashTable s !! (f, p)) as [fr|] eqn:Hht; cbn; [|eauto].
  destruct (linked_entry _ Hl _ _ _ Hht) as (d & -> & _).
  destruct (pinCnt d =? 0); eauto.
Qed.

(** [disposePage] keeps the invariant, whatever the File answers. *)
Lemma disposePage_Inv f p s rc s' :
  Inv s -> disposePage f p s = Some (rc, s') -> Inv s'.
Proof.
  intros [Hwf Hl]. unfold disposePage, BufHashTbl_lookup, BufHashTbl_remove.
  destruct (hashTable s !! (f, p)) as [fr|] eqn:Hht; cbn.
  - destruct (linked_entry _ Hl _ _ _ Hht) as (d & Hd & Hv & Hf & Hp).
    rewrite Hd. cbn. rewrite Hht. unfold do_disposePage. cbn.
    destruct (file_disposePage f p (disk s)) as [rcd w].
    intros [= _ <-]. split.
    + apply WF_with_disk. apply (WF_with_hashTable (set_desc fr _ s)).
      by apply WF_Clear.
    + apply Linked_with_disk.
      pose proof (Free_unindexed s fr d Hl Hd Hv) as Hfree.
      unfold unindexed in Hfree. rewrite Hf, Hp in Hfree.
      by apply (Free_invalidate _ fr d (BufDesc_Clear d)) in Hfree.
  - rewrite Hht. unfold do_disposePage. cbn.
    destruct (file_disposePage f p (disk s)) as [rcd w].
    intros [= _ <-]. rewrite with_hashTable_id.
    split; [by apply WF_with_disk | by apply Linked_with_disk].
Qed.

(** In a state that satisfies the invariant, [disposePage] always returns. *)
Lemma disposePage_total f p s : Inv s -> exists r, disposePage f p s = Some r.
Proof.
  intros [Hwf Hl]. unfold disposePage, BufHashTbl_lookup.
  destruct (hashTable s !! (f, p)) as [fr|] eqn:Hht; cbn.
  - destruct (linked_entry _ Hl _ _ _ Hht) as (d & -> & _).
    destruct (BufHashTbl_remove _ _ _). eauto.
  - destruct (BufHashTbl_remove _ _ _). eauto.
Qed.

(** *** flushFile *)

(** Every way one iteration of the loop of [flushFile] can go. *)
Lemma flush_frame_cases f i s d :
  arr_get (bufTable s) i = Some d ->
  (pinned d /\ file d = f /\ flush_frame f i s = Some (Some PAGEPINNED, s)) \/
  (valid d = true /\ file d = f /\ pinCnt d <= 0 /\ dirty d = false /\
   flush_frame f i s = Some (None, flushed f i d s)) \/
  (valid d = true /\ file d = f /\ pinCnt d <= 0 /\ dirty d = true /\
   match arr_get (bufPool s) i with
   | None => flush_frame f i s = None
   | Some pg =>
       exists rcw w,
         file_writePage f (pageNo d) pg (disk s) = (rcw, w) /\
         ((rcw <> OK /\
           flush_frame f i s =
             Some (Some rcw, with_disk w (IoWrite f (pageNo d) pg) s)) \/
          (rcw = OK /\
           flush_frame f i s =
             Some (None,
                   flushed f i (set_dirty false d)
                     (set_desc i (set_dirty false d)
                        (with_disk w (IoWrite f (pageNo d) pg) s)))))
   end) \/
  (valid d = false /\ file d = f /\ flush_frame f i s = Some (Some BADBUFFER, s)) \/
  (file d <> f /\ flush_frame f i s = Some (None, s)).
Proof.
  intros Hd. unfold flush_frame. rewrite Hd.
  destruct (decide (file d = f)) as [Hf|Hf].
  2:{ rewrite !bool_decide_eq_false_2, !andb_false_r by done. auto 10. }
  rewrite !bool_decide_eq_true_2 by done. rewrite !andb_true_r.
  destruct (valid d) eqn:Hv; cbn; [|auto 10].
  destruct (Z.ltb_spec 0 (pinCnt d)) as [Hp|Hp]; [left; by repeat split|].
  right. destruct (dirty d) eqn:Hdirty.
  - right; left. repeat (split; [done|]).
    destruct (arr_get (bufPool s) i) as [pg|]; [|done].
    unfold do_writePage. subst f.
    destruct (file_writePage (file d) (pageNo d) pg (disk s)) as [rcw w].
    exists rcw, w. split; [done|].
    destruct (status_ne rcw OK) eqn:Hrc.
    + left. by apply status_ne_true in Hrc.
    + right. apply status_ne_false in Hrc. split; [done|].
      cbn. erewrite arr_get_set_eq by done. unfold flushed. cbn.
      by destruct (BufHashTbl_remove _ _ _).
  - left. repeat (split; [done|]). rewrite Hd.
    unfold flushed. by destruct (BufHashTbl_remove _ _ _).
Qed.

(** An iteration touches no frame but its own, and neither the pool nor
    the clock hand. *)
Lemma flush_frame_frame f i s r s' :
  flush_frame f i s = Some (r, s') ->
  numBufs s' = numBufs s /\ bufPool s' = bufPool s /\
  clockHand s' = clockHand s /\
  forall j, j <> i -> arr_get (bufTable s') j = arr_get (bufTable s) j.
Proof.
  intros H. destruct (arr_get (bufTable s) i) as [d|] eqn:Hd.
  2:{ unfold flush_frame in H. by rewrite Hd in H. }
  destruct (flush_frame_cases f i s d Hd)
    as [(_&_&H1)|[(_&_&_&_&H1)|[(_&_&_&_&H1)|[(_&_&H1)|(_&H1)]]]].
  1,2,4,5: rewrite H1 in H; simplify_eq; repeat split; try done;
    intros j Hj; cbn; by rewrite arr_get_set_ne.
  destruct (arr_get (bufPool s) i) as [pg|]; [|congruence].
  destruct H1 as (rcw & w & _ & [(_&H1)|(_&H1)]);
    rewrite H1 in H; simplify_eq; repeat split; try done.
  intros j Hj; cbn. by rewrite !arr_get_set_ne.
Qed.

(** The only call an iteration makes on a File is the write-back of a
    dirty, unpinned page of the file being flushed. *)
Lemma flush_frame_io f i s r s' :
  flush_frame f i s = Some (r, s') ->
  io s' = io s \/ exists e, io s' = io s ++ [e] /\ flush_write f s i (i + 1) e.
Proof.
  intros H. destruct (arr_get (bufTable s) i) as [d|] eqn:Hd.
  2:{ unfold flush_frame in H. by rewrite Hd in H. }
  destruct (flush_frame_cases f i s d Hd)
    as [(_&_&H1)|[(_&_&_&_&H1)|[(?&?&?&?&H1)|[(_&_&H1)|(_&H1)]]]].
  1,2,4,5: rewrite H1 in H; simplify_eq; by left.
  destruct (arr_get (bufPool s) i) as [pg|] eqn:Hpg; [|congruence].
  right. exists (IoWrite f (pageNo d) pg). split.
  - destruct H1 as (rcw & w & _ & [(_&H1)|(_&H1)]); rewrite H1 in H; by simplify_eq.
  - exists i, d, pg. repeat split; try done; lia.
Qed.

(** A [return] from inside the loop never carries OK. *)
Lemma flush_frame_return f i s rc s' :
  flush_frame f i s = Some (Some rc, s') -> rc <> OK.
Proof.
  intros H. destruct (arr_get (bufTable s) i) as [d|] eqn:Hd.
  2:{ unfold flush_frame in H. by rewrite Hd in H. }
  destruct (flush_frame_cases f i s d Hd)
    as [(_&_&H1)|[(_&_&_&_&H1)|[(?&?&?&?&H1)|[(_&_&H1)|(_&H1)]]]].
  1,2,4,5: rewrite H1 in H; by simplify_eq.
  destruct (arr_get (bufPool s) i) as [pg|] eqn:Hpg; [|congruence].
  destruct H1 as (rcw & w & _ & [(?&H1)|(_&H1)]); rewrite H1 in H; by simplify_eq.
Qed.

(** Storage that takes writes: a condition that makes a write succeed and
    that a write keeps.  An iteration leaves storage in that condition. *)
Lemma flush_frame_Wok (Wok : World -> Prop) f i s r s' :
  (forall f' p pg w, Wok w ->
     (file_writePage f' p pg w).1 = OK /\ Wok (file_writePage f' p pg w).2) ->
  Wok (disk s) -> flush_frame f i s = Some (r, s') -> Wok (disk s').
Proof.
  intros Hw Hok H. destruct (arr_get (bufTable s) i) as [d|] eqn:Hd.
  2:{ unfold flush_frame in H. by rewrite Hd in H. }
  destruct (flush_frame_cases f i s d Hd)
    as [(_&_&H1)|[(_&_&_&_&H1)|[(?&?&?&?&H1)|[(_&_&H1)|(_&H1)]]]].
  1,2,4,5: rewrite H1 in H; by simplify_eq.
  destruct (arr_get (bufPool s) i) as [pg|] eqn:Hpg; [|congruence].
  destruct H1 as (rcw & w & Hrcw & [(_&H1)|(_&H1)]); rewrite H1 in H;
    simplify_eq; cbn;
    destruct (Hw (file d) (pageNo d) pg (disk s) Hok) as [_ Hok'];
    by rewrite Hrcw in Hok'.
Qed.

(** When storage takes the writes and the file is not the null pointer,
    the only [return] from inside the loop is PAGEPINNED. *)
Lemma flush_frame_return_pinned (Wok : World -> Prop) f i s rc s' :
  WF s -> f <> NULL ->
  (forall f' p pg w, Wok w ->
     (file_writePage f' p pg w).1 = OK /\ Wok (file_writePage f' p pg w).2) ->
  Wok (disk s) ->
  flush_frame f i s = Some (Some rc, s') -> rc = PAGEPINNED.
Proof.
  intros Hwf Hf Hw Hok H. destruct (arr_get (bufTable s) i) as [d|] eqn:Hd.
  2:{ unfold flush_frame in H. by rewrite Hd in H. }
  destruct (flush_frame_cases f i s d Hd)
    as [(_&_&H1)|[(_&_&_&_&H1)|[(?&?&?&?&H1)|[(Hv&Hfd&H1)|(_&H1)]]]].
  1,2,5: rewrite H1 in H; by simplify_eq.
  - destruct (arr_get (bufPool s) i) as [pg|] eqn:Hpg; [|congruence].
    destruct H1 as (rcw & w & Hrcw & [(?&H1)|(_&H1)]); rewrite H1 in H;
      simplify_eq.
    destruct (Hw (file d) (pageNo d) pg (disk s) Hok) as [Hrc _].
    rewrite Hrcw in Hrc. done.
  - apply arr_get_Some in Hd as [_ Hd].
    destruct (wf_invalid _ Hwf _ _ Hd Hv). congruence.
Qed.

(** Flushing a valid, unpinned frame of a state that satisfies the
    invariant gives a state that satisfies it. *)
Lemma flushed_Inv f i d s :
  Inv s -> arr_get (bufTable s) i = Some d ->
  valid d = true -> file d = f -> pinCnt d <= 0 ->
  Inv (flushed f i d s).
Proof.
  intros [Hwf Hl] Hd Hv Hf Hp.
  pose proof Hd as [_ Hd']%arr_get_Some.
  pose proof (wf_pin _ Hwf _ _ Hd') as Hpin.
  pose proof (linked_frame _ Hl _ _ Hd' Hv) as Hht.
  unfold flushed, BufHashTbl_remove. rewrite <- Hf, Hht. cbn. split.
  - apply (WF_set_desc (with_hashTable _ s) i d);
      [by apply WF_with_hashTable|done|done|done|cbn; intros _; split; [lia|done]].
  - apply (Free_invalidate (unindexed d s) i d);
      [by apply Free_unindexed|done|done].
Qed.

(** An iteration keeps the invariant, however it ends. *)
Lemma flush_frame_Inv f i s r s' :
  Inv s -> flush_frame f i s = Some (r, s') -> Inv s'.
Proof.
  intros Hinv H. destruct (arr_get (bufTable s) i) as [d|] eqn:Hd.
  2:{ unfold flush_frame in H. by rewrite Hd in H. }
  destruct (flush_frame_cases f i s d Hd)
    as [(_&_&H1)|[(?&?&?&?&H1)|[(Hv&Hf&Hp&?&H1)|[(_&_&H1)|(_&H1)]]]].
  1,4,5: rewrite H1 in H; by simplify_eq.
  - rewrite H1 in H. simplify_eq. by apply flushed_Inv.
  - destruct (arr_get (bufPool s) i) as [pg|] eqn:Hpg; [|congruence].
    destruct Hinv as [Hwf Hl].
    pose proof Hd as [_ Hd']%arr_get_Some.
    pose proof (wf_pin _ Hwf _ _ Hd') as Hpin.
    destruct H1 as (rcw & w & _ & [(_&H1)|(_&H1)]); rewrite H1 in H; simplify_eq.
    + split; [by apply WF_with_disk | by apply Linked_with_disk].
    + set (s1 := with_disk w (IoWrite (file d) (pageNo d) pg) s).
      assert (Inv s1) as [Hwf1 Hl1].
      { split; [by apply WF_with_disk | by apply Linked_with_disk]. }
      apply flushed_Inv; try done.
      * split.
        -- apply (WF_set_desc s1 i d); try done. cbn. congruence.
        -- by apply (Linked_set_desc s1 i d).
      * by eapply arr_get_set_eq.
Qed.

(** In a well-formed state an iteration over a frame of the table
    returns. *)
Lemma flush_frame_total f i s d :
  WF s -> arr_get (bufTable s) i = Some d -> exists r, flush_frame f i s = Some r.
Proof.
  intros Hwf Hd.
  destruct (flush_frame_cases f i s d Hd)
    as [(_&_&H1)|[(?&?&?&?&H1)|[(Hv&Hf&Hp&?&H1)|[(_&_&H1)|(_&H1)]]]]; eauto.
  destruct (WF_arr_get _ _ _ Hwf Hd) as [_ [pg Hpg]]. rewrite Hpg in H1.
  destruct H1 as (rcw & w & _ & [(_&H1)|(_&H1)]); eauto.
Qed.

Lemma flush_loop_Inv f n : forall i s rc s',
  Inv s -> flush_loop n f i s = Some (rc, s') -> Inv s'.
Proof.
  induction n as [|n IH]; intros i s rc s' Hinv; cbn; [by intros [= _ <-]|].
  destruct (flush_frame f i s) as [[[rc1|] s1]|] eqn:Hfr; [| |done].
  - intros [= _ <-]. by eapply flush_frame_Inv.
  - apply IH. by eapply flush_frame_Inv.
Qed.

Lemma flush_loop_total f n : forall i s,
  Inv s -> 0 <= i -> i + Z.of_nat n <= numBufs s ->
  exists r, flush_loop n f i s = Some r.
Proof.
  induction n as [|n IH]; intros i s Hinv Hi Hn; cbn; [eauto|].
  destruct (arr_get_in_range (bufTable s) i) as [d Hd].
  { rewrite (wf_table _ (proj1 Hinv)). lia. }
  destruct (flush_frame_total f i s d (proj1 Hinv) Hd) as [[[rc1|] s1] Hfr];
    rewrite Hfr; [eauto|].
  destruct (flush_frame_frame _ _ _ _ _ Hfr) as (HN & _).
  apply IH; [by eapply flush_frame_Inv|lia|lia].
Qed.

(** The loop over frames [i, i+n) touches no frame outside that range. *)
Lemma flush_loop_frame f n : forall i s rc s',
  flush_loop n f i s = Some (rc, s') ->
  numBufs s' = numBufs s /\ bufPool s' = bufPool s /\
  clockHand s' = clockHand s /\
  forall j, ~ (i <= j < i + Z.of_nat n) ->
            arr_get (bufTable s') j = arr_get (bufTable s) j.
Proof.
  induction n as [|n IH]; intros i s rc s'; cbn -[Z.of_nat]; [by intros [= _ <-]|].
  destruct (flush_frame f i s) as [[[rc1|] s1]|] eqn:Hfr; [| |done].
  - intros [= _ <-].
    destruct (flush_frame_frame _ _ _ _ _ Hfr) as (?&?&?&Hj).
    repeat split; try done. intros j Hout. apply Hj. lia.
  - intros Hloop.
    destruct (flush_frame_frame _ _ _ _ _ Hfr) as (?&?&?&Hj).
    destruct (IH _ _ _ _ Hloop) as (?&?&?&Hj').
    repeat split; try congruence.
    intros j Hout. rewrite Hj' by lia. apply Hj. lia.
Qed.

Lemma flush_write_mono f s lo hi lo' hi' e :
  lo' <= lo -> hi <= hi' -> flush_write f s lo hi e -> flush_write f s lo' hi' e.
Proof.
  intros ? ? (j & d & pg & ? & H). exists j, d, pg. split; [lia|done].
Qed.

(** The only calls the loop makes on Files are write-backs of dirty,
    unpinned pages of the file being flushed, held in the frames it went
    over. *)
Lemma flush_loop_io f n : forall i s rc s',
  flush_loop n f i s = Some (rc, s') ->
  exists evs, io s' = io s ++ evs /\
              Forall (flush_write f s i (i + Z.of_nat n)) evs.
Proof.
  induction n as [|n IH]; intros i s rc s'; cbn -[Z.of_nat].
  { intros [= _ <-]. exists []. by rewrite app_nil_r. }
  destruct (flush_frame f i s) as [[[rc1|] s1]|] eqn:Hfr; [| |done].
  - intros [= _ <-].
    destruct (flush_frame_io _ _ _ _ _ Hfr) as [->|(e & -> & He)].
    + exists []. by rewrite app_nil_r.
    + exists [e]. split; [done|]. apply Forall_singleton.
      eapply flush_write_mono; [| |done]; lia.
  - intros Hloop. destruct (IH _ _ _ _ Hloop) as (evs & Hio & Hevs).
    destruct (flush_frame_frame _ _ _ _ _ Hfr) as (_&Hpool&_&Hj).
    assert (Forall (flush_write f s i (i + Z.of_nat (S n))) evs) as Hevs'.
    { eapply Forall_impl; [exact Hevs|].
      intros e (j & d & pg & Hr & Hd & Hrest).
      exists j, d, pg. split; [lia|]. rewrite <- Hj by lia.
      split; [done|]. by rewrite <- Hpool. }
    destruct (flush_frame_io _ _ _ _ _ Hfr) as [Heq|(e & Heq & He)].
    + exists evs. split; [congruence|done].
    + exists (e :: evs). split.
      * rewrite Hio, Heq, <- app_assoc. done.
      * apply Forall_cons. split; [|done].
        eapply flush_write_mono; [| |done]; lia.
Qed.

(** The loop returns OK only by running to its end, so a loop over
    [n + m] frames is the loop over the first [n] followed by the loop
    over the rest. *)
Lemma flush_loop_split f n m : forall i s,
  flush_loop (n + m) f i s =
    match flush_loop n f i s with
    | Some (OK, s1) => flush_loop m f (i + Z.of_nat n) s1
    | r => r
    end.
Proof.
  induction n as [|n IH]; intros i s; cbn -[Z.of_nat].
  { by rewrite Z.add_0_r. }
  destruct (flush_frame f i s) as [[[rc1|] s1]|] eqn:Hfr; [| |done].
  - apply flush_frame_return in Hfr. by destruct rc1.
  - rewrite IH. replace (i + 1 + Z.of_nat n) with (i + Z.of_nat (S n)) by lia.
    done.
Qed.

(** When writes succeed and the file is not the null pointer, the loop
    fails with PAGEPINNED or not at all. *)
Lemma flush_loop_return_pinned (Wok : World -> Prop) f n : forall i s rc s',
  Inv s -> f <> NULL ->
  (forall f' p pg w, Wok w ->
     (file_writePage f' p pg w).1 = OK /\ Wok (file_writePage f' p pg w).2) ->
  Wok (disk s) ->
  flush_loop n f i s = Some (rc, s') -> rc = OK \/ rc = PAGEPINNED.
Proof.
  induction n as [|n IH]; intros i s rc s' Hinv Hf Hw Hok; cbn;
    [intros [= <- _]; by left|].
  destruct (flush_frame f i s) as [[[rc1|] s1]|] eqn:Hfr; [| |done].
  - intros [= <- _]. right.
    by eapply (flush_frame_return_pinned Wok f i s rc1 s1 (proj1 Hinv)).
  - apply IH; try done; [by eapply flush_frame_Inv|].
    by eapply (flush_frame_Wok Wok).
Qed.

(** Frames of other files are passed over. *)
Lemma flush_loop_other_files f n : forall i s,
  (forall j, i <= j < i + Z.of_nat n ->
             exists d, arr_get (bufTable s) j = Some d /\ file d <> f) ->
  flush_loop n f i s = Some (OK, s).
Proof.
  induction n as [|n IH]; intros i s Hother; cbn -[Z.of_nat]; [done|].
  destruct (Hother i ltac:(lia)) as (d & Hd & Hf).
  destruct (flush_frame_cases f i s d Hd)
    as [(_&?&_)|[(_&?&_)|[(_&?&_)|[(_&?&_)|(_&H1)]]]]; try done.
  rewrite H1. apply IH. intros j Hj. apply Hother. lia.
Qed.

(** [flushFile] keeps the invariant, whatever it returns. *)
Lemma flushFile_Inv f s rc s' :
  Inv s -> flushFile f s = Some (rc, s') -> Inv s'.
Proof. apply flush_loop_Inv. Qed.

(** In a state that satisfies the invariant, [flushFile] always returns. *)
Lemma flushFile_total f s : Inv s -> exists r, flushFile f s = Some r.
Proof.
  intros Hinv. apply flush_loop_total; [done|lia|].
  pose proof (wf_table _ (proj1 Hinv)). lia.
Qed.

(** C8, as amended: when a cached page of file [f] is pinned, [flushFile f]
    fails.  It scans the frames in order and stops at the first failure, so
    the pinned frame and every frame after it are left as they were (not
    written back, not removed from the index, not invalidated), and the
    only calls on Files are write-backs of dirty, unpinned pages of [f] in
    frames before it; those earlier frames are flushed.  The status is
    PAGEPINNED whenever [f] is not the null pointer and storage takes the
    writes ([Wok] is a condition on storage under which a write succeeds
    and which a write keeps), and when no earlier frame belongs to [f]
    nothing at all is changed. *)
Theorem flushFile_pinned f s (k : nat) d :
  Inv s -> bufTable s !! k = Some d -> pinned d -> file d = f ->
  exists rc s',
    flushFile f s = Some (rc, s') /\ rc <> OK /\
    (forall (j : nat) dj, (k <= j)%nat -> bufTable s !! j = Some dj ->
       bufTable s' !! j = Some dj /\
       (valid dj = true ->
        hashTable s' !! (file dj, pageNo dj) = Some (Z.of_nat j))) /\
    bufPool s' = bufPool s /\
    (exists evs, io s' = io s ++ evs /\
                 Forall (flush_write f s 0 (Z.of_nat k)) evs) /\
    (f <> NULL ->
     forall Wok : World -> Prop,
       (forall f' p pg w, Wok w ->
          (file_writePage f' p pg w).1 = OK /\ Wok (file_writePage f' p pg w).2) ->
       Wok (disk s) -> rc = PAGEPINNED) /\
    ((forall (j : nat) dj, (j < k)%nat -> bufTable s !! j = Some dj -> file dj <> f) ->
     rc = PAGEPINNED /\ s' = s).
Proof.
  intros Hinv Hk Hpin Hf.
  pose proof (lookup_lt_Some _ _ _ Hk) as Hlt.
  pose proof (wf_table _ (proj1 Hinv)) as Hlen.
  destruct (flush_loop_total f k 0 s Hinv ltac:(lia) ltac:(lia))
    as [[rc1 s1] Hpre].
  pose proof (flush_loop_Inv _ _ _ _ _ _ Hinv Hpre) as Hinv1.
  destruct (flush_loop_frame _ _ _ _ _ _ Hpre) as (HN & Hpool & _ & Hout).
  destruct (flush_loop_io _ _ _ _ _ _ Hpre) as (evs & Hio & Hevs).
  assert (arr_get (bufTable s1) (Z.of_nat k) = Some d) as Hk1.
  { rewrite Hout by lia. by rewrite arr_get_nat. }
  (* the whole loop ends where the loop over the first [k] frames ends *)
  assert (exists rc, flushFile f s = Some (rc, s1) /\ rc <> OK /\
                     (rc1 = OK -> rc = PAGEPINNED) /\ (rc1 <> OK -> rc = rc1))
    as (rc & Hflush & Hrc & Hok & Hnok).
  { unfold flushFile.
    replace (Z.to_nat (numBufs s)) with (k + S (length (bufTable s) - S k))%nat
      by lia.
    rewrite flush_loop_split, Hpre. rewrite Z.add_0_l.
    destruct (decide (rc1 = OK)) as [->|Hne].
    - cbn. destruct (flush_frame_cases f _ _ _ Hk1)
        as [(_&_&H1)|[(_&_&?&_)|[(_&_&?&_)|[(?&_)|(?&_)]]]];
        try (destruct Hpin; congruence || lia).
      rewrite H1. exists PAGEPINNED. done.
    - exists rc1. by destruct rc1. }
  exists rc, s1. split; [done|]. split; [done|].
  split; [|split; [done|split; [by eauto|split]]].
  - intros j dj Hj Hdj.
    assert (bufTable s1 !! j = Some dj) as Hdj1.
    { rewrite <- arr_get_nat, Hout by lia. by rewrite arr_get_nat. }
    split; [done|]. intros Hv. by apply (linked_frame _ (proj2 Hinv1)).
  - intros Hnull Wok Hw Hwok.
    destruct (flush_loop_return_pinned Wok _ _ _ _ _ _ Hinv Hnull Hw Hwok Hpre)
      as [-> | ->];
      [by apply Hok | by apply Hnok].
  - intros Hother.
    rewrite flush_loop_other_files in Hpre.
    + simplify_eq. by split; [apply Hok|].
    + intros j Hj.
      destruct (arr_get_in_range (bufTable s) j) as [dj Hdj]; [lia|].
      exists dj. split; [done|]. apply arr_get_Some in Hdj as [_ Hdj].
      apply (Hother (Z.to_nat j)); [lia|done].
Qed.

(** *** From a fresh pool *)

Lemma BufMgr_new_Inv bufs w : 0 <= bufs -> Inv (BufMgr_new bufs w).
Proof.
  intros Hb. split; constructor; cbn.
  - rewrite length_map, length_seq. lia.
  - by rewrite length_replicate, length_map, length_seq.
  - lia.
  - intros i d Hi. rewrite (list_lookup_fmap (fun i => BufDesc_init (Z.of_nat i)))
      in Hi.
    destruct (seq 0 (Z.to_nat bufs) !! i) as [j|] eqn:Hj; [|done].
    apply lookup_seq in Hj as [-> _]. by simplify_eq/=.
  - intros i d Hi. rewrite (list_lookup_fmap (fun i => BufDesc_init (Z.of_nat i)))
      in Hi.
    destruct (seq 0 (Z.to_nat bufs) !! i) as [j|]; by simplify_eq/=.
  - intros i d Hi. rewrite (list_lookup_fmap (fun i => BufDesc_init (Z.of_nat i)))
      in Hi.
    destruct (seq 0 (Z.to_nat bufs) !! i) as [j|]; by simplify_eq/=.
  - intros i d Hi. rewrite (list_lookup_fmap (fun i => BufDesc_init (Z.of_nat i)))
      in Hi.
    destruct (seq 0 (Z.to_nat bufs) !! i) as [j|]; by simplify_eq/=.
  - intros f p fr H. by rewrite lookup_empty in H.
Qed.

(** The invariant is the bijection between valid frames and entries. *)
Lemma Inv_index_bijection s : Inv s -> index_bijection s.
Proof.
  intros [Hwf [Hfr Hen]]. repeat split.
  - intros i d Hi Hv. exists (file d, pageNo d). split; [by apply Hfr|].
    intros [f p] Hk. destruct (Hen _ _ _ Hk) as (d' & Hd' & _ & <- & <-).
    rewrite arr_get_nat in Hd'. congruence.
  - intros [f p] fr Hk. destruct (Hen _ _ _ Hk) as (d & ? & ? & _). eauto.
  - intros [f1 p1] [f2 p2] fr H1 H2.
    destruct (Hen _ _ _ H1) as (d1 & Hd1 & _ & <- & <-).
    destruct (Hen _ _ _ H2) as (d2 & Hd2 & _ & <- & <-). congruence.
Qed.

(** With an index that refuses an identity it already holds, every call
    keeps the invariant, unless it is an allocation that fails with a
    status other than BUFFEREXCEEDED. *)
Lemma run_op_Inv o s rc s' :
  on_duplicate = RejectDuplicate ->
  Inv s -> run_op o s = Some (rc, s') -> clean o rc -> Inv s'.
Proof.
  intros Hrej Hinv. destruct o as [f p|f p b|f p0|f p|f]; cbn.
  - destruct (readPage f p s) as [[[rc1 fro] s1]|] eqn:H; [|done].
    intros [= _ <-] _. by eapply readPage_Inv.
  - intros H _. by eapply unPinPage_Inv.
  - destruct (allocPage f p0 s) as [[[[rc1 pn] fro] s1]|] eqn:H; [|done].
    intros [= <- <-] Hc. by eapply allocPage_Inv.
  - intros H _. by eapply disposePage_Inv.
  - intros H _. by eapply flushFile_Inv.
Qed.

(** In a state that satisfies the invariant every call returns: the C++
    code stays within its arrays. *)
Lemma run_op_total o s : Inv s -> exists r, run_op o s = Some r.
Proof.
  intros Hinv. destruct o as [f p|f p b|f p0|f p|f]; cbn.
  - rewrite readPage_result. eauto.
  - by apply unPinPage_total.
  - destruct (allocPage_total f p0 s Hinv) as [r ->]. eauto.
  - by apply disposePage_total.
  - by apply flushFile_total.
Qed.

Lemma CleanlyReachable_Inv bufs w s :
  on_duplicate = RejectDuplicate ->
  0 <= bufs -> CleanlyReachable bufs w s -> Inv s.
Proof.
  intros Hrej Hb. induction 1 as [|s o rc s' _ IH Hrun Hclean].
  - by apply BufMgr_new_Inv.
  - by eapply run_op_Inv.
Qed.

(** C9, as amended: provided the index refuses to insert an identity it
    already holds, in every state reached from a freshly constructed pool
    by calls none of which is an allocation that failed with a status
    other than BUFFEREXCEEDED, valid frames and index entries are in
    bijection; and every call made in such a state returns and, unless it
    is such a failed allocation, leaves them in bijection, on its error
    paths too. *)
Theorem reachable_index_bijection bufs w s :
  on_duplicate = RejectDuplicate ->
  0 <= bufs -> CleanlyReachable bufs w s ->
  index_bijection s /\
  forall o, exists rc s',
    run_op o s = Some (rc, s') /\ (clean o rc -> index_bijection s').
Proof.
  intros Hrej Hb Hreach.
  pose proof (CleanlyReachable_Inv _ _ _ Hrej Hb Hreach) as Hinv.
  split; [by apply Inv_index_bijection|].
  intros o. destruct (run_op_total o s Hinv) as [[rc s'] Hrun].
  exists rc, s'. split; [done|]. intros Hclean.
  apply Inv_index_bijection. by eapply run_op_Inv.
Qed.

(** ** Further properties of the code *)

(** *** allocBuf: how long the loop runs, and which frame it takes *)

Lemma refbits_le (t : list BufDesc) : (refbits t <= length t)%nat.
Proof. unfold refbits. apply length_filter. Qed.

(** X1: in a well-formed pool the loop of [allocBuf] is over after at most
    twice as many iterations as there are frames, and it never reads
    outside the descriptor table. *)
Theorem scan_within_two_rounds s fuel :
  WF s -> (2 * length (bufTable s) <= fuel)%nat ->
  exists s' numPins,
    scan fuel s 0 = LoopDone s' numPins /\ allocBuf s = evict s' numPins.
Proof.
  intros Hwf Hfuel.
  assert (scan_fuel s 0 <= fuel)%nat as Hle.
  { unfold scan_fuel. pose proof (refbits_le (bufTable s)).
    pose proof (wf_table _ Hwf). lia. }
  destruct (scan_total s Hwf) as (s' & numPins & Hscan).
  exists s', numPins. split.
  - by rewrite (scan_fuel_mono (scan_fuel s 0) fuel) by (done || congruence).
  - by apply allocBuf_evict.
Qed.

(** The loop never sets a reference bit: a descriptor whose bit is set
    after the loop is the descriptor that was there before. *)
Lemma scan_keeps_referenced fuel s numPins s' numPins' :
  scan fuel s numPins = LoopDone s' numPins' ->
  forall i d', bufTable s' !! i = Some d' -> refbit d' = true ->
               bufTable s !! i = Some d'.
Proof.
  intros Hscan.
  pose (P := fun (s1 : St) (_ : Z) =>
    forall i d', bufTable s1 !! i = Some d' -> refbit d' = true ->
                 bufTable s !! i = Some d').
  assert (forall s1 n1 r, P s1 n1 -> scan_step s1 n1 = Some r ->
                          P (step_state r) n1) as Hstep.
  { intros s1 n1 r HP Hr. pose proof (scan_step_cases s1 n1) as Hc.
    destruct (arr_get (bufTable s1) (next_hand s1)) as [d|] eqn:Hd;
      [|congruence].
    destruct Hc as [(_&H)|[(_&_&H)|[(_&_&_&H)|(_&_&_&H)]]];
      rewrite H in Hr; simplify_eq; unfold P in *; cbn; try done.
    intros i d'. rewrite (arr_set_lookup _ _ _ _ _ Hd).
    destruct (decide (next_hand s1 = Z.of_nat i)); [|by apply HP].
    intros; by simplify_eq. }
  destruct (scan_inv P) with (3 := Hscan) as [[_ HP]|(s0 & HP & _ & Hb)].
  - intros s1 n1 s2 n2 HP _ Hr. apply (Hstep _ n1 (Continue s2 n2) HP Hr).
  - by unfold P.
  - exact HP.
  - apply (Hstep _ _ (Break s') HP Hb).
Qed.

(** The part of [allocBuf] after the loop does not touch the descriptor
    table. *)
Lemma evict_table s numPins rc fro s' :
  evict s numPins = Some (rc, fro, s') -> bufTable s' = bufTable s.
Proof.
  intros Hev.
  apply evict_cases in Hev as [(_ & _ & _ & ->)|(_ & d & _ & Hc)]; [done|].
  by destruct Hc as [(_&_&_&->)|[(_&_&_&_&->)|[(_&_&_&_&_&->)|
    (_&_&_&pg&rcw&w&_&_&->&_)]]].
Qed.

(** What [allocBuf] can do to the index and to storage, and what it leaves
    alone. *)
Lemma allocBuf_effects s rc fro s' :
  allocBuf s = Some (rc, fro, s') ->
  numBufs s' = numBufs s /\ bufPool s' = bufPool s /\
  unreferenced (bufTable s') = unreferenced (bufTable s) /\
  (hashTable s' = hashTable s \/
   exists k, is_Some (hashTable s !! k) /\ hashTable s' = delete k (hashTable s)) /\
  ((io s' = io s /\ disk s' = disk s) \/
   exists f p pg, io s' = io s ++ [IoWrite f p pg]) /\
  (is_Some fro <-> rc = OK).
Proof.
  intros Halloc. apply allocBuf_inv in Halloc as (s1 & numPins & Hscan & Hev).
  destruct (scan_frame _ _ _ _ _ Hscan) as (HN & Hpool & Hht & Hdisk & Hio & _ & Hun).
  apply evict_cases in Hev as [(_ & -> & -> & ->)|(_ & d & Hd & Hc)].
  { do 3 (split; [done|]). split; [by left|]. split; [by left|].
    split; [by intros []|done]. }
  destruct Hc as [(Hv&->&->&->)|[(_&_&->&->&->)|[(Hv&Hsome&_&->&->&->)|
    (Hv&Hsome&_&pg&rcw&w&_&_&->&[(_&->&->)|(_&->&->)])]]]; cbn;
    rewrite ?Hht, ?Hio, ?Hdisk;
    (split; [done|]); (split; [done|]); (split; [done|]).
  - split; [by left|]. split; [by left|]. split; [done|by eauto].
  - split; [by left|]. split; [by left|]. split; [by intros []|done].
  - split; [right; exists (file d, pageNo d); by rewrite <- Hht|].
    split; [by left|]. split; [done|by eauto].
  - split; [right; exists (file d, pageNo d); by rewrite <- Hht|].
    split; [right; by eauto|]. split; [done|by eauto].
  - split; [right; exists (file d, pageNo d); by rewrite <- Hht|].
    split; [right; by eauto|]. split; [by intros []|done].
Qed.

(** X2: whatever it returns, [allocBuf] changes no pin count, dirty bit,
    validity or page identity of any descriptor and sets no reference bit
    (it can only clear them); it does not touch the frame pool; it adds
    nothing to the index and takes at most one entry out of it; the only
    call it can make on a File is one write; and it assigns a frame to its
    out-parameter exactly when it returns OK.  In particular the victim's
    descriptor is still marked valid when [allocBuf] returns. *)
Theorem allocBuf_frame s rc fro s' :
  allocBuf s = Some (rc, fro, s') ->
  numBufs s' = numBufs s /\ bufPool s' = bufPool s /\
  unreferenced (bufTable s') = unreferenced (bufTable s) /\
  (forall i d', bufTable s' !! i = Some d' -> refbit d' = true ->
                bufTable s !! i = Some d') /\
  (hashTable s' = hashTable s \/
   exists k, is_Some (hashTable s !! k) /\ hashTable s' = delete k (hashTable s)) /\
  ((io s' = io s /\ disk s' = disk s) \/
   exists f p pg, io s' = io s ++ [IoWrite f p pg]) /\
  (is_Some fro <-> rc = OK).
Proof.
  intros Halloc.
  destruct (allocBuf_effects _ _ _ _ Halloc) as (HN & Hpool & Hun & Hht & Hio & Hfro).
  do 3 (split; [done|]). split; [|done].
  apply allocBuf_inv in Halloc as (s1 & numPins & Hscan & Hev).
  rewrite (evict_table _ _ _ _ _ Hev).
  by apply (scan_keeps_referenced _ _ _ _ _ Hscan).
Qed.

Lemma mod_add_distinct h m N :
  0 <= h < N -> 0 < m < N -> (h + m) mod N <> h.
Proof.
  intros Hh Hm. destruct (Z_lt_le_dec (h + m) N).
  - rewrite Z.mod_small; lia.
  - replace (h + m) with ((h + m - N) + 1 * N) by lia.
    rewrite Z_mod_plus_full, Z.mod_small; lia.
Qed.

Lemma ahead_zero s : 0 < numBufs s -> -1 <= clockHand s -> ahead s 0 = next_hand s.
Proof. intros. unfold ahead. rewrite Z.add_0_r. symmetry. by apply next_hand_mod. Qed.

Lemma ahead_succ s j :
  0 < numBufs s -> -1 <= clockHand s ->
  ahead s (j + 1) = (next_hand s + (j + 1)) mod numBufs s.
Proof.
  intros. unfold ahead. rewrite next_hand_mod by done.
  rewrite Zplus_mod_idemp_l. f_equal; lia.
Qed.

(** After one iteration, the frame [j] steps ahead of the hand is the one
    that was [j + 1] steps ahead before. *)
Lemma ahead_step s numPins r j :
  0 < numBufs s -> -1 <= clockHand s -> scan_step s numPins = Some r ->
  ahead (step_state r) j = ahead s (j + 1).
Proof.
  intros HN Hh Hr. destruct (scan_step_frame _ _ _ Hr) as (Hc & HNr & _).
  unfold ahead. rewrite Hc, HNr, next_hand_mod by done.
  rewrite <- Z.add_assoc, Zplus_mod_idemp_l. f_equal; lia.
Qed.

(** An iteration leaves the descriptors of the frames the hand is not on
    as they were. *)
Lemma scan_step_table s numPins r i :
  scan_step s numPins = Some r -> i <> next_hand s ->
  arr_get (bufTable (step_state r)) i = arr_get (bufTable s) i.
Proof.
  intros Hr Hi. pose proof (scan_step_cases s numPins) as Hc.
  destruct (arr_get (bufTable s) (next_hand s)) as [d|] eqn:Hd; [|congruence].
  destruct Hc as [(_&H)|[(_&_&H)|[(_&_&_&H)|(_&_&_&H)]]];
    rewrite H in Hr; simplify_eq; cbn; try done.
  by rewrite arr_get_set_ne.
Qed.

(** The loop stops at the first frame, in clock order, that the policy
    may take. *)
Lemma scan_first_candidate fuel : forall s numPins (j : nat) d,
  WF s -> 0 <= numPins ->
  arr_get (bufTable s) (ahead s (Z.of_nat j)) = Some d -> candidate d ->
  numPins + Z.of_nat j < numBufs s ->
  (forall j' d', 0 <= j' < Z.of_nat j ->
                 arr_get (bufTable s) (ahead s j') = Some d' -> ~ candidate d') ->
  match scan fuel s numPins with
  | LoopDone s' numPins' =>
      clockHand s' = ahead s (Z.of_nat j) /\ numPins' < numBufs s'
  | LoopUndef => False
  | LoopFuel => True
  end.
Proof.
  induction fuel as [|fuel IH]; intros s numPins j d Hwf Hnp Hk Hcand Hlt Hnot; cbn;
    (destruct (Z.leb_spec (numBufs s) numPins) as [Hge|Hlt']; [lia|]); [done|].
  assert (0 < numBufs s) as HN by lia.
  pose proof (wf_hand _ Hwf) as Hhand.
  destruct (scan_step_defined s numPins HN Hwf) as [r Hr]. rewrite Hr.
  destruct (scan_step_frame _ _ _ Hr) as (Hh & HNr & _).
  pose proof (next_hand_range s HN Hhand) as Hrange.
  pose proof (scan_step_cases s numPins) as Hc.
  destruct (arr_get (bufTable s) (next_hand s)) as [dh|] eqn:Hdh; [|congruence].
  destruct j as [|j].
  { (* the frame under the hand is the first candidate: the step breaks out *)
    change (Z.of_nat 0) with 0 in *. rewrite ahead_zero in * by done.
    simplify_eq.
    destruct Hcand as [Hv|[Hrb Hp]];
      destruct Hc as [(?&H)|[(?&?&H)|[(?&?&?&H)|(?&?&?&H)]]];
      try congruence; rewrite H in Hr; simplify_eq; cbn in *; split; (done || lia). }
  (* the frame under the hand is no candidate: the step goes on *)
  assert (~ candidate dh) as Hdh_not.
  { apply (Hnot 0); [lia|]. by rewrite ahead_zero. }
  destruct r as [s1|s1 numPins1].
  { exfalso. apply Hdh_not.
    destruct Hc as [(?&H)|[(?&?&H)|[(?&?&?&H)|(?&?&?&H)]]];
      rewrite H in Hr; simplify_eq; [by left | by right]. }
  pose proof (scan_step_WF _ _ _ HN Hwf Hr) as Hwf1.
  pose proof (scan_step_numPins _ _ _ _ Hr) as Hnp1.
  cbn [step_state] in *.
  replace (Z.of_nat (S j)) with (Z.of_nat j + 1) in * by lia.
  pose proof (ahead_step s numPins _ (Z.of_nat j) HN Hhand Hr) as Hahead.
  cbn [step_state] in Hahead.
  specialize (IH s1 numPins1 j d Hwf1 ltac:(lia)).
  rewrite Hahead, HNr in IH. apply IH; [|done|lia|].
  - rewrite (scan_step_table _ _ _ _ Hr); [done|].
    rewrite ahead_succ by done. apply mod_add_distinct; lia.
  - intros j' d' Hj' Hd'.
    pose proof (ahead_step s numPins _ j' HN Hhand Hr) as Hahead'.
    cbn [step_state] in Hahead'. rewrite Hahead' in Hd'.
    rewrite (scan_step_table _ _ _ _ Hr) in Hd'.
    + apply (Hnot (j' + 1)); [lia|done].
    + rewrite ahead_succ by done. apply mod_add_distinct; lia.
Qed.

(** X3: in a well-formed pool [allocBuf] takes the first frame, in clock
    order starting after the hand, that is invalid or holds an unpinned
    page with its reference bit clear: it leaves the hand on that frame,
    does not return BUFFEREXCEEDED, and hands that frame out when it
    returns OK. *)
Theorem allocBuf_takes_first_candidate s (j : nat) d :
  WF s -> Z.of_nat j < numBufs s ->
  arr_get (bufTable s) (ahead s (Z.of_nat j)) = Some d -> candidate d ->
  (forall j' d', 0 <= j' < Z.of_nat j ->
                 arr_get (bufTable s) (ahead s j') = Some d' -> ~ candidate d') ->
  exists rc fro s',
    allocBuf s = Some (rc, fro, s') /\
    clockHand s' = ahead s (Z.of_nat j) /\
    rc <> BUFFEREXCEEDED /\
    (rc = OK -> fro = Some (ahead s (Z.of_nat j))).
Proof.
  intros Hwf Hj Hd Hcand Hnot.
  destruct (allocBuf_total s Hwf) as [[[rc fro] s'] Halloc].
  exists rc, fro, s'. split; [done|].
  apply allocBuf_inv in Halloc as (s1 & numPins & Hscan & Hev).
  pose proof (scan_first_candidate (scan_fuel s 0) s 0 j d Hwf ltac:(lia)
                Hd Hcand ltac:(lia) Hnot) as Hfirst.
  rewrite Hscan in Hfirst. destruct Hfirst as [Hhand Hlt].
  pose proof (scan_WF _ s 0 _ _ Hwf ltac:(lia) Hscan) as Hwf1.
  apply evict_cases in Hev as [(Hge & _)|(_ & d1 & Hd1 & Hc)]; [lia|].
  pose proof (WF_frameNo _ _ _ Hwf1 Hd1) as Hfr.
  destruct Hc as [(_&->&->&->)|[(_&_&->&->&->)|[(_&_&_&->&->&->)|
    (_&_&_&pg&rcw&w&_&_&->&[(_&->&->)|(_&->&->)])]]]; cbn;
    repeat split; try done; intros _; congruence.
Qed.


(** X4: exhaustion is reported only when something is pinned: in a
    well-formed pool of at least one frame in which no frame has a pin,
    [allocBuf] does not return BUFFEREXCEEDED, whatever the reference
    bits. *)
Theorem allocBuf_unpinned_pool s :
  WF s -> 0 < numBufs s ->
  (forall i d, bufTable s !! i = Some d -> pinCnt d = 0) ->
  exists rc fro s', allocBuf s = Some (rc, fro, s') /\ rc <> BUFFEREXCEEDED.
Proof.
  intros Hwf HN Hunpinned.
  destruct (allocBuf_total s Hwf) as [[[rc fro] s'] Halloc].
  exists rc, fro, s'. split; [done|].
  apply allocBuf_inv in Halloc as (s1 & numPins & Hscan & Hev).
  destruct (scan_frame _ _ _ _ _ Hscan) as (HN1 & _).
  pose (P := fun (s0 : St) (n : Z) =>
    n = 0 /\ numBufs s0 = numBufs s /\
    forall i d, bufTable s0 !! i = Some d -> pinCnt d = 0).
  assert (numPins = 0) as ->.
  { destruct (scan_inv P) with (3 := Hscan) as [[_ (? & _)]|(s0 & (? & _) & _)];
      try done.
    intros s0 n s2 n2 (-> & HN0 & Hp0) _ Hr.
    pose proof (scan_step_cases s0 0) as Hc.
    destruct (arr_get (bufTable s0) (next_hand s0)) as [d|] eqn:Hd; [|congruence].
    pose proof Hd as Hd'. apply arr_get_Some in Hd' as [_ Hd'].
    destruct Hc as [(_&H)|[(_&_&H)|[(_&_&_&H)|(_&_&Hpin&H)]]];
      rewrite H in Hr; simplify_eq.
    - split; [done|]. split; [done|]. cbn. intros i di.
      rewrite (arr_set_lookup _ _ _ _ _ Hd).
      destruct (decide (next_hand s0 = Z.of_nat i)); [|by apply Hp0].
      intros [= <-]. cbn. by apply (Hp0 _ _ Hd').
    - by specialize (Hp0 _ _ Hd'). }
  apply evict_cases in Hev as [(Hge & _)|(_ & d & _ & Hc)]; [lia|].
  by destruct Hc as [(_&->&_)|[(_&_&->&_)|[(_&_&_&->&_)|
    (_&_&_&pg&rcw&w&_&_&_&[(_&->&_)|(_&->&_)])]]].
Qed.
(** *** One step of the clock, and what it means for allocBuf *)

(** One iteration of the loop. *)
Lemma scan_unfold fuel s numPins :
  numPins < numBufs s ->
  scan (S fuel) s numPins =
    match scan_step s numPins with
    | None => LoopUndef
    | Some (Break s') => LoopDone s' numPins
    | Some (Continue s' numPins') => scan fuel s' numPins'
    end.
Proof. intros Hlt. cbn. by destruct (Z.leb_spec (numBufs s) numPins); [lia|]. Qed.

(** When the first iteration leaves the loop, [allocBuf] is the code after
    the loop run on the state that iteration leaves. *)
Lemma allocBuf_first_break s s1 :
  0 < numBufs s -> scan_step s 0 = Some (Break s1) -> allocBuf s = evict s1 0.
Proof.
  intros HN Hstep. unfold allocBuf.
  destruct (scan_fuel s 0) as [|n] eqn:Hfuel; [unfold scan_fuel in Hfuel; lia|].
  by rewrite scan_unfold, Hstep.
Qed.

(** When the first iteration clears a reference bit, [allocBuf] goes on as
    if it had been called in the state that iteration leaves. *)
Lemma allocBuf_first_continue s s1 :
  0 < numBufs s -> scan_step s 0 = Some (Continue s1 0) -> allocBuf s = allocBuf s1.
Proof.
  intros HN Hstep. unfold allocBuf.
  pose proof (scan_step_fuel s 0 s1 0 HN Hstep) as Hless.
  destruct (scan_fuel s 0) as [|n] eqn:Hfuel; [lia|].
  rewrite scan_unfold, Hstep by done.
  by rewrite (scan_enough_fuel n s1 0) by lia.
Qed.

(** A descriptor whose reference bit is clear, and which [allocBuf] met
    somewhere in the table, is still there afterwards. *)
Lemma allocBuf_keeps_unreferenced s rc fro s' i d :
  allocBuf s = Some (rc, fro, s') ->
  arr_get (bufTable s) i = Some d -> refbit d = false ->
  arr_get (bufTable s') i = Some d.
Proof.
  intros Halloc Hd Hr.
  destruct (allocBuf_effects _ _ _ _ Halloc) as (_ & _ & Hun & _).
  assert (arr_get (unreferenced (bufTable s')) i = Some (set_refbit false d)) as H.
  { rewrite Hun. unfold unreferenced. by rewrite arr_get_map, Hd. }
  unfold unreferenced in H. rewrite arr_get_map in H.
  destruct (arr_get (bufTable s') i) as [d1|] eqn:Hd1; [|done].
  injection H as H. f_equal.
  destruct (refbit d1) eqn:Hr1.
  - apply allocBuf_inv in Halloc as (s1 & numPins & Hscan & Hev).
    apply arr_get_Some in Hd1 as [Hi Hd1].
    rewrite (evict_table _ _ _ _ _ Hev) in Hd1.
    pose proof (scan_keeps_referenced _ _ _ _ _ Hscan _ _ Hd1 Hr1) as Hsame.
    apply arr_get_Some in Hd as [_ Hd]. congruence.
  - destruct d, d1; cbn in *; by simplify_eq.
Qed.

(** C4: each step of the replacement loop moves the hand on by one modulo
    the number of frames, and then: an invalid frame under the hand is
    taken at once, and [allocBuf] hands it out; a valid frame with its
    reference bit set has the bit cleared and is not taken, the loop going
    on from there, so that the bit is clear when [allocBuf] returns; a
    valid frame with the bit clear and pin count 0 is taken, [allocBuf]
    stopping with the hand on it and handing it out unless the eviction
    fails; a valid frame with the bit clear and a pin count above 0 is
    passed over and counted as a pinned encounter, and [allocBuf] neither
    hands it out nor changes its descriptor.  A frame that [allocBuf] hands
    out never has a pin count above 0. *)
Theorem scan_second_chance s d :
  WF s ->
  arr_get (bufTable s) ((clockHand s + 1) mod numBufs s) = Some d ->
  let hand := (clockHand s + 1) mod numBufs s in
  let moved :=
    mkState (numBufs s) (bufTable s) (bufPool s) (hashTable s) hand (disk s) (io s) in
  let cleared :=
    mkState (numBufs s)
            (<[Z.to_nat hand :=
                 mkBufDesc (file d) (pageNo d) (frameNo d) (pinCnt d) (dirty d)
                           false (valid d)]> (bufTable s))
            (bufPool s) (hashTable s) hand (disk s) (io s) in
  (valid d = false ->
     (forall fuel numPins, numPins < numBufs s ->
        scan (S fuel) s numPins = LoopDone moved numPins) /\
     allocBuf s = Some (OK, Some hand, moved)) /\
  (valid d = true -> refbit d = true ->
     (forall fuel numPins, numPins < numBufs s ->
        scan (S fuel) s numPins = scan fuel cleared numPins) /\
     allocBuf s = allocBuf cleared /\
     (forall rc fro s', allocBuf s = Some (rc, fro, s') ->
        exists d1, arr_get (bufTable s') hand = Some d1 /\ refbit d1 = false)) /\
  (valid d = true -> refbit d = false -> pinCnt d = 0 ->
     (forall fuel numPins, numPins < numBufs s ->
        scan (S fuel) s numPins = LoopDone moved numPins) /\
     exists rc fro s',
       allocBuf s = Some (rc, fro, s') /\ clockHand s' = hand /\
       bufTable s' = bufTable s /\ rc <> BUFFEREXCEEDED /\
       (rc = OK -> fro = Some hand)) /\
  (valid d = true -> refbit d = false -> 0 < pinCnt d ->
     (forall fuel numPins, numPins < numBufs s ->
        scan (S fuel) s numPins = scan fuel moved (numPins + 1)) /\
     (forall rc fro s', allocBuf s = Some (rc, fro, s') ->
        fro <> Some hand /\ arr_get (bufTable s') hand = Some d)) /\
  (forall rc fr s',
     allocBuf s = Some (rc, Some fr, s') ->
     rc = OK /\ fr = clockHand s' /\
     exists d0, arr_get (bufTable s) fr = Some d0 /\ pinCnt d0 = 0).
Proof.
  intros Hwf Hd.
  assert (0 < numBufs s) as HN.
  { apply arr_get_range in Hd. pose proof (wf_table _ Hwf). lia. }
  rewrite <- (next_hand_mod s HN (wf_hand _ Hwf)) in Hd |- *.
  intros hand moved cleared.
  assert (0 <= hand) as Hhand by (apply arr_get_range in Hd; unfold hand; lia).
  assert (with_clockHand (next_hand s) s = moved) as Hmoved by done.
  assert (set_desc (next_hand s) (set_refbit false d) (with_clockHand (next_hand s) s)
          = cleared) as Hcleared.
  { unfold set_desc, with_bufTable, arr_set. cbn. fold hand.
    by destruct (Z.ltb_spec hand 0); [lia|]. }
  assert (forall rc fr s', allocBuf s = Some (rc, Some fr, s') ->
            rc = OK /\ fr = clockHand s' /\
            exists d0, arr_get (bufTable s) fr = Some d0 /\
                       (valid d0 = false \/ pinCnt d0 = 0)) as Hout.
  { intros rc fr s' Halloc.
    destruct (allocBuf_effects _ _ _ _ Halloc) as (_ & _ & _ & _ & _ & Hfro).
    assert (rc = OK) as -> by (apply Hfro; eauto).
    destruct (allocBuf_OK _ _ _ Halloc) as (d0 & Hd0 & Hfr & Hcand).
    pose proof (WF_frameNo _ _ _ Hwf Hd0) as Hidx.
    split; [done|]. split; [congruence|]. exists d0. split; [congruence|done]. }
  pose proof (fun numPins => scan_step_cases s numPins) as Hc.
  rewrite Hd in Hc. setoid_rewrite Hcleared in Hc. setoid_rewrite Hmoved in Hc.
  split; [|split; [|split; [|split]]].
  - intros Hv.
    assert (forall numPins, scan_step s numPins = Some (Break moved)) as Hstep.
    { intros n. destruct (Hc n) as [(_&H)|[(?&_)|[(?&_)|(?&_)]]]; congruence. }
    split.
    + intros fuel numPins Hlt. by rewrite scan_unfold, Hstep.
    + rewrite (allocBuf_first_break s moved HN (Hstep 0)). unfold evict. cbn.
      destruct (Z.leb_spec (numBufs s) 0); [lia|].
      fold hand in Hd. rewrite Hd, Hv.
      by rewrite (WF_frameNo _ _ _ Hwf Hd).
  - intros Hv Hr.
    assert (forall numPins, scan_step s numPins = Some (Continue cleared numPins))
      as Hstep.
    { intros n. destruct (Hc n) as [(?&_)|[(_&_&H)|[(_&?&_)|(_&?&_)]]]; congruence. }
    split; [|split].
    + intros fuel numPins Hlt. by rewrite scan_unfold, Hstep.
    + by apply allocBuf_first_continue.
    + intros rc fro s' Halloc.
      rewrite (allocBuf_first_continue s cleared HN (Hstep 0)) in Halloc.
      exists (set_refbit false d). split; [|done].
      apply (allocBuf_keeps_unreferenced _ _ _ _ _ _ Halloc); [|done].
      apply arr_get_Some. split; [done|]. cbn.
      apply list_lookup_insert_eq.
      apply arr_get_Some in Hd as [_ Hd]. by apply lookup_lt_Some in Hd.
  - intros Hv Hr Hp.
    assert (forall numPins, scan_step s numPins = Some (Break moved)) as Hstep.
    { intros n. destruct (Hc n) as [(?&_)|[(_&?&_)|[(_&_&_&H)|(_&_&?&_)]]];
        congruence. }
    split.
    + intros fuel numPins Hlt. by rewrite scan_unfold, Hstep.
    + rewrite (allocBuf_first_break s moved HN (Hstep 0)).
      assert (WF moved) as Hwfm.
      { apply WF_with_clockHand; [done|]. unfold hand. lia. }
      destruct (evict_defined moved 0 d Hwfm) as [[[rc fro] s'] Hev]; [done|].
      exists rc, fro, s'. split; [done|].
      pose proof (evict_table _ _ _ _ _ Hev) as Ht.
      apply evict_cases in Hev as [(Hge & _)|(_ & d1 & Hd1 & Hcase)]; [cbn in Hge; lia|].
      assert (d1 = d) as ->.
      { change (arr_get (bufTable s) (next_hand s) = Some d1) in Hd1. congruence. }
      pose proof (WF_frameNo _ _ _ Hwf Hd) as Hfr. fold hand in Hfr.
      rewrite Hfr in Hcase.
      destruct Hcase as [(_&->&->&->)|[(_&_&->&->&->)|[(_&_&_&->&->&->)|
        (_&_&_&pg&rcw&w&_&_&->&[(_&->&->)|(_&->&->)])]]]; cbn;
        repeat split; try done.
  - intros Hv Hr Hp.
    assert (forall numPins,
              scan_step s numPins = Some (Continue moved (numPins + 1))) as Hstep.
    { intros n. destruct (Hc n) as [(?&_)|[(_&?&_)|[(_&_&?&_)|(_&_&_&H)]]];
        try congruence. lia. }
    split.
    + intros fuel numPins Hlt. by rewrite scan_unfold, Hstep.
    + intros rc fro s' Halloc. split.
      * intros ->. destruct (Hout _ _ _ Halloc) as (_ & _ & d0 & Hd0 & Hfree).
        fold hand in Hd. rewrite Hd in Hd0. injection Hd0 as <-.
        destruct Hfree; [congruence|lia].
      * by apply (allocBuf_keeps_unreferenced _ _ _ _ _ _ Halloc).
  - intros rc fr s' Halloc.
    destruct (Hout _ _ _ Halloc) as (-> & -> & d0 & Hd0 & Hfree).
    split; [done|]. split; [done|]. exists d0. split; [done|].
    destruct Hfree as [Hv|Hp]; [|done].
    apply arr_get_Some in Hd0 as [_ Hd0]. by apply (wf_invalid _ Hwf _ _ Hd0).
Qed.

(** *** allocPage and disposePage *)

(** What a successful [allocPage] leaves, in any state: the new page in
    the index, and its frame initialised by [BufDesc::Set]. *)
Lemma allocPage_OK_shape f pageNo0 s pn fro s' :
  allocPage f pageNo0 s = Some (OK, pn, fro, s') ->
  exists fr d1 s1,
    fro = Some fr /\
    allocBuf (with_disk (file_allocatePage f pageNo0 (disk s)).2 (IoAllocate f) s)
      = Some (OK, Some fr, s1) /\
    pn = (file_allocatePage f pageNo0 (disk s)).1.2 /\
    (on_duplicate = RejectDuplicate -> hashTable s1 !! (f, pn) = None) /\
    arr_get (bufTable s1) fr = Some d1 /\
    s' = set_desc fr (BufDesc_Set f pn d1)
           (with_hashTable (<[(f, pn) := fr]> (hashTable s1)) s1).
Proof.
  unfold allocPage, do_allocatePage.
  destruct (file_allocatePage f pageNo0 (disk s)) as [[rca pn0] w]. cbn.
  destruct (allocBuf _) as [[[rcb frb] s1]|] eqn:Halloc; [|done].
  destruct (status_ne rcb OK) eqn:Hrc; [intros; simplify_eq; by destruct rcb|].
  apply status_ne_false in Hrc as ->.
  destruct frb as [fr|]; [|done]. unfold BufHashTbl_insert.
  destruct (hashTable s1 !! (f, pn0)) eqn:Hht, on_duplicate eqn:Hdup; cbn;
    try done;
    (destruct (arr_get (bufTable s1) fr) as [d1|] eqn:Hd1; [|done]);
    intros; simplify_eq; exists fr, d1, s1; done.
Qed.



(** [unPinPage] on a page that is in the index. *)
Lemma unPinPage_cached f p b s fr d :
  hashTable s !! (f, p) = Some fr -> arr_get (bufTable s) fr = Some d ->
  unPinPage f p b s =
    Some (if pinCnt d =? 0 then (PAGENOTPINNED, s)
          else (OK, set_desc fr (mkBufDesc (file d) (pageNo d) (frameNo d)
                                           (pinCnt d - 1) (dirty d || b)
                                           (refbit d) (valid d)) s)).
Proof.
  intros Hht Hd. unfold unPinPage, BufHashTbl_lookup. rewrite Hht. cbn.
  rewrite Hd. destruct (pinCnt d =? 0); [done|].
  do 3 f_equal. destruct b; [by rewrite orb_true_r | by rewrite orb_false_r].
Qed.

(** X6: a page that [allocPage] has just handed out can be unpinned once:
    [unPinPage] on it returns OK and leaves the frame with pin count 0 and
    the dirty bit as given, and a second [unPinPage] returns PAGENOTPINNED
    and changes nothing.  This holds in every state. *)
Theorem allocPage_then_unPinPage f pageNo0 s pn fro s' (b b' : bool) :
  allocPage f pageNo0 s = Some (OK, pn, fro, s') ->
  exists fr d s'',
    fro = Some fr /\
    unPinPage f pn b s' = Some (OK, s'') /\
    arr_get (bufTable s'') fr = Some d /\
    pinCnt d = 0 /\ dirty d = b /\ valid d = true /\ file d = f /\ pageNo d = pn /\
    unPinPage f pn b' s'' = Some (PAGENOTPINNED, s'').
Proof.
  intros Hall.
  apply allocPage_OK_shape in Hall as (fr & d1 & s1 & -> & _ & _ & _ & Hd1 & ->).
  set (s' := set_desc fr _ _).
  assert (hashTable s' !! (f, pn) = Some fr) as Hht by apply lookup_insert_eq.
  assert (arr_get (bufTable s') fr = Some (BufDesc_Set f pn d1)) as Hd'.
  { cbn. by eapply arr_get_set_eq. }
  set (d := mkBufDesc f pn (frameNo d1) 0 b true true).
  exists fr, d, (set_desc fr d s'). split; [done|].
  split; [by rewrite (unPinPage_cached _ _ _ _ _ _ Hht Hd')|].
  assert (arr_get (bufTable (set_desc fr d s')) fr = Some d) as Hd''.
  { cbn -[s']. by eapply arr_get_set_eq. }
  split; [done|]. do 5 (split; [done|]).
  by rewrite (unPinPage_cached _ _ b' (set_desc fr d s') fr d Hht Hd'').
Qed.

(** X7: [disposePage] checks neither the pin count nor the dirty bit.
    Whatever state the page is in, afterwards it is not in the index, the
    one call made on a File is [disposePage] of that page (nothing is
    written back), and the status returned is the one the File gave.  If
    the page was cached, its frame is reset to invalid with pin count 0;
    every other frame and every other index entry is as it was. *)
Theorem disposePage_spec f p s rc s' :
  disposePage f p s = Some (rc, s') ->
  hashTable s' !! (f, p) = None /\
  (forall k, k <> (f, p) -> hashTable s' !! k = hashTable s !! k) /\
  io s' = io s ++ [IoDispose f p] /\
  (rc, disk s') = file_disposePage f p (disk s) /\
  bufPool s' = bufPool s /\ clockHand s' = clockHand s /\
  (forall fr, hashTable s !! (f, p) = Some fr ->
     exists d, arr_get (bufTable s) fr = Some d /\
               arr_get (bufTable s') fr =
                 Some (mkBufDesc NULL (-1) (frameNo d) 0 false false false)) /\
  (forall j, hashTable s !! (f, p) <> Some j ->
             arr_get (bufTable s') j = arr_get (bufTable s) j).
Proof.
  unfold disposePage, BufHashTbl_lookup, BufHashTbl_remove, do_disposePage.
  destruct (hashTable s !! (f, p)) as [fr|] eqn:Hht; cbn.
  - destruct (arr_get (bufTable s) fr) as [d|] eqn:Hd; [|done]. cbn.
    rewrite Hht. cbn.
    destruct (file_disposePage f p (disk s)) as [rcd w]. intros; simplify_eq. cbn.
    split; [apply lookup_delete_eq|].
    split; [intros k Hk; by apply lookup_delete_ne|].
    do 4 (split; [done|]). split.
    + intros ? [= <-]. exists d. split; [done|]. by eapply arr_get_set_eq.
    + intros j Hj. apply arr_get_set_ne. congruence.
  - rewrite Hht. cbn.
    destruct (file_disposePage f p (disk s)) as [rcd w]. intros; simplify_eq. cbn.
    do 2 (split; [done|]). do 4 (split; [done|]). split; [done|done].
Qed.


(** X8: when [allocPage] fails, with whatever status, it hands out no
    frame, and by then it has allocated the page in the file: the
    allocation is the first call it makes, the only other call it can have
    made is one write-back, and it never gives the page back (there is no
    call of [disposePage]).  No descriptor is changed beyond cleared
    reference bits, the frame pool is as it was, and the index has gained
    nothing (it may have lost the victim's entry). *)
Theorem allocPage_failure f pageNo0 s rc pn fro s' :
  allocPage f pageNo0 s = Some (rc, pn, fro, s') -> rc <> OK ->
  fro = None /\ pn = (file_allocatePage f pageNo0 (disk s)).1.2 /\
  (io s' = io s ++ [IoAllocate f] \/
   exists f' p pg, io s' = io s ++ [IoAllocate f; IoWrite f' p pg]) /\
  bufPool s' = bufPool s /\
  unreferenced (bufTable s') = unreferenced (bufTable s) /\
  (forall k fr, hashTable s' !! k = Some fr -> hashTable s !! k = Some fr).
Proof.
  unfold allocPage, do_allocatePage.
  destruct (file_allocatePage f pageNo0 (disk s)) as [[rca pn0] w]. cbn [fst snd].
  set (s0 := with_disk w (IoAllocate f) s).
  destruct (allocBuf s0) as [[[rcb frb] s1]|] eqn:Halloc; [|done].
  destruct (allocBuf_effects _ _ _ _ Halloc)
    as (_ & Hpool & Hun & Hht & Hio & _).
  assert (io s1 = io s ++ [IoAllocate f] \/
          exists f' p pg, io s1 = io s ++ [IoAllocate f; IoWrite f' p pg]) as Hio'.
  { destruct Hio as [[-> _]|(f' & p & pg & ->)]; [by left|right].
    exists f', p, pg. cbn. by rewrite <- app_assoc. }
  assert (forall k fr, hashTable s1 !! k = Some fr -> hashTable s !! k = Some fr)
    as Hht'.
  { destruct Hht as [->|(k' & _ & ->)]; [done|].
    by intros k fr [_ ?]%lookup_delete_Some. }
  destruct (status_ne rcb OK) eqn:Hrc.
  { intros [= <- <- <- <-] _. done. }
  destruct frb as [fr|]; [|done]. unfold BufHashTbl_insert.
  destruct (hashTable s1 !! (f, pn0)) as [fr'|] eqn:Hfp;
    [destruct on_duplicate|]; cbn.
  - intros [= <- <- <- <-] _. done.
  - destruct (arr_get (bufTable s1) fr); [|done]. intros [= <- _ _ _] Hne. done.
  - destruct (arr_get (bufTable s1) fr); [|done]. intros [= <- _ _ _] Hne. done.
Qed.

(** *** Write-backs: the destructor and a successful flushFile *)

Lemma writes_of_drop (sel : BufDesc -> bool) (t : list BufDesc) (pl : list Page)
    (i : nat) d pg :
  t !! i = Some d -> pl !! i = Some pg ->
  writes_of sel (drop i t) (drop i pl) =
    (if sel d then [IoWrite (file d) (pageNo d) pg] else []) ++
    writes_of sel (drop (S i) t) (drop (S i) pl).
Proof.
  intros Hd Hpg. by rewrite (drop_S _ _ _ Hd), (drop_S _ _ _ Hpg).
Qed.

Lemma writes_of_drop_end (sel : BufDesc -> bool) (t : list BufDesc) (pl : list Page)
    (i : nat) :
  (length t <= i)%nat -> writes_of sel (drop i t) (drop i pl) = [].
Proof. intros H. by rewrite (drop_ge t) by done. Qed.

(** The loop of the destructor writes each valid, dirty frame from [i] on,
    in order, and changes nothing of the buffer manager. *)
Lemma destroy_loop_writes n : forall (i : nat) s,
  (i + n)%nat = length (bufTable s) -> length (bufPool s) = length (bufTable s) ->
  exists s',
    destroy_loop n (Z.of_nat i) s = Some s' /\
    io s' = io s ++ writes_of (fun d => valid d && dirty d)
                              (drop i (bufTable s)) (drop i (bufPool s)) /\
    bufTable s' = bufTable s /\ bufPool s' = bufPool s.
Proof.
  induction n as [|n IH]; intros i s Hlen Hpool; cbn -[Z.of_nat].
  { exists s. rewrite writes_of_drop_end by lia. by rewrite app_nil_r. }
  destruct (lookup_lt_is_Some_2 (bufTable s) i) as [d Hd]; [lia|].
  destruct (lookup_lt_is_Some_2 (bufPool s) i) as [pg Hpg]; [lia|].
  rewrite !arr_get_nat, Hd, Hpg, (writes_of_drop _ _ _ _ _ _ Hd Hpg).
  replace (Z.of_nat i + 1) with (Z.of_nat (S i)) by lia.
  destruct (valid d && dirty d).
  - unfold do_writePage.
    destruct (file_writePage (file d) (pageNo d) pg (disk s)) as [rcw w].
    destruct (IH (S i) (with_disk w (IoWrite (file d) (pageNo d) pg) s))
      as (s' & Hloop & Hio & Ht & Hp); [cbn; lia|done|].
    exists s'. split; [done|]. cbn in Hio. rewrite Hio, <- app_assoc. done.
  - destruct (IH (S i) s) as (s' & Hloop & Hio & Ht & Hp); [lia|done|].
    exists s'. done.
Qed.

(** X9: the destructor writes every frame that is valid and dirty to its
    file, once, in frame order and with the contents of the frame; it makes
    no other call on a File, writes no frame that is clean or invalid, and
    goes on to the remaining frames when a write fails (the status of a
    write is not looked at). *)
Theorem BufMgr_destroy_writes s :
  WF s ->
  exists w,
    BufMgr_destroy s =
      Some (w, io s ++ writes_of (fun d => valid d && dirty d)
                                 (bufTable s) (bufPool s)).
Proof.
  intros Hwf. unfold BufMgr_destroy.
  destruct (destroy_loop_writes (Z.to_nat (numBufs s)) 0 s)
    as (s' & Hloop & Hio & _).
  { pose proof (wf_table _ Hwf). lia. }
  { apply (wf_pool _ Hwf). }
  change (Z.of_nat 0) with 0 in Hloop. rewrite Hloop. cbn.
  exists (disk s'). by rewrite Hio.
Qed.

(** An iteration of [flushFile] that goes on to the next frame. *)
Lemma flush_frame_goes_on f (i : nat) s s1 d :
  flush_frame f (Z.of_nat i) s = Some (None, s1) ->
  bufTable s !! i = Some d ->
  bufTable s1 !! i = Some (flush_desc f d) /\
  (holds f d = true -> pinCnt d <= 0) /\
  (forall pg, bufPool s !! i = Some pg ->
     io s1 = io s ++ (if holds f d && dirty d
                      then [IoWrite (file d) (pageNo d) pg] else [])) /\
  (forall f' p, f' <> f -> hashTable s1 !! (f', p) = hashTable s !! (f', p)).
Proof.
  intros Hfr Hd. pose proof Hd as Hd'. rewrite <- arr_get_nat in Hd'.
  assert (forall ht p f' p', f' <> f ->
            (BufHashTbl_remove ht f p).2 !! (f', p') = ht !! (f', p')) as Hrem.
  { intros ht p f' p' Hne. unfold BufHashTbl_remove.
    destruct (ht !! (f, p)); [|done]. cbn. apply lookup_delete_ne. congruence. }
  unfold flush_desc, holds.
  destruct (flush_frame_cases f _ s d Hd')
    as [(_&_&H)|[(Hv&Hf&Hp&Hdirty&H)|[(Hv&Hf&Hp&Hdirty&H)|[(_&_&H)|(Hf&H)]]]].
  - congruence.
  - rewrite H in Hfr. simplify_eq.
    rewrite Hv, Hdirty, bool_decide_eq_true_2 by done. cbn.
    split; [|split; [done|split]].
    + rewrite <- arr_get_nat. erewrite arr_get_set_eq by done.
      by rewrite <- Hdirty.
    + intros. by rewrite app_nil_r.
    + intros. by apply Hrem.
  - destruct (arr_get (bufPool s) (Z.of_nat i)) as [pg|] eqn:Hpg; [|congruence].
    destruct H as (rcw & w & _ & [(_&H)|(_&H)]); rewrite H in Hfr; simplify_eq.
    rewrite Hv, Hdirty, bool_decide_eq_true_2 by done. cbn.
    split; [|split; [done|split]].
    + rewrite <- arr_get_nat. erewrite arr_get_set_eq; [done|].
      by eapply arr_get_set_eq.
    + intros pg' Hpg'. rewrite arr_get_nat in Hpg. congruence.
    + intros. by apply Hrem.
  - congruence.
  - rewrite H in Hfr. simplify_eq.
    rewrite bool_decide_eq_false_2, andb_false_r by done. cbn.
    split; [done|]. split; [done|]. split; [|done].
    intros. by rewrite app_nil_r.
Qed.

(** A loop of [flushFile] that ran to its end. *)
Lemma flush_loop_OK f n : forall (i : nat) s s',
  flush_loop n f (Z.of_nat i) s = Some (OK, s') ->
  (i + n)%nat = length (bufTable s) -> length (bufPool s) = length (bufTable s) ->
  (forall j, bufTable s' !! j =
             if decide (i <= j)%nat then flush_desc f <$> bufTable s !! j
             else bufTable s !! j) /\
  io s' = io s ++ writes_of (fun d => holds f d && dirty d)
                            (drop i (bufTable s)) (drop i (bufPool s)) /\
  (forall j d, (i <= j)%nat -> bufTable s !! j = Some d -> holds f d = true ->
               pinCnt d <= 0) /\
  (forall f' p, f' <> f -> hashTable s' !! (f', p) = hashTable s !! (f', p)).
Proof.
  induction n as [|n IH]; intros i s s' Hloop Hlen Hpool; cbn -[Z.of_nat] in Hloop.
  { simplify_eq. split; [|split; [|split]]; try done.
    - intros j. destruct (decide (i <= j)%nat); [|done].
      rewrite (lookup_ge_None_2 (bufTable s') j); [done|lia].
    - rewrite writes_of_drop_end by lia. by rewrite app_nil_r.
    - intros j d Hj Hd. apply lookup_lt_Some in Hd. lia. }
  destruct (flush_frame f (Z.of_nat i) s) as [[[rc1|] s1]|] eqn:Hfr; [| |done].
  { simplify_eq. by apply flush_frame_return in Hfr. }
  destruct (lookup_lt_is_Some_2 (bufTable s) i) as [d Hd]; [lia|].
  destruct (lookup_lt_is_Some_2 (bufPool s) i) as [pg Hpg]; [lia|].
  destruct (flush_frame_goes_on _ _ _ _ _ Hfr Hd) as (Hi & Hpin & Hio & Hht).
  destruct (flush_frame_frame _ _ _ _ _ Hfr) as (_ & Hpool1 & _ & Hother).
  assert (forall j, j <> i -> bufTable s1 !! j = bufTable s !! j) as Hother'.
  { intros j Hj. rewrite <- !arr_get_nat. apply Hother. lia. }
  assert (length (bufTable s1) = length (bufTable s)) as Hlen1.
  { apply Nat.le_antisymm; apply Nat.le_ngt; intros Hlt.
    - pose proof (lookup_lt_is_Some_2 (bufTable s1) (length (bufTable s)) Hlt)
        as [x Hx].
      rewrite Hother', lookup_ge_None_2 in Hx by lia. done.
    - pose proof (lookup_lt_is_Some_2 (bufTable s) (length (bufTable s1)) Hlt)
        as [x Hx].
      destruct (decide (length (bufTable s1) = i)) as [Heq|Hne].
      + apply lookup_lt_Some in Hi. lia.
      + rewrite <- Hother', lookup_ge_None_2 in Hx by lia. done. }
  replace (Z.of_nat i + 1) with (Z.of_nat (S i)) in Hloop by lia.
  destruct (IH (S i) s1 s' Hloop) as (Ht' & Hio' & Hpin' & Hht');
    [lia|congruence|].
  assert (drop (S i) (bufTable s1) = drop (S i) (bufTable s)) as Hdrop.
  { apply list_eq. intros j. rewrite !lookup_drop. apply Hother'. lia. }
  split; [|split; [|split]].
  - intros j. rewrite Ht'.
    destruct (decide (S i <= j)%nat), (decide (i <= j)%nat); try lia.
    + rewrite Hother' by lia. done.
    + assert (j = i) as -> by lia. by rewrite Hi, Hd.
    + apply Hother'. lia.
  - rewrite Hio', (Hio _ Hpg), Hdrop, Hpool1, <- app_assoc.
    by rewrite (writes_of_drop _ _ _ _ _ _ Hd Hpg).
  - intros j dj Hj Hdj Hholds. destruct (decide (j = i)) as [->|Hne].
    + simplify_eq. by apply Hpin.
    + apply (Hpin' j dj); [lia| |done]. by rewrite Hother'.
  - intros f' p Hne. rewrite Hht' by done. by apply Hht.
Qed.

(** X10: when [flushFile f] returns OK in a pool that satisfies the
    invariant, no page of [f] was pinned; every dirty page of [f] has been
    written to the file once, in frame order and with the contents of its
    frame, and no other call was made on a File; every frame that held a
    page of [f] is invalid, with dirty bit clear and no file or page
    number, and the index has no entry for [f] left; frames and index
    entries of other files are as they were. *)
Theorem flushFile_OK f s s' :
  Inv s -> flushFile f s = Some (OK, s') ->
  bufTable s' = map (flush_desc f) (bufTable s) /\
  io s' = io s ++ writes_of (fun d => holds f d && dirty d)
                            (bufTable s) (bufPool s) /\
  (forall i d, bufTable s !! i = Some d -> holds f d = true -> pinCnt d = 0) /\
  (forall p, hashTable s' !! (f, p) = None) /\
  (forall f' p, f' <> f -> hashTable s' !! (f', p) = hashTable s !! (f', p)) /\
  bufPool s' = bufPool s /\ clockHand s' = clockHand s /\ Inv s'.
Proof.
  intros Hinv Hflush. pose proof (flushFile_Inv _ _ _ _ Hinv Hflush) as Hinv'.
  unfold flushFile in Hflush.
  destruct (flush_loop_frame _ _ _ _ _ _ Hflush) as (_ & Hpool & Hhand & _).
  pose proof (wf_table _ (proj1 Hinv)) as Hlen.
  change 0 with (Z.of_nat 0) in Hflush.
  destruct (flush_loop_OK _ _ _ _ _ Hflush) as (Ht & Hio & Hpin & Hht);
    [lia|apply (wf_pool _ (proj1 Hinv))|].
  assert (bufTable s' = map (flush_desc f) (bufTable s)) as Htable.
  { apply list_eq. intros j. rewrite Ht, (list_lookup_fmap (flush_desc f)).
    destruct (decide (0 <= j)%nat); [done|lia]. }
  split; [done|]. split; [done|]. split.
  { intros i d Hd Hholds. pose proof (Hpin i d ltac:(lia) Hd Hholds).
    pose proof (wf_pin _ (proj1 Hinv) _ _ Hd). lia. }
  split; [|done].
  intros p. destruct (hashTable s' !! (f, p)) as [fr|] eqn:Hfp; [|done].
  exfalso. destruct (linked_entry _ (proj2 Hinv') _ _ _ Hfp) as (d' & Hd' & Hv & Hf & _).
  apply arr_get_Some in Hd' as [_ Hd'].
  rewrite Htable, (list_lookup_fmap (flush_desc f)) in Hd'.
  destruct (bufTable s !! Z.to_nat fr) as [d|]; [|done]. cbn in Hd'.
  injection Hd' as <-. unfold flush_desc, holds in Hv, Hf.
  destruct (valid d) eqn:Hvd; cbn in Hv, Hf; [|congruence].
  destruct (decide (file d = f)) as [Heq|Hne].
  - rewrite bool_decide_eq_true_2 in Hv by done. done.
  - rewrite bool_decide_eq_false_2 in Hf by done. done.
Qed.

(** An iteration of [flushFile] goes on to the next frame when the frame
    holds no pinned page of the file and storage takes the write. *)
Lemma flush_frame_succeeds (Wok : World -> Prop) f i s d :
  WF s -> f <> NULL ->
  (forall f' p pg w, Wok w ->
     (file_writePage f' p pg w).1 = OK /\ Wok (file_writePage f' p pg w).2) ->
  Wok (disk s) ->
  arr_get (bufTable s) i = Some d -> (holds f d = true -> pinCnt d = 0) ->
  exists s1, flush_frame f i s = Some (None, s1) /\ Wok (disk s1).
Proof.
  intros Hwf Hf Hw Hok Hd Hunpinned.
  destruct (flush_frame_cases f i s d Hd)
    as [([Hv Hp]&Hfd&_)|[(_&_&_&_&H)|[(_&_&_&_&H)|[(Hv&Hfd&_)|(_&H)]]]].
  - unfold holds in Hunpinned.
    rewrite Hv, bool_decide_eq_true_2 in Hunpinned by done.
    specialize (Hunpinned eq_refl). lia.
  - eauto.
  - destruct (WF_arr_get _ _ _ Hwf Hd) as (_ & pg & Hpg). rewrite Hpg in H.
    destruct H as (rcw & w & Hrcw & [(Hne&_)|(_&H)]).
    + destruct (Hw f (pageNo d) pg (disk s) Hok) as [Hrc _].
      by rewrite Hrcw in Hrc.
    + eexists. split; [done|]. cbn.
      destruct (Hw f (pageNo d) pg (disk s) Hok) as [_ Hok'].
      by rewrite Hrcw in Hok'.
  - apply arr_get_Some in Hd as [_ Hd].
    destruct (wf_invalid _ Hwf _ _ Hd Hv). congruence.
  - eauto.
Qed.

Lemma flush_loop_succeeds (Wok : World -> Prop) f n : forall i s,
  Inv s -> f <> NULL ->
  (forall f' p pg w, Wok w ->
     (file_writePage f' p pg w).1 = OK /\ Wok (file_writePage f' p pg w).2) ->
  Wok (disk s) -> 0 <= i -> i + Z.of_nat n <= numBufs s ->
  (forall j d, i <= j -> arr_get (bufTable s) j = Some d ->
               holds f d = true -> pinCnt d = 0) ->
  exists s', flush_loop n f i s = Some (OK, s').
Proof.
  induction n as [|n IH]; intros i s Hinv Hf Hw Hok Hi Hn Hunpinned;
    cbn -[Z.of_nat]; [eauto|].
  destruct (arr_get_in_range (bufTable s) i) as [d Hd].
  { rewrite (wf_table _ (proj1 Hinv)). lia. }
  destruct (flush_frame_succeeds Wok f i s d (proj1 Hinv) Hf Hw Hok Hd)
    as (s1 & Hfr & Hok1); [apply (Hunpinned i); [lia|done]|].
  rewrite Hfr.
  destruct (flush_frame_frame _ _ _ _ _ Hfr) as (HN & _ & _ & Hother).
  apply IH; try done; [by eapply flush_frame_Inv|lia|lia|].
  intros j dj Hj Hdj. rewrite Hother in Hdj by lia. apply (Hunpinned j); [lia|done].
Qed.

(** X11: in a pool that satisfies the invariant, [flushFile f] for a file
    other than the null pointer returns OK whenever no cached page of [f]
    is pinned and storage takes the writes ([Wok] is a condition on
    storage under which a write succeeds and which a write keeps); with no
    page of [f] cached at all, this is the case of a file the pool knows
    nothing about. *)
Theorem flushFile_succeeds (Wok : World -> Prop) f s :
  Inv s -> f <> NULL ->
  (forall f' p pg w, Wok w ->
     (file_writePage f' p pg w).1 = OK /\ Wok (file_writePage f' p pg w).2) ->
  Wok (disk s) ->
  (forall i d, bufTable s !! i = Some d -> holds f d = true -> pinCnt d = 0) ->
  exists s', flushFile f s = Some (OK, s').
Proof.
  intros Hinv Hf Hw Hok Hunpinned. unfold flushFile.
  apply (flush_loop_succeeds Wok); try done.
  - pose proof (wf_table _ (proj1 Hinv)). lia.
  - intros j d _ Hd. apply arr_get_Some in Hd as [_ Hd]. by eapply Hunpinned.
Qed.

(** *** What every call keeps, whatever its outcome *)

Lemma Sound_with_disk s w e : Sound s -> Sound (with_disk w e s).
Proof. intros [Hwf Hd He]. split; [by apply WF_with_disk|done|done]. Qed.

Lemma Sound_with_hashTable s ht :
  Sound s ->
  (forall k fr, ht !! k = Some fr -> 0 <= fr < numBufs s) ->
  Sound (with_hashTable ht s).
Proof. intros [Hwf Hd He] Hht. split; [by apply WF_with_hashTable|done|done]. Qed.

Lemma Sound_remove s f p :
  Sound s -> Sound (with_hashTable (BufHashTbl_remove (hashTable s) f p).2 s).
Proof.
  intros Hs. apply Sound_with_hashTable; [done|]. intros k fr.
  unfold BufHashTbl_remove. destruct (hashTable s !! (f, p)); cbn.
  - intros [_ Hk]%lookup_delete_Some. by eapply sound_entry.
  - by eapply sound_entry.
Qed.

Lemma Sound_unindexed s d : Sound s -> Sound (unindexed d s).
Proof.
  intros Hs. apply Sound_with_hashTable; [done|].
  intros k fr [_ Hk]%lookup_delete_Some. by eapply sound_entry.
Qed.

Lemma Sound_set_desc s i d d' :
  Sound s -> arr_get (bufTable s) i = Some d ->
  frameNo d' = frameNo d -> 0 <= pinCnt d' ->
  (valid d' = false -> pinCnt d' = 0 /\ file d' = NULL /\ dirty d' = false) ->
  Sound (set_desc i d' s).
Proof.
  intros [Hwf Hdirty He] Hd Hfr Hpin Hinv. split.
  - eapply WF_set_desc; try done. intros Hv. by destruct (Hinv Hv) as (?&?&_).
  - cbn. intros j dj Hj Hv. rewrite (arr_set_lookup _ _ _ _ _ Hd) in Hj.
    destruct (decide (i = Z.of_nat j)) as [->|Hne]; simplify_eq; [|eauto].
    by destruct (Hinv Hv) as (_&_&?).
  - done.
Qed.

Lemma Sound_arr_get s fr k :
  Sound s -> hashTable s !! k = Some fr -> exists d, arr_get (bufTable s) fr = Some d.
Proof.
  intros Hs Hk. apply arr_get_in_range.
  rewrite (wf_table _ (sound_wf _ Hs)). by eapply sound_entry.
Qed.

Lemma BufMgr_new_Sound bufs w : 0 <= bufs -> Sound (BufMgr_new bufs w).
Proof.
  intros Hb. split.
  - apply (BufMgr_new_Inv bufs w Hb).
  - cbn. intros i d Hd _.
    change (((fun i => BufDesc_init (Z.of_nat i)) <$> seq 0 (Z.to_nat bufs)) !! i
            = Some d) in Hd.
    rewrite list_lookup_fmap in Hd.
    destruct (seq 0 (Z.to_nat bufs) !! i); cbn in Hd; [|done].
    by injection Hd as <-.
  - cbn. intros k fr Hk. by rewrite lookup_empty in Hk.
Qed.

Lemma scan_Sound fuel s numPins s' numPins' :
  Sound s -> 0 <= numPins -> scan fuel s numPins = LoopDone s' numPins' -> Sound s'.
Proof.
  intros Hs Hn Hscan.
  destruct (scan_frame _ _ _ _ _ Hscan) as (HN & _ & Hht & _ & _ & _ & Hunref).
  split.
  - eapply scan_WF; [apply (sound_wf _ Hs)|exact Hn|exact Hscan].
  - intros i d Hd Hv. rewrite <- arr_get_nat in Hd.
    destruct (unreferenced_get _ _ _ _ Hunref Hd) as (d0 & Hd0 & Heq).
    rewrite arr_get_nat in Hd0.
    destruct d0, d; cbn in *; simplify_eq.
    by apply (sound_dirty _ Hs _ _ Hd0).
  - intros k fr. rewrite Hht, HN. apply (sound_entry _ Hs).
Qed.

(** [allocBuf] keeps the pool sound on every path, and a frame it hands
    out is a frame of the pool. *)
Lemma allocBuf_Sound s rc fro s' :
  Sound s -> allocBuf s = Some (rc, fro, s') ->
  Sound s' /\
  (rc = OK -> exists fr d, fro = Some fr /\ arr_get (bufTable s') fr = Some d).
Proof.
  intros Hs Halloc.
  destruct (allocBuf_inv _ _ Halloc) as (s1 & numPins & Hscan & Hev).
  assert (Sound s1) as Hs1 by (eapply scan_Sound; [done| |exact Hscan]; lia).
  destruct (evict_cases _ _ _ _ _ Hev)
    as [(_&->&->&->)|(_&d&Hd&[(_&->&->&->)|[(_&_&->&->&->)|[(_&_&_&->&->&->)|
        (_&_&_&pg&rcw&w&_&_&->&[(_&->&->)|(_&->&->)])]]])].
  - done.
  - split; [done|]. intros _. exists (frameNo d), d. split; [done|].
    by rewrite (WF_frameNo _ _ _ (sound_wf _ Hs1) Hd).
  - done.
  - split; [by apply Sound_unindexed|]. intros _. exists (frameNo d), d.
    split; [done|]. cbn. by rewrite (WF_frameNo _ _ _ (sound_wf _ Hs1) Hd).
  - split; [by apply Sound_with_disk, Sound_unindexed|]. intros _.
    exists (frameNo d), d. split; [done|]. cbn.
    by rewrite (WF_frameNo _ _ _ (sound_wf _ Hs1) Hd).
  - split; [|done]. by apply Sound_with_disk, Sound_unindexed.
Qed.

Lemma allocPage_Sound f pageNo0 s :
  Sound s ->
  exists rc pn fro s', allocPage f pageNo0 s = Some (rc, pn, fro, s') /\ Sound s'.
Proof.
  intros Hs. unfold allocPage, do_allocatePage.
  destruct (file_allocatePage f pageNo0 (disk s)) as [[rca pn] w].
  pose proof (Sound_with_disk s w (IoAllocate f) Hs) as Hs0.
  destruct (allocBuf_total _ (sound_wf _ Hs0)) as [[[rc fro] s1] Halloc].
  rewrite Halloc.
  destruct (allocBuf_Sound _ _ _ _ Hs0 Halloc) as [Hs1 Hfr].
  destruct (status_ne rc OK) eqn:Hrc; [eauto 10|].
  apply status_ne_false in Hrc.
  destruct (Hfr Hrc) as (fr & d & -> & Hd).
  assert (0 <= fr < numBufs s1) as Hrange.
  { apply arr_get_range in Hd. by rewrite (wf_table _ (sound_wf _ Hs1)) in Hd. }
  assert (Sound (set_desc fr (BufDesc_Set f pn d)
                   (with_hashTable (<[(f, pn) := fr]> (hashTable s1)) s1)))
    as Hs2.
  { eapply (Sound_set_desc _ fr d); cbn; try done.
    apply Sound_with_hashTable; [done|]. intros k fr'.
    intros [[_ <-]|[_ Hk]]%lookup_insert_Some; [done|].
    by eapply sound_entry. }
  unfold BufHashTbl_insert.
  destruct (hashTable s1 !! (f, pn)) as [fr'|] eqn:Hfp;
    [destruct on_duplicate|]; cbn.
  - do 4 eexists. split; [done|]. destruct s1. exact Hs1.
  - rewrite Hd. do 4 eexists. split; [done|exact Hs2].
  - rewrite Hd. do 4 eexists. split; [done|exact Hs2].
Qed.

Lemma unPinPage_Sound f p b s :
  Sound s -> exists rc s', unPinPage f p b s = Some (rc, s') /\ Sound s'.
Proof.
  intros Hs. unfold unPinPage, BufHashTbl_lookup.
  destruct (hashTable s !! (f, p)) as [fr|] eqn:Hfp; cbn; [|eauto].
  destruct (Sound_arr_get _ _ _ Hs Hfp) as [d Hd]. rewrite Hd.
  destruct (Z.eqb_spec (pinCnt d) 0) as [Heq|Hne]; [eauto|].
  do 2 eexists. split; [done|].
  pose proof Hd as Hd'. apply arr_get_Some in Hd' as [_ Hd'].
  pose proof (wf_pin _ (sound_wf _ Hs) _ _ Hd') as Hpin.
  assert (valid d = true) as Hv.
  { destruct (valid d) eqn:Hv; [done|].
    by destruct (wf_invalid _ (sound_wf _ Hs) _ _ Hd' Hv). }
  eapply (Sound_set_desc _ fr d); [done|done|..];
    destruct b, d; cbn in *; try done; try (intros; congruence); lia.
Qed.

Lemma disposePage_Sound f p s :
  Sound s -> exists rc s', disposePage f p s = Some (rc, s') /\ Sound s'.
Proof.
  intros Hs. unfold disposePage, BufHashTbl_lookup.
  destruct (hashTable s !! (f, p)) as [fr|] eqn:Hfp; cbn.
  - destruct (Sound_arr_get _ _ _ Hs Hfp) as [d Hd]. rewrite Hd.
    set (s1 := set_desc fr (BufDesc_Clear d) s).
    assert (Sound s1) as Hs1 by (by eapply (Sound_set_desc _ fr d)).
    destruct (BufHashTbl_remove (hashTable s1) f p) as [rcr ht] eqn:Hrem.
    unfold do_disposePage.
    destruct (file_disposePage f p (disk (with_hashTable ht s1))) as [rc w].
    do 2 eexists. split; [done|]. apply Sound_with_disk.
    replace ht with (BufHashTbl_remove (hashTable s1) f p).2 by by rewrite Hrem.
    by apply Sound_remove.
  - destruct (BufHashTbl_remove (hashTable s) f p) as [rcr ht] eqn:Hrem.
    unfold do_disposePage.
    destruct (file_disposePage f p (disk (with_hashTable ht s))) as [rc w].
    do 2 eexists. split; [done|]. apply Sound_with_disk.
    replace ht with (BufHashTbl_remove (hashTable s) f p).2 by by rewrite Hrem.
    by apply Sound_remove.
Qed.

Lemma flushed_Sound f i d s :
  Sound s -> arr_get (bufTable s) i = Some d ->
  pinCnt d = 0 -> dirty d = false -> Sound (flushed f i d s).
Proof.
  intros Hs Hd Hp Hdirty. unfold flushed.
  eapply (Sound_set_desc _ i d); cbn; try done; [by apply Sound_remove|lia].
Qed.

Lemma flush_frame_Sound f i s r s' :
  Sound s -> flush_frame f i s = Some (r, s') -> Sound s'.
Proof.
  intros Hs H. destruct (arr_get (bufTable s) i) as [d|] eqn:Hd.
  2:{ unfold flush_frame in H. by rewrite Hd in H. }
  pose proof Hd as Hd'. apply arr_get_Some in Hd' as [_ Hd'].
  pose proof (wf_pin _ (sound_wf _ Hs) _ _ Hd') as Hpin.
  destruct (flush_frame_cases f i s d Hd)
    as [(_&_&H1)|[(_&_&Hp&Hdirty&H1)|[(Hv&_&Hp&_&H1)|[(_&_&H1)|(_&H1)]]]].
  1,4,5: rewrite H1 in H; by simplify_eq.
  - rewrite H1 in H. simplify_eq. apply flushed_Sound; try done. lia.
  - destruct (arr_get (bufPool s) i) as [pg|]; [|congruence].
    destruct H1 as (rcw & w & _ & [(_&H1)|(_&H1)]); rewrite H1 in H; simplify_eq.
    { by apply Sound_with_disk. }
    apply flushed_Sound; cbn; try done; [|by eapply arr_get_set_eq|lia].
    eapply (Sound_set_desc _ i d); cbn; try done; [by apply Sound_with_disk|].
    congruence.
Qed.

Lemma flush_loop_Sound f n : forall i s,
  Sound s -> 0 <= i -> i + Z.of_nat n <= numBufs s ->
  exists rc s', flush_loop n f i s = Some (rc, s') /\ Sound s'.
Proof.
  induction n as [|n IH]; intros i s Hs Hi Hn; cbn; [eauto|].
  destruct (arr_get_in_range (bufTable s) i) as [d Hd].
  { rewrite (wf_table _ (sound_wf _ Hs)). lia. }
  destruct (flush_frame_total f i s d (sound_wf _ Hs) Hd) as [[[rc1|] s1] Hfr];
    rewrite Hfr; pose proof (flush_frame_Sound _ _ _ _ _ Hs Hfr) as Hs1; [eauto|].
  destruct (flush_frame_frame _ _ _ _ _ Hfr) as (HN & _).
  apply IH; [done|lia|lia].
Qed.

Lemma run_op_Sound o s :
  Sound s -> exists rc s', run_op o s = Some (rc, s') /\ Sound s'.
Proof.
  intros Hs. destruct o as [f p|f p b|f p0|f p|f]; cbn.
  - rewrite readPage_result. cbn. eauto.
  - by apply unPinPage_Sound.
  - destruct (allocPage_Sound f p0 s Hs) as (rc & pn & fro & s' & -> & Hs').
    cbn. eauto.
  - by apply disposePage_Sound.
  - apply flush_loop_Sound; [done|lia|].
    pose proof (wf_table _ (sound_wf _ Hs)). lia.
Qed.

Lemma Reachable_Sound bufs w s : 0 <= bufs -> Reachable bufs w s -> Sound s.
Proof.
  intros Hb. induction 1 as [|s o rc s' _ IH Hrun].
  - by apply BufMgr_new_Sound.
  - destruct (run_op_Sound o s IH) as (rc' & s'' & Hrun' & Hs'). congruence.
Qed.

(** X12: after any sequence of readPage, unPinPage, allocPage, disposePage
    and flushFile calls on a freshly constructed pool, failed calls
    included, the pool is sound: the descriptor table and the frame pool
    have numBufs entries, every descriptor sits in the slot of its frameNo,
    no pin count is negative, an invalid frame has pin count 0, no file and
    a clear dirty bit, and every index entry names a frame of the pool.
    Every further call then returns, with every array access in bounds. *)
Theorem reachable_sound bufs w s :
  0 <= bufs -> Reachable bufs w s ->
  Sound s /\ forall o, exists rc s', run_op o s = Some (rc, s').
Proof.
  intros Hb Hreach. pose proof (Reachable_Sound _ _ _ Hb Hreach) as Hs.
  split; [done|]. intros o.
  destruct (run_op_Sound o s Hs) as (rc & s' & Hrun & _). eauto.
Qed.

(** *** The first allocation in a fresh pool *)

Lemma BufMgr_new_lookup bufs w (i : nat) :
  Z.of_nat i < bufs ->
  bufTable (BufMgr_new bufs w) !! i = Some (BufDesc_init (Z.of_nat i)).
Proof.
  intros Hi. cbn.
  change (((fun i => BufDesc_init (Z.of_nat i)) <$> seq 0 (Z.to_nat bufs)) !! i
          = Some (BufDesc_init (Z.of_nat i))).
  rewrite list_lookup_fmap, lookup_seq_lt by lia. done.
Qed.

(** X13: the constructor leaves the clock hand on the last frame, so the
    first [allocPage] on a fresh pool of at least one buffer takes frame 0:
    it returns OK with the page number the File handed out, pins the page
    in frame 0, and the only call made on a File is the allocation.  On a
    pool constructed with zero buffers it returns BUFFEREXCEEDED (after
    the page has been allocated in the file). *)
Theorem BufMgr_new_allocPage bufs w f pageNo0 :
  0 <= bufs ->
  exists s',
    allocPage f pageNo0 (BufMgr_new bufs w) =
      Some (if bufs =? 0 then BUFFEREXCEEDED else OK,
            (file_allocatePage f pageNo0 w).1.2,
            if bufs =? 0 then None else Some 0, s') /\
    io s' = [IoAllocate f] /\
    (0 < bufs ->
     clockHand s' = 0 /\
     arr_get (bufTable s') 0 =
       Some (mkBufDesc f (file_allocatePage f pageNo0 w).1.2 0 1 false true true) /\
     hashTable s' = {[ (f, (file_allocatePage f pageNo0 w).1.2) := 0 ]}).
Proof.
  intros Hb. unfold allocPage, do_allocatePage.
  change (disk (BufMgr_new bufs w)) with w.
  destruct (file_allocatePage f pageNo0 w) as [[rca pn] w1]. cbn [fst snd].
  set (s0 := with_disk w1 (IoAllocate f) (BufMgr_new bufs w)).
  assert (WF s0) as Hwf0 by apply WF_with_disk, (BufMgr_new_Inv bufs w Hb).
  destruct (Z.eqb_spec bufs 0) as [->|Hne].
  { exists s0. split; [|split; [done|lia]]. reflexivity. }
  assert (ahead s0 (Z.of_nat 0) = 0) as Hahead.
  { unfold ahead. cbn -[Z.of_nat].
    replace (bufs - 1 + 1 + Z.of_nat 0) with (1 * bufs) by lia.
    by apply Z_mod_mult. }
  assert (arr_get (bufTable s0) 0 = Some (BufDesc_init 0)) as Hd0.
  { change 0 with (Z.of_nat 0) at 1. rewrite arr_get_nat.
    apply (BufMgr_new_lookup bufs w 0). lia. }
  destruct (scan_total s0 Hwf0) as (s1 & numPins & Hscan).
  pose proof (scan_first_candidate (scan_fuel s0 0) s0 0 0 (BufDesc_init 0) Hwf0)
    as Hfirst.
  rewrite Hahead, Hscan in Hfirst.
  destruct Hfirst as [Hhand Hlt]; [lia|done|by left|cbn; lia|intros; lia|].
  pose proof (scan_WF _ s0 0 _ _ Hwf0 ltac:(lia) Hscan) as Hwf1.
  destruct (scan_frame _ _ _ _ _ Hscan) as (HN & _ & Hht & _ & Hio & _ & Hunref).
  destruct (arr_get_in_range (bufTable s1) 0) as [d1 Hd1].
  { rewrite (wf_table _ Hwf1), HN. cbn. lia. }
  destruct (unreferenced_get _ _ _ _ Hunref Hd1) as (d0 & Hd0' & Heq).
  rewrite Hd0 in Hd0'. injection Hd0' as <-.
  assert (valid d1 = false /\ frameNo d1 = 0) as [Hv1 Hfr1].
  { destruct d1. cbn in Heq. by simplify_eq. }
  rewrite (allocBuf_evict _ _ _ Hscan). unfold evict.
  destruct (Z.leb_spec (numBufs s1) numPins) as [Hge|_]; [lia|].
  rewrite Hhand, Hd1, Hv1. cbn -[arr_get]. rewrite Hfr1.
  unfold BufHashTbl_insert. rewrite Hht. cbn -[arr_get].
  rewrite lookup_empty. cbn -[arr_get].
  rewrite Hd1. eexists. split; [done|]. cbn -[arr_get arr_set].
  split; [by rewrite Hio|]. intros _. split; [done|].
  split; [|apply insert_empty].
  erewrite arr_get_set_eq by done. unfold BufDesc_Set. by rewrite Hfr1.
Qed.


End Properties.

(** ** The model run on concrete pools *)

Lemma one_cached_reached : then_allocPage 7 (fresh 1 disk0) = Some one_cached.
Proof. vm_compute. reflexivity. Qed.

Lemma two_pinned_reached :
  then_allocPage 7 (then_allocPage 7 (fresh 2 disk0)) = Some two_pinned.
Proof. vm_compute. reflexivity. Qed.

Lemma one_dirty_reached :
  then_unPinPage 7 1 true (Some two_pinned) = Some one_dirty.
Proof. vm_compute. reflexivity. Qed.

Lemma one_dirty_nowrite_reached :
  then_unPinPage 7 1 true
    (then_allocPage 7 (then_allocPage 7 (fresh 2 disk_nowrite)))
  = Some (one_dirty_on disk_nowrite).
Proof. vm_compute. reflexivity. Qed.

Lemma starved_reached :
  then_unPinPage 7 4 false
    (then_allocPage 7
       (then_unPinPage 7 2 false
          (then_allocPage 7
             (then_allocPage 7 (then_allocPage 7 (fresh 2 disk0))))))
  = Some starved.
Proof. vm_compute. reflexivity. Qed.

Lemma two_pinned_run :
  run_op (OpAllocPage 7 0) (BufMgr_new 2 disk0) =
    Some (OK, mkState 2
                [mkBufDesc 7 1 0 1 false true true; BufDesc_init 1]
                [0; 0] {[ (7, 1) := 0 ]} 0 (mkDisk 2 [] true true) [IoAllocate 7]) /\
  run_op (OpAllocPage 7 0)
         (mkState 2
                [mkBufDesc 7 1 0 1 false true true; BufDesc_init 1]
                [0; 0] {[ (7, 1) := 0 ]} 0 (mkDisk 2 [] true true) [IoAllocate 7])
    = Some (OK, two_pinned) /\
  run_op (OpUnPinPage 7 1 true) two_pinned = Some (OK, one_dirty).
Proof. repeat split; vm_compute; reflexivity. Qed.

Lemma one_dirty_reachable : CleanlyReachable 2 disk0 one_dirty.
Proof.
  destruct two_pinned_run as (H1 & H2 & H3).
  eapply reach_step; [|exact H3|exact I].
  eapply reach_step; [|exact H2|by left].
  eapply reach_step; [|exact H1|by left].
  apply reach_new.
Qed.

Lemma two_pinned_reachable : CleanlyReachable 2 disk0 two_pinned.
Proof.
  destruct two_pinned_run as (H1 & H2 & _).
  eapply reach_step; [|exact H2|by left].
  eapply reach_step; [|exact H1|by left].
  apply reach_new.
Qed.

Lemma two_pinned_Inv : Inv two_pinned.
Proof. apply (CleanlyReachable_Inv 2 disk0); [reflexivity | lia | apply two_pinned_reachable]. Qed.

Lemma one_dirty_Inv : Inv one_dirty.
Proof. apply (CleanlyReachable_Inv 2 disk0); [reflexivity | lia | apply one_dirty_reachable]. Qed.

Lemma two_pinned_all_pinned i d : bufTable two_pinned !! i = Some d -> 0 < pinCnt d.
Proof. destruct i as [|[|i]]; intros; by simplify_eq/=. Qed.

Lemma one_dirty_scan :
  scan (scan_fuel one_dirty 0) one_dirty 0 = LoopDone one_dirty_scanned 0.
Proof. vm_compute. reflexivity. Qed.

(** *** readPage *)

(** C1: on a hit [readPage] returns OK but neither sets the reference bit
    nor adds a pin, and on a miss it returns HASHNOTFOUND without loading
    the page: in the pool [one_cached], where page 1 is cached in frame 0
    with pin count 1, a call for page 1 returns OK with the state as it
    was (the hit branch would have made the pin count 2), and a call for
    page 5 returns HASHNOTFOUND with the state as it was. *)
Theorem readPage_hit_is_lost :
  then_allocPage 7 (fresh 1 disk0) = Some one_cached /\
  hashTable one_cached !! (7, 1) = Some 0 /\
  arr_get (bufTable one_cached) 0 = Some (mkBufDesc 7 1 0 1 false true true) /\
  readPage 7 1 one_cached = Some (OK, None, one_cached) /\
  readPage_hit (Some 0) one_cached =
    Some (OK, Some 0, set_desc 0 (mkBufDesc 7 1 0 2 false true true) one_cached) /\
  hashTable one_cached !! (7, 5) = None /\
  readPage 7 5 one_cached = Some (HASHNOTFOUND, None, one_cached).
Proof.
  split; [apply one_cached_reached|].
  split; [by vm_compute|]. split; [by vm_compute|].
  split; [by rewrite readPage_result|]. split; [by vm_compute|].
  split; [by vm_compute|]. by rewrite readPage_result.
Qed.

(** C2: with every frame pinned, [readPage] of a page that is not cached
    does not return BUFFEREXCEEDED.  In [two_pinned] both frames are pinned
    and page 9 is not cached, and [readPage] returns HASHNOTFOUND with the
    state as it was: the guard returns the status of the lookup before
    Case 1 is reached.  Case 1 itself, run in the same state, returns
    BUFFEREXCEEDED. *)
Theorem readPage_all_pinned_is_not_found :
  then_allocPage 7 (then_allocPage 7 (fresh 2 disk0)) = Some two_pinned /\
  (forall i d, bufTable two_pinned !! i = Some d -> 0 < pinCnt d) /\
  hashTable two_pinned !! (7, 9) = None /\
  readPage 7 9 two_pinned = Some (HASHNOTFOUND, None, two_pinned) /\
  (fun r => r.1) <$> readPage_miss 7 9 two_pinned = Some (BUFFEREXCEEDED, None).
Proof.
  split; [apply two_pinned_reached|].
  split; [apply two_pinned_all_pinned|]. split; [by vm_compute|].
  split; [by rewrite readPage_result|]. vm_compute. reflexivity.
Qed.

(** [allocBuf_all_pinned] at [two_pinned]. *)
Lemma allocBuf_all_pinned_witness :
  exists s',
    allocBuf two_pinned = Some (BUFFEREXCEEDED, None, s') /\
    bufTable s' = unreferenced (bufTable two_pinned) /\
    numBufs s' = numBufs two_pinned /\ bufPool s' = bufPool two_pinned /\
    hashTable s' = hashTable two_pinned /\ disk s' = disk two_pinned /\
    io s' = io two_pinned /\
    forall f p, readPage_miss f p two_pinned = Some (BUFFEREXCEEDED, None, s').
Proof.
  apply (allocBuf_all_pinned two_pinned).
  - apply two_pinned_Inv.
  - apply two_pinned_all_pinned.
Defined.

(** *** allocBuf *)

(** C3: [allocBuf] gives up although a frame is unpinned.  In [starved]
    frame 1 holds page 4 with pin count 0, and [allocBuf] returns
    BUFFEREXCEEDED: the hand meets the pinned frame 0, clears the reference
    bit of frame 1, meets frame 0 again, and the two pinned encounters end
    the loop before frame 1 is looked at a second time. *)
Theorem allocBuf_gives_up_with_unpinned_frame :
  then_unPinPage 7 4 false
    (then_allocPage 7
       (then_unPinPage 7 2 false
          (then_allocPage 7
             (then_allocPage 7 (then_allocPage 7 (fresh 2 disk0))))))
  = Some starved /\
  arr_get (bufTable starved) 1 = Some (mkBufDesc 7 4 1 0 false true true) /\
  (fun r => r.1) <$> allocBuf starved = Some (BUFFEREXCEEDED, None) /\
  (fun r => r.1.1.1) <$> allocPage 7 0 starved = Some BUFFEREXCEEDED.
Proof.
  split; [apply starved_reached|]. repeat split; vm_compute; reflexivity.
Qed.

Lemma one_flushed_WF : WF one_flushed.
Proof.
  split; try reflexivity; try (cbn; lia);
    intros [|[|i]] d Hd; simplify_eq/=; try done; lia.
Qed.

Lemma half_evicted_unpinned_WF : WF half_evicted_unpinned.
Proof.
  split; try reflexivity; try (cbn; lia);
    intros [|[|i]] d Hd; simplify_eq/=; try done; lia.
Qed.

Lemma one_dirty_scanned_WF : WF one_dirty_scanned.
Proof.
  eapply (scan_WF _ one_dirty 0); [apply one_dirty_Inv|lia|apply one_dirty_scan].
Qed.

(** [scan_second_chance] in each of its four cases.  In [one_flushed] the
    hand moves to frame 0, which is invalid, and [allocBuf] hands it out.
    In [two_pinned] it moves to frame 0, whose reference bit is set: the
    bit is cleared and [allocBuf] goes on from there.  In
    [half_evicted_unpinned] it moves to frame 1, which holds an unpinned
    page with its bit clear: [allocBuf] stops there.  In
    [one_dirty_scanned] it moves to frame 1, which is pinned with its bit
    clear: [allocBuf] does not hand it out and leaves it as it is. *)
Lemma scan_second_chance_witness :
  allocBuf one_flushed =
    Some (OK, Some 0,
          mkState 2 (bufTable one_flushed) (bufPool one_flushed)
                  (hashTable one_flushed) 0 (disk one_flushed) (io one_flushed)) /\
  allocBuf two_pinned =
    allocBuf (mkState 2
                [mkBufDesc 7 1 0 1 false false true; mkBufDesc 7 2 1 1 false true true]
                (bufPool two_pinned) (hashTable two_pinned) 0
                (disk two_pinned) (io two_pinned)) /\
  (exists rc fro s',
     allocBuf half_evicted_unpinned = Some (rc, fro, s') /\ clockHand s' = 1 /\
     bufTable s' = bufTable half_evicted_unpinned /\ rc <> BUFFEREXCEEDED /\
     (rc = OK -> fro = Some 1)) /\
  (forall rc fro s',
     allocBuf one_dirty_scanned = Some (rc, fro, s') ->
     fro <> Some 1 /\
     arr_get (bufTable s') 1 = Some (mkBufDesc 7 2 1 1 false false true)).
Proof.
  destruct (scan_second_chance one_flushed (mkBufDesc NULL (-1) 0 0 false true false)
              one_flushed_WF eq_refl) as (H1 & _).
  destruct (scan_second_chance two_pinned (mkBufDesc 7 1 0 1 false true true)
              (proj1 two_pinned_Inv) eq_refl) as (_ & H2 & _).
  destruct (scan_second_chance half_evicted_unpinned
              (mkBufDesc 7 2 1 0 false false true)
              half_evicted_unpinned_WF eq_refl) as (_ & _ & H3 & _).
  destruct (scan_second_chance one_dirty_scanned (mkBufDesc 7 2 1 1 false false true)
              one_dirty_scanned_WF eq_refl) as (_ & _ & _ & H4 & _).
  split; [exact (proj2 (H1 eq_refl))|].
  split; [exact (proj1 (proj2 (H2 eq_refl eq_refl)))|].
  split; [exact (proj2 (H3 eq_refl eq_refl eq_refl))|].
  exact (proj2 (H4 eq_refl eq_refl eq_refl)).
Defined.

(** [allocBuf_evicts_valid_victim] at [one_dirty], where the loop stops
    at frame 0, which holds the dirty page 1. *)
Lemma allocBuf_evicts_valid_victim_witness :
  let d := mkBufDesc 7 1 0 0 true false true in
  (hashTable one_dirty_scanned = hashTable one_dirty /\
   disk one_dirty_scanned = disk one_dirty /\ io one_dirty_scanned = io one_dirty) /\
  (hashTable one_dirty_scanned !! (file d, pageNo d) = None ->
     allocBuf one_dirty = Some (HASHTBLERROR, None, one_dirty_scanned)) /\
  (is_Some (hashTable one_dirty_scanned !! (file d, pageNo d)) -> dirty d = false ->
     allocBuf one_dirty = Some (OK, Some (frameNo d), unindexed d one_dirty_scanned)) /\
  (is_Some (hashTable one_dirty_scanned !! (file d, pageNo d)) -> dirty d = true ->
     forall pg rcw w,
       arr_get (bufPool one_dirty_scanned) (clockHand one_dirty_scanned) = Some pg ->
       file_writePage (file d) (pageNo d) pg (disk one_dirty_scanned) = (rcw, w) ->
       allocBuf one_dirty =
         Some (if status_eq rcw OK then (OK, Some (frameNo d)) else (UNIXERR, None),
               written_back d pg w one_dirty_scanned) /\
       io (written_back d pg w one_dirty_scanned) =
         io one_dirty ++ [IoWrite (file d) (pageNo d) pg] /\
       hashTable (written_back d pg w one_dirty_scanned) !! (file d, pageNo d) = None).
Proof.
  apply (allocBuf_evicts_valid_victim one_dirty one_dirty_scanned 0
           (mkBufDesc 7 1 0 0 true false true)).
  - apply one_dirty_scan.
  - reflexivity.
  - reflexivity.
  - reflexivity.
Defined.

(** C5 fails as stated: a failed write-back is not reported with the
    status the File gave.  On a File that refuses writes with BADBUFFER,
    [allocBuf] in [one_dirty], whose victim is the dirty page 1, returns
    UNIXERR; [flushFile], which writes the same page back, does return the
    status of the File. *)
Lemma allocBuf_write_back_status_counterexample :
  (s1 ← snd <$> allocPage (fs := Refusing_fs) 7 0 (BufMgr_new 2 disk0);
   s2 ← snd <$> allocPage (fs := Refusing_fs) 7 0 s1;
   snd <$> unPinPage 7 1 true s2) = Some one_dirty /\
  file_writePage (FileSys := Refusing_fs) 7 1 0 (disk one_dirty)
    = (BADBUFFER, disk one_dirty) /\
  (fun r => r.1) <$> allocBuf (fs := Refusing_fs) one_dirty = Some (UNIXERR, None) /\
  (fun r => r.1) <$> flushFile (fs := Refusing_fs) 7 one_dirty = Some BADBUFFER.
Proof. repeat split; vm_compute; reflexivity. Qed.

(** *** unPinPage *)

(** [unPinPage_spec] at work: a successful unpin that marks the page
    dirty, a page that is not cached, and a page that is not pinned. *)
Lemma unPinPage_spec_witness :
  unPinPage 7 1 true two_pinned = Some (OK, one_dirty) /\
  unPinPage 7 9 true two_pinned = Some (HASHNOTFOUND, two_pinned) /\
  unPinPage 7 1 false one_dirty = Some (PAGENOTPINNED, one_dirty).
Proof.
  destruct (unPinPage_spec 7 1 true two_pinned) as (_ & _ & H3 & _).
  destruct (unPinPage_spec 7 9 true two_pinned) as (H1 & _).
  destruct (unPinPage_spec 7 1 false one_dirty) as (_ & H2 & _).
  split; [|split].
  - apply (H3 0 (mkBufDesc 7 1 0 1 false true true)); [reflexivity..|discriminate].
  - apply H1. reflexivity.
  - apply (H2 0 (mkBufDesc 7 1 0 0 true true true)); reflexivity.
Defined.

(** [unPinPage_keeps_refbit] at the call that leads from [two_pinned] to
    [one_dirty]. *)
Lemma unPinPage_keeps_refbit_witness :
  map refbit (bufTable one_dirty) = map refbit (bufTable two_pinned) /\
  map identity_fields (bufTable one_dirty) = map identity_fields (bufTable two_pinned) /\
  (forall i, hashTable two_pinned !! (7, 1) <> Some i ->
             arr_get (bufTable one_dirty) i = arr_get (bufTable two_pinned) i) /\
  numBufs one_dirty = numBufs two_pinned /\ bufPool one_dirty = bufPool two_pinned /\
  hashTable one_dirty = hashTable two_pinned /\
  clockHand one_dirty = clockHand two_pinned /\
  disk one_dirty = disk two_pinned /\ io one_dirty = io two_pinned.
Proof.
  apply (unPinPage_keeps_refbit 7 1 true two_pinned OK one_dirty).
  vm_compute. reflexivity.
Defined.

(** *** allocPage *)

(** C7: [allocPage] returns OK although the File failed to allocate a
    page.  On storage where every allocation fails with UNIXERR, a call on
    a fresh pool of one frame returns OK, hands out frame 0 and enters the
    stale page number 0 in the index. *)
Theorem allocPage_ignores_allocation_failure :
  (file_allocatePage 7 0 disk_noalloc).1.1 = UNIXERR /\
  exists s',
    allocPage 7 0 (BufMgr_new 1 disk_noalloc) = Some (OK, 0, Some 0, s') /\
    hashTable s' !! (7, 0) = Some 0 /\
    arr_get (bufTable s') 0 = Some (mkBufDesc 7 0 0 1 false true true).
Proof.
  split; [reflexivity|]. eexists. split; [vm_compute; reflexivity|].
  split; vm_compute; reflexivity.
Qed.

(** *** flushFile *)

(** C8 fails as stated: in [one_dirty] page 2 of the file is pinned, and
    [flushFile] returns PAGEPINNED, but only after it has written the
    dirty page 1 back, removed it from the index and invalidated its
    frame. *)
Lemma flushFile_pinned_counterexample :
  then_unPinPage 7 1 true (Some two_pinned) = Some one_dirty /\
  arr_get (bufTable one_dirty) 1 = Some (mkBufDesc 7 2 1 1 false true true) /\
  arr_get (bufTable one_dirty) 0 = Some (mkBufDesc 7 1 0 0 true true true) /\
  hashTable one_dirty !! (7, 1) = Some 0 /\
  flushFile 7 one_dirty = Some (PAGEPINNED, one_flushed) /\
  io one_flushed = io one_dirty ++ [IoWrite 7 1 0] /\
  hashTable one_flushed !! (7, 1) = None /\
  arr_get (bufTable one_flushed) 0 = Some (mkBufDesc NULL (-1) 0 0 false true false).
Proof.
  split; [apply one_dirty_reached|]. repeat split; vm_compute; reflexivity.
Qed.

(** [flushFile_pinned] at [one_dirty], where frame 1 is the pinned one and
    writes are switched on: the status is PAGEPINNED. *)
Lemma flushFile_pinned_witness :
  exists s',
    flushFile 7 one_dirty = Some (PAGEPINNED, s') /\
    (forall (j : nat) dj, (1 <= j)%nat -> bufTable one_dirty !! j = Some dj ->
       bufTable s' !! j = Some dj /\
       (valid dj = true ->
        hashTable s' !! (file dj, pageNo dj) = Some (Z.of_nat j))) /\
    bufPool s' = bufPool one_dirty /\
    (exists evs, io s' = io one_dirty ++ evs /\
                 Forall (flush_write 7 one_dirty 0 (Z.of_nat 1)) evs).
Proof.
  destruct (flushFile_pinned 7 one_dirty 1 (mkBufDesc 7 2 1 1 false true true))
    as (rc & s' & Hflush & _ & Hlater & Hpool & Hio & Hstatus & _).
  - apply one_dirty_Inv.
  - reflexivity.
  - split; [reflexivity | reflexivity].
  - reflexivity.
  - assert (rc = PAGEPINNED) as ->.
    { apply Hstatus with (Wok := fun w => d_write_ok w = true).
      - discriminate.
      - intros f' p pg w Hw. simpl. rewrite Hw. split; reflexivity.
      - reflexivity. }
    exists s'. split; [exact Hflush|]. split; [exact Hlater|].
    split; [exact Hpool | exact Hio].
Defined.

(** *** The index bijection *)

(** C9 fails as stated: on storage that fails writes, [allocPage] in
    [one_dirty] picks frame 0, removes page 1 from the index, fails to
    write it back and returns UNIXERR; frame 0 is then valid with no index
    entry, and it stays so after the next call, an [unPinPage] that
    returns OK. *)
Lemma index_bijection_counterexample :
  then_unPinPage 7 1 true
    (then_allocPage 7 (then_allocPage 7 (fresh 2 disk_nowrite)))
  = Some (one_dirty_on disk_nowrite) /\
  allocPage 7 0 (one_dirty_on disk_nowrite) = Some (UNIXERR, 3, None, half_evicted) /\
  ~ index_bijection half_evicted /\
  unPinPage 7 2 false half_evicted = Some (OK, half_evicted_unpinned) /\
  ~ index_bijection half_evicted_unpinned.
Proof.
  split; [apply one_dirty_nowrite_reached|].
  split; [vm_compute; reflexivity|]. split; [|split; [vm_compute; reflexivity|]].
  - intros (H & _).
    destruct (H 0%nat (mkBufDesc 7 1 0 0 true false true) eq_refl eq_refl)
      as (k & Hk & _).
    change (({[ (7, 2) := 1 ]} : gmap (File * Z) Z) !! k = Some 0) in Hk.
    apply lookup_singleton_Some in Hk as [_ ?]. discriminate.
  - intros (H & _).
    destruct (H 0%nat (mkBufDesc 7 1 0 0 true false true) eq_refl eq_refl)
      as (k & Hk & _).
    change (({[ (7, 2) := 1 ]} : gmap (File * Z) Z) !! k = Some 0) in Hk.
    apply lookup_singleton_Some in Hk as [_ ?]. discriminate.
Qed.

(** Why [reachable_index_bijection] asks for an index that refuses
    duplicates: with one that replaces, two calls of [allocPage] that both
    return OK (over a File whose allocation fails, so that both are for
    page 0) leave frame 0 valid with no index entry. *)
Lemma replacing_index_breaks_bijection :
  (r ← allocPage (hs := replacing_index) 7 0 (BufMgr_new 2 disk_noalloc);
   (fun r' => (r.1.1.1, r'.1.1.1, r'.2))
     <$> allocPage (hs := replacing_index) 7 0 r.2)
  = Some (OK, OK, two_for_one) /\
  ~ index_bijection two_for_one.
Proof.
  split; [vm_compute; reflexivity|].
  intros (H & _).
  destruct (H 0%nat (mkBufDesc 7 0 0 1 false true true) eq_refl eq_refl)
    as (k & Hk & _).
  change (({[ (7, 0) := 1 ]} : gmap (File * Z) Z) !! k = Some 0) in Hk.
  apply lookup_singleton_Some in Hk as [_ ?]. discriminate.
Qed.

(** [reachable_index_bijection] at [one_dirty]. *)
Lemma reachable_index_bijection_witness :
  index_bijection one_dirty /\
  forall o, exists rc s',
    run_op o one_dirty = Some (rc, s') /\ (clean o rc -> index_bijection s').
Proof.
  apply (reachable_index_bijection 2 disk0 one_dirty).
  - reflexivity.
  - lia.
  - apply one_dirty_reachable.
Defined.

(** *** Further properties, at concrete pools *)

Lemma one_unpinned_reachable : CleanlyReachable 1 disk0 one_unpinned.
Proof.
  eapply (reach_step _ _ one_cached (OpUnPinPage 7 1 true) OK);
    [|vm_compute; reflexivity|exact I].
  eapply (reach_step _ _ (BufMgr_new 1 disk0) (OpAllocPage 7 0) OK);
    [|vm_compute; reflexivity|by left].
  apply reach_new.
Qed.

Lemma one_unpinned_Inv : Inv one_unpinned.
Proof.
  apply (CleanlyReachable_Inv 1 disk0);
    [reflexivity | lia | apply one_unpinned_reachable].
Qed.

Lemma one_dirty_Reachable : Reachable 2 disk0 one_dirty.
Proof.
  destruct two_pinned_run as (H1 & H2 & H3).
  eapply reachable_step; [|exact H3].
  eapply reachable_step; [|exact H2].
  eapply reachable_step; [|exact H1].
  apply reachable_new.
Qed.

(** [scan_within_two_rounds] at [one_dirty], a pool of two frames, with
    four iterations. *)
Lemma scan_within_two_rounds_witness :
  exists s' numPins,
    scan 4 one_dirty 0 = LoopDone s' numPins /\
    allocBuf one_dirty = evict s' numPins.
Proof.
  apply (scan_within_two_rounds one_dirty 4).
  - apply one_dirty_Inv.
  - simpl. lia.
Defined.

(** [allocBuf_frame] at [one_dirty], where the victim is the dirty page 1
    in frame 0. *)
Lemma allocBuf_frame_witness :
  numBufs one_dirty_evicted = numBufs one_dirty /\
  bufPool one_dirty_evicted = bufPool one_dirty /\
  unreferenced (bufTable one_dirty_evicted) = unreferenced (bufTable one_dirty) /\
  (forall i d', bufTable one_dirty_evicted !! i = Some d' -> refbit d' = true ->
                bufTable one_dirty !! i = Some d') /\
  (hashTable one_dirty_evicted = hashTable one_dirty \/
   exists k, is_Some (hashTable one_dirty !! k) /\
             hashTable one_dirty_evicted = delete k (hashTable one_dirty)) /\
  ((io one_dirty_evicted = io one_dirty /\ disk one_dirty_evicted = disk one_dirty) \/
   exists f p pg, io one_dirty_evicted = io one_dirty ++ [IoWrite f p pg]) /\
  (is_Some (Some 0) <-> OK = OK).
Proof.
  apply (allocBuf_frame one_dirty OK (Some 0) one_dirty_evicted).
  vm_compute. reflexivity.
Defined.

(** [allocBuf_takes_first_candidate] at [one_dirty_scanned], where the
    hand is on frame 0: the next frame, frame 1, is pinned, and the one
    after it, frame 0, holds an unpinned page with its reference bit
    clear. *)
Lemma allocBuf_takes_first_candidate_witness :
  exists rc fro s',
    allocBuf one_dirty_scanned = Some (rc, fro, s') /\
    clockHand s' = ahead one_dirty_scanned (Z.of_nat 1) /\
    rc <> BUFFEREXCEEDED /\
    (rc = OK -> fro = Some (ahead one_dirty_scanned (Z.of_nat 1))).
Proof.
  apply (allocBuf_takes_first_candidate one_dirty_scanned 1
           (mkBufDesc 7 1 0 0 true false true)).
  - apply one_dirty_scanned_WF.
  - simpl. lia.
  - vm_compute. reflexivity.
  - right. split; reflexivity.
  - intros j' d' Hj' Hd'. assert (j' = 0) as -> by lia.
    vm_compute in Hd'. injection Hd' as <-.
    intros [H|[_ H]]; discriminate H.
Defined.

(** [allocBuf_unpinned_pool] at [one_unpinned], whose one frame holds an
    unpinned page with its reference bit set. *)
Lemma allocBuf_unpinned_pool_witness :
  exists rc fro s',
    allocBuf one_unpinned = Some (rc, fro, s') /\ rc <> BUFFEREXCEEDED.
Proof.
  apply (allocBuf_unpinned_pool one_unpinned).
  - apply one_unpinned_Inv.
  - simpl. lia.
  - intros i d Hd. destruct i as [|i]; [|discriminate Hd].
    injection Hd as <-. reflexivity.
Defined.


(** [allocPage_then_unPinPage] at the same allocation: page 1 is unpinned
    as dirty, and cannot be unpinned again. *)
Lemma allocPage_then_unPinPage_witness :
  exists fr d s'',
    Some 0 = Some fr /\
    unPinPage 7 1 true one_cached = Some (OK, s'') /\
    arr_get (bufTable s'') fr = Some d /\
    pinCnt d = 0 /\ dirty d = true /\ valid d = true /\ file d = 7 /\ pageNo d = 1 /\
    unPinPage 7 1 false s'' = Some (PAGENOTPINNED, s'').
Proof.
  apply (allocPage_then_unPinPage 7 0 (BufMgr_new 1 disk0) 1 (Some 0) one_cached
           true false).
  vm_compute. reflexivity.
Defined.

(** [disposePage_spec] at [one_cached], where page 1 is pinned: it is
    disposed of all the same. *)
Lemma disposePage_spec_witness :
  hashTable one_disposed !! (7, 1) = None /\
  (forall k, k <> (7, 1) -> hashTable one_disposed !! k = hashTable one_cached !! k) /\
  io one_disposed = io one_cached ++ [IoDispose 7 1] /\
  (OK, disk one_disposed) = file_disposePage 7 1 (disk one_cached) /\
  bufPool one_disposed = bufPool one_cached /\
  clockHand one_disposed = clockHand one_cached /\
  (forall fr, hashTable one_cached !! (7, 1) = Some fr ->
     exists d, arr_get (bufTable one_cached) fr = Some d /\
               arr_get (bufTable one_disposed) fr =
                 Some (mkBufDesc NULL (-1) (frameNo d) 0 false false false)) /\
  (forall j, hashTable one_cached !! (7, 1) <> Some j ->
             arr_get (bufTable one_disposed) j = arr_get (bufTable one_cached) j).
Proof.
  apply (disposePage_spec 7 1 one_cached OK one_disposed).
  vm_compute. reflexivity.
Defined.

(** [allocPage_failure] on storage that fails writes: the allocation in
    [one_dirty] that leads to [half_evicted] returns UNIXERR, and page 3
    stays allocated in the file. *)
Lemma allocPage_failure_witness :
  (None : option Z) = None /\
  3 = (file_allocatePage 7 0 (disk (one_dirty_on disk_nowrite))).1.2 /\
  (io half_evicted = io (one_dirty_on disk_nowrite) ++ [IoAllocate 7] \/
   exists f' p pg,
     io half_evicted =
       io (one_dirty_on disk_nowrite) ++ [IoAllocate 7; IoWrite f' p pg]) /\
  bufPool half_evicted = bufPool (one_dirty_on disk_nowrite) /\
  unreferenced (bufTable half_evicted) =
    unreferenced (bufTable (one_dirty_on disk_nowrite)) /\
  (forall k fr, hashTable half_evicted !! k = Some fr ->
                hashTable (one_dirty_on disk_nowrite) !! k = Some fr).
Proof.
  apply (allocPage_failure 7 0 (one_dirty_on disk_nowrite) UNIXERR 3 None
           half_evicted).
  - vm_compute. reflexivity.
  - discriminate.
Defined.

(** [BufMgr_destroy_writes] at [one_dirty]: the one dirty page, page 1, is
    written. *)
Lemma BufMgr_destroy_writes_witness :
  exists w,
    BufMgr_destroy one_dirty =
      Some (w, io one_dirty ++ [IoWrite 7 1 0]).
Proof.
  apply (BufMgr_destroy_writes one_dirty). apply one_dirty_Inv.
Defined.

(** [flushFile_OK] at [one_unpinned], which [flushFile] takes to
    [one_written]. *)
Lemma flushFile_OK_witness :
  bufTable one_written = map (flush_desc 7) (bufTable one_unpinned) /\
  io one_written =
    io one_unpinned ++ writes_of (fun d => holds 7 d && dirty d)
                                 (bufTable one_unpinned) (bufPool one_unpinned) /\
  (forall i d, bufTable one_unpinned !! i = Some d -> holds 7 d = true ->
               pinCnt d = 0) /\
  (forall p, hashTable one_written !! (7, p) = None) /\
  (forall f' p, f' <> 7 ->
                hashTable one_written !! (f', p) = hashTable one_unpinned !! (f', p)) /\
  bufPool one_written = bufPool one_unpinned /\
  clockHand one_written = clockHand one_unpinned /\ Inv one_written.
Proof.
  apply (flushFile_OK 7 one_unpinned one_written).
  - apply one_unpinned_Inv.
  - vm_compute. reflexivity.
Defined.

(** [flushFile_succeeds] at [one_unpinned], on storage whose writes are
    switched on. *)
Lemma flushFile_succeeds_witness :
  exists s', flushFile 7 one_unpinned = Some (OK, s').
Proof.
  apply (flushFile_succeeds (fun w => d_write_ok w = true) 7 one_unpinned).
  - apply one_unpinned_Inv.
  - discriminate.
  - intros f' p pg w Hw. simpl. rewrite Hw. split; reflexivity.
  - reflexivity.
  - intros i d Hd _. destruct i as [|i]; [|discriminate Hd].
    injection Hd as <-. reflexivity.
Defined.

(** [reachable_sound] at [one_dirty]. *)
Lemma reachable_sound_witness :
  Sound one_dirty /\ forall o, exists rc s', run_op o one_dirty = Some (rc, s').
Proof.
  apply (reachable_sound 2 disk0 one_dirty).
  - lia.
  - apply one_dirty_Reachable.
Defined.

(** [BufMgr_new_allocPage] at a pool of one frame. *)
Lemma BufMgr_new_allocPage_witness :
  exists s',
    allocPage 7 0 (BufMgr_new 1 disk0) =
      Some (if 1 =? 0 then BUFFEREXCEEDED else OK,
            (file_allocatePage 7 0 disk0).1.2,
            if 1 =? 0 then None else Some 0, s') /\
    io s' = [IoAllocate 7] /\
    (0 < 1 ->
     clockHand s' = 0 /\
     arr_get (bufTable s') 0 =
       Some (mkBufDesc 7 (file_allocatePage 7 0 disk0).1.2 0 1 false true true) /\
     hashTable s' = {[ (7, (file_allocatePage 7 0 disk0).1.2) := 0 ]}).
Proof.
  apply (BufMgr_new_allocPage 1 disk0 7 0). lia.
Defined.
